(** * xtmono/plugins: the multicni dispatcher, the host-device handler
      and the vdn-dhcp address plugin

  A shallow embedding of [plugins/main/multicni/multicni.go] and
  [plugins/main/host-device/host-device.go], and the properties of the
  interface-name allocator, the link resolver, the namespace migrator and
  the delegation dispatcher that the specification states; and of the
  address plugin [plugins/ipam/vdn-dhcp/vdn-dhcp.go] with its REST client
  [http_rest.go], in the revision whose client is the type [RestClient].

  Conventions.  A Go [string] is a Rocq [string] read as its bytes; [int]
  is 64 bits wide (amd64, arm64) and is a [Z] with the wrap-around written
  out.  A Go function returning [(T, error)] returns a [res T]; one
  returning [error] returns a [ret] where it can panic and an
  [option error] where it cannot.  Calls to the journal only log and are
  left out. *)

From Stdlib Require Import ZArith Ascii String List Bool Lia.
From stdpp Require Import base option list strings pretty gmap.

Set Warnings "-register-all".

Local Open Scope string_scope.
Local Open Scope Z_scope.

(** ** Go strings, bytes and runes *)

Module GoString.

Definition byte_of (a : ascii) : Z := Z.of_N (N_of_ascii a).
Definition ascii_of (b : Z) : ascii := ascii_of_N (Z.to_N b).

Definition bytes (s : string) : list Z := byte_of <$> list_ascii_of_string s.
Definition of_bytes (bs : list Z) : string :=
  string_of_list_ascii (ascii_of <$> bs).

(** [utf8.RuneError], U+FFFD. *)
Definition RuneError : Z := 65533.
Definition MaxRune : Z := 1114111.

(** The table [first] of [unicode/utf8] with its accept ranges: for a
    leading byte, the length of the sequence and the range the second byte
    must lie in; [None] for a byte that starts no sequence. *)
Definition first (b0 : Z) : option (Z * Z * Z) :=
  if (194 <=? b0) && (b0 <=? 223) then Some (2, 128, 191)
  else if b0 =? 224 then Some (3, 160, 191)
  else if (225 <=? b0) && (b0 <=? 236) then Some (3, 128, 191)
  else if b0 =? 237 then Some (3, 128, 159)
  else if (238 <=? b0) && (b0 <=? 239) then Some (3, 128, 191)
  else if b0 =? 240 then Some (4, 144, 191)
  else if (241 <=? b0) && (b0 <=? 243) then Some (4, 128, 191)
  else if b0 =? 244 then Some (4, 128, 143)
  else None.

Definition within (lo hi b : Z) : bool := (lo <=? b) && (b <=? hi).
Definition cont (b : Z) : bool := within 128 191 b.
Definition low6 (b : Z) : Z := Z.land b 63.

(** [[]rune(s)]: the decoding loop of [for _, r := range s].  An ill-formed
    sequence yields [RuneError] and consumes one byte. *)
Fixpoint decode (s : list Z) : list Z :=
  match s with
  | [] => []
  | b0 :: t0 =>
    if b0 <? 128 then b0 :: decode t0
    else
      match first b0 with
      | None => RuneError :: decode t0
      | Some (sz, lo, hi) =>
        match t0 with
        | [] => RuneError :: decode t0
        | b1 :: t1 =>
          if negb (within lo hi b1) then RuneError :: decode t0
          else if sz <=? 2 then
            Z.lor (Z.shiftl (Z.land b0 31) 6) (low6 b1) :: decode t1
          else
            match t1 with
            | [] => RuneError :: decode t0
            | b2 :: t2 =>
              if negb (cont b2) then RuneError :: decode t0
              else if sz <=? 3 then
                Z.lor (Z.shiftl (Z.land b0 15) 12)
                  (Z.lor (Z.shiftl (low6 b1) 6) (low6 b2)) :: decode t2
              else
                match t2 with
                | [] => RuneError :: decode t0
                | b3 :: t3 =>
                  if negb (cont b3) then RuneError :: decode t0
                  else
                    Z.lor (Z.shiftl (Z.land b0 7) 18)
                      (Z.lor (Z.shiftl (low6 b1) 12)
                         (Z.lor (Z.shiftl (low6 b2) 6) (low6 b3)))
                    :: decode t3
                end
            end
        end
      end
  end.

(** [utf8.EncodeRune]. *)
Definition encode (r : Z) : list Z :=
  if (0 <=? r) && (r <=? 127) then [r]
  else if (0 <=? r) && (r <=? 2047) then
    [Z.lor 192 (Z.shiftr r 6); Z.lor 128 (low6 r)]
  else if (r <? 0) || (MaxRune <? r) || within 55296 57343 r then
    [239; 191; 189]
  else if r <=? 65535 then
    [Z.lor 224 (Z.shiftr r 12); Z.lor 128 (low6 (Z.shiftr r 6));
     Z.lor 128 (low6 r)]
  else
    [Z.lor 240 (Z.shiftr r 18); Z.lor 128 (low6 (Z.shiftr r 12));
     Z.lor 128 (low6 (Z.shiftr r 6)); Z.lor 128 (low6 r)].

Definition runes (s : string) : list Z := decode (bytes s).
Definition of_runes (rs : list Z) : string :=
  of_bytes (concat (encode <$> rs)).

Definition is_digit (b : Z) : bool := within 48 57 b.

(** [strings.LastIndexAny(s, "0123456789")]: the byte index of the last
    decimal digit of [s], or -1.  [go i bs] scans [bs], whose first byte
    has index [i], and keeps the last hit. *)
Fixpoint last_digit_from (i : Z) (bs : list Z) (found : Z) : Z :=
  match bs with
  | [] => found
  | b :: bs' => last_digit_from (i + 1) bs' (if is_digit b then i else found)
  end.

Definition LastIndexAnyDigit (s : string) : Z :=
  last_digit_from 0 (bytes s) (-1).

Definition MaxInt : Z := 2 ^ 63 - 1.
Definition MinInt : Z := - 2 ^ 63.

(** [int] arithmetic wraps around. *)
Definition wrap (z : Z) : Z := (z + 2 ^ 63) mod 2 ^ 64 - 2 ^ 63.

(** [strconv.Atoi]: the value and whether an error is returned.  A syntax
    error returns 0, a range error the nearest bound. *)
Definition Atoi (s : string) : Z * bool :=
  match bytes s with
  | [] => (0, true)
  | c :: rest =>
    let neg := c =? 45 in
    let ds := if (c =? 45) || (c =? 43) then rest else c :: rest in
    match ds with
    | [] => (0, true)
    | _ =>
      if forallb is_digit ds then
        let n := fold_left (fun acc d => acc * 10 + (d - 48)) ds 0 in
        if neg then
          if 2 ^ 63 <? n then (MinInt, true) else (- n, false)
        else
          if 2 ^ 63 <=? n then (MaxInt, true) else (n, false)
      else (0, true)
    end
  end.

(** [fmt.Sprintf("%d", i)]. *)
Definition Itoa (i : Z) : string := pretty i.

Definition is_ascii (s : string) : bool :=
  forallb (fun b => b <? 128) (bytes s).

(** A byte, or a rune, that is no decimal digit; the proofs about the
    allocator count digits with these. *)
Definition nodigit (b : Z) : Prop := is_digit b = false.
Definition plain (b : Z) : Prop := 0 <= b < 256 /\ is_digit b = false.

(** A byte, or a rune, other than NUL. *)
Definition nonzero (b : Z) : Prop := b <> 0.

End GoString.

(** ** The interface-name allocator ([getifname], multicni.go) *)

Module Allocator.
Import GoString.

(** The variables the closure returned by [getifname] captures. *)
Record podif := Podif {
  ifname : string;
  prefix : string;
  ifIdx : Z
}.

(** [getifname]; [None] is the run-time panic of a slice expression out of
    range ([idx] is a byte index, used on the rune slice). *)
Definition getifname (name : string) : option podif :=
  let idx := LastIndexAnyDigit name in
  if idx <? 0 then Some (Podif name name 0)
  else
    let rs := runes name in
    if Z.of_nat (length rs) <? idx then None
    else
      let pre := of_runes (take (Z.to_nat idx) rs) in
      let '(i, err) := Atoi (of_runes (drop (Z.to_nat idx) rs)) in
      Some (Podif name pre (if err then i else 0)).

(** One call of the closure: the name, whether it is the primary one, and
    the closure afterwards. *)
Definition produce (g : podif) : string * bool * podif :=
  if ifIdx g =? 0 then
    (ifname g, true, Podif (ifname g) (prefix g) (wrap (ifIdx g + 1)))
  else
    (prefix g +:+ Itoa (ifIdx g), false,
     Podif (ifname g) (prefix g) (wrap (ifIdx g + 1))).

(** [n] successive calls, with their results in call order. *)
Fixpoint produce_n (n : nat) (g : podif) : list (string * bool) * podif :=
  match n with
  | O => ([], g)
  | S n' =>
    let '(s, p, g') := produce g in
    let '(l, g'') := produce_n n' g' in
    ((s, p) :: l, g'')
  end.

Definition calls (n : nat) (name : string) : option (list (string * bool)) :=
  g ← getifname name; Some (fst (produce_n n g)).

(** The result of call number [i], counted from 0, of a closure that starts
    at index 0; the properties of the allocator are stated with it. *)
Definition nth_call (g : podif) (i : nat) : string * bool :=
  match i with
  | O => (ifname g, true)
  | S _ => (prefix g +:+ Itoa (Z.of_nat i), false)
  end.

End Allocator.

(** ** Errors and results *)

(** An [error] value: one a collaborator returned, or one built by
    [fmt.Errorf] or [errors.New], kept as the format with its string and
    error arguments. *)
Inductive error : Type :=
| External (msg : string)
| Errorf (format : string) (strs : list string) (errs : list error).

(** What a function returning [(T, error)] returns. *)
Inductive res (A : Type) : Type :=
| Ok (a : A)
| Error (e : error).
Arguments Ok {A} a.
Arguments Error {A} e.

(** What a function returning [error] does: it returns nil, returns an
    error, or panics. *)
Inductive ret : Type :=
| Nil
| Fail (e : error)
| Panicked.

(** ** The dispatcher ([multicni.go]) *)

Module Multicni.
Import GoString Allocator.

(** A decoded JSON value, as [encoding/json] stores it in an
    [interface{}]; a number keeps its literal. *)
Inductive json : Type :=
| JNull
| JBool (b : bool)
| JNumber (literal : string)
| JString (s : string)
| JArray (items : list json)
| JObject (fields : list (string * json)).

(** [map[string]interface{}]: one entry of [plugins]. *)
Abbreviation plugin := (gmap string json).

Record NetConf := {
  Kubeconfig : string;
  Default : string;
  Plugins : list plugin
}.

Record K8sArgs := {
  K8S_POD_NAME : string;
  K8S_POD_NAMESPACE : string;
  K8S_POD_INFRA_CONTAINER_ID : string
}.

Record CmdArgs := {
  ContainerID : string;
  Netns : string;
  IfName : string;
  Args : string;
  Path : string;
  StdinData : string
}.

(** What the process does that its caller or a delegate can observe. *)
Inductive event (Result : Type) : Type :=
| InvokedAdd (type netconfBytes CNI_IFNAME : string) (answer : res Result)
| InvokedDel (type netconfBytes CNI_IFNAME : string) (answer : option error)
| Printed (result : Result).
Arguments InvokedAdd {Result} type netconfBytes CNI_IFNAME answer.
Arguments InvokedDel {Result} type netconfBytes CNI_IFNAME answer.
Arguments Printed {Result} result.

(** The state a command runs in: the world outside the process, the
    process environment, and the events so far. *)
Record proc (W Result : Type) := Proc {
  world : W;
  environ : gmap string string;
  trace : list (event Result)
}.
Arguments Proc {W Result} world environ trace.
Arguments world {W Result} p.
Arguments environ {W Result} p.
Arguments trace {W Result} p.

(** The collaborators of the dispatcher: the JSON codec, the Kubernetes
    client, the delegate invocation of [cni/pkg/invoke] and the printing of
    a result.  A delegate sees the world and the process environment, and
    changes the world. *)
Record Collaborators (W Config Clientset Result : Type) := {
  Unmarshal_NetConf : string -> res NetConf;
  Unmarshal_strings : string -> res (list string);
  Marshal : plugin -> res string;
  BuildConfigFromFlags : W -> string -> string -> res Config;
  NewForConfig : W -> Config -> res Clientset;
  LoadArgs : string -> res K8sArgs;
  PodsGet : W -> Clientset -> string -> string -> res (gmap string string);
  DelegateAdd : W -> gmap string string -> string -> string -> W * res Result;
  DelegateDel : W -> gmap string string -> string -> string -> W * option error;
  Print : Result -> option error
}.
Arguments Unmarshal_NetConf {W Config Clientset Result} c.
Arguments Unmarshal_strings {W Config Clientset Result} c.
Arguments Marshal {W Config Clientset Result} c.
Arguments BuildConfigFromFlags {W Config Clientset Result} c.
Arguments NewForConfig {W Config Clientset Result} c.
Arguments LoadArgs {W Config Clientset Result} c.
Arguments PodsGet {W Config Clientset Result} c.
Arguments DelegateAdd {W Config Clientset Result} c.
Arguments DelegateDel {W Config Clientset Result} c.
Arguments Print {W Config Clientset Result} c.

Definition isString (i : option json) : bool :=
  match i with
  | Some (JString _) => true
  | _ => false
  end.

(** [i == nil] for the result of a map lookup: the key is absent or holds
    JSON null. *)
Definition isNil (i : option json) : bool :=
  match i with
  | None | Some JNull => true
  | _ => false
  end.

(** [i == s] for an interface value and a string. *)
Definition eqString (i : option json) (s : string) : bool :=
  match i with
  | Some (JString s') => bool_decide (s' = s)
  | _ => false
  end.

Definition checkPlugin (netconf : plugin) : ret :=
  if isNil (netconf !! "type") || negb (isString (netconf !! "type")) then
    Fail (Errorf "must have the field 'type' with a string" [] [])
  else if isNil (netconf !! "name") || negb (isString (netconf !! "name")) then
    Fail (Errorf "must have the field 'name' with a string" [] [])
  else Nil.

(** The loop over [conf.Plugins] that both commands start with. *)
Fixpoint checkPlugins (plugins : list plugin) : ret :=
  match plugins with
  | [] => Nil
  | plugin :: rest =>
    match checkPlugin plugin with
    | Nil => checkPlugins rest
    | Fail err => Fail (Errorf "Multicni: Err in plugin conf: %v" [] [err])
    | Panicked => Panicked
    end
  end.

(** [os.Setenv]: refused for an empty key, a key with [=] or NUL, and a
    value with NUL. *)
Definition has_byte (b : Z) (s : string) : bool :=
  existsb (Z.eqb b) (bytes s).

Definition Setenv (key value : string) (env : gmap string string)
  : option (gmap string string) :=
  if bool_decide (key = EmptyString) || has_byte 61 key || has_byte 0 key
     || has_byte 0 value
  then None
  else Some (<[key := value]> env).

Section Dispatcher.
Context {W Config Clientset Result : Type}.
Variable co : Collaborators W Config Clientset Result.

Definition loadNetConf (bytes : string) : res NetConf :=
  match Unmarshal_NetConf co bytes with
  | Error err => Error (Errorf "failed to load netconf: %v" [] [err])
  | Ok netconf =>
    if bool_decide (Default netconf = EmptyString) then
      Error (Errorf "'default' field must specify default plugin name" [] [])
    else if (length (Plugins netconf) =? 0)%nat then
      Error (Errorf "no plugins list" [] [])
    else Ok netconf
  end.

Definition createK8sClient (w : W) (kubeconfig : string) : res Clientset :=
  match BuildConfigFromFlags co w EmptyString kubeconfig with
  | Error err => Error err
  | Ok config => NewForConfig co w config
  end.

Definition loadArgs (args : string) : res K8sArgs :=
  match LoadArgs co args with
  | Error err => Error err
  | Ok k8sArgs =>
    if bool_decide (K8S_POD_NAMESPACE k8sArgs = EmptyString)
       || bool_decide (K8S_POD_NAME k8sArgs = EmptyString)
    then Error (Errorf "failed to get pod_namespace & pod_name from args: %v"
                  [args] [])
    else Ok k8sArgs
  end.

Definition getK8sPodAnnotations (w : W) (client : Clientset) (args : CmdArgs)
  : res (gmap string string) :=
  match loadArgs (Args args) with
  | Error err => Error err
  | Ok k8sArgs =>
    PodsGet co w client (K8S_POD_NAMESPACE k8sArgs) (K8S_POD_NAME k8sArgs)
  end.

Definition parsePodNetworkObject (podnetwork : string) : res (list string) :=
  match Unmarshal_strings co podnetwork with
  | Error err =>
    Error (Errorf "parsePodNetworkObject: failed to load pod plugin err: %v | pod network: %v"
             [podnetwork] [err])
  | Ok podNet => Ok podNet
  end.

(** The block "Get pod's cni-plugin list from kubernetes api-server", the
    same text in [cmdAdd] and [cmdDel]: the value of [podPlugins] after it,
    or the error the command returns from inside it. *)
Definition podPluginsOf (w : W) (conf : NetConf) (args : CmdArgs)
  : res (list string) :=
  match createK8sClient w (Kubeconfig conf) with
  | Error _ => Ok []
  | Ok kubeClient =>
    match getK8sPodAnnotations w kubeClient args with
    | Error _ => Ok []
    | Ok annot =>
      let plugins := default EmptyString (annot !! "cni-plugins") in
      if bool_decide (plugins = EmptyString) then Ok []
      else
        match parsePodNetworkObject plugins with
        | Error _ =>
          Error (Errorf "Multicni: Err in pod annotation 'cni-plugins': %v"
                   [plugins] [])
        | Ok podPlugins => Ok podPlugins
        end
    end
  end.

Abbreviation state := (proc W Result).

(** A delegate call: the closure that hands out names goes in and comes
    out, as does the state. *)
Definition delegate := podif -> plugin -> state -> ret * podif * state.

Definition delegateAdd : delegate := fun podif netconf p =>
  match Marshal co netconf with
  | Error err =>
    (Fail (Errorf "error serializing multicni delegate netconf: %v" [] [err]),
     podif, p)
  | Ok netconfBytes =>
    let '(iface, isDefault, podif') := produce podif in
    match Setenv "CNI_IFNAME" iface (environ p) with
    | None => (Fail (Errorf "error in setting CNI_IFNAME" [] []), podif', p)
    | Some env' =>
      match netconf !! "type" with
      | Some (JString type) =>
        let '(w', answer) := DelegateAdd co (world p) env' type netconfBytes in
        let p' := Proc w' env'
                    (trace p ++ [InvokedAdd type netconfBytes iface answer]) in
        match answer with
        | Error err =>
          (Fail (Errorf "error in invoke Delegate add - %q: %v" [type] [err]),
           podif', p')
        | Ok result =>
          if isDefault then
            (match Print co result with None => Nil | Some err => Fail err end,
             podif', Proc w' env' (trace p' ++ [Printed result]))
          else (Nil, podif', p')
        end
      | _ => (Panicked, podif', Proc (world p) env' (trace p))
      end
    end
  end.

Definition delegateDel : delegate := fun podif netconf p =>
  match Marshal co netconf with
  | Error err =>
    (Fail (Errorf "error serializing multicni delegate netconf: %v" [] [err]),
     podif, p)
  | Ok netconfBytes =>
    let '(iface, _, podif') := produce podif in
    match Setenv "CNI_IFNAME" iface (environ p) with
    | None => (Fail (Errorf "error in setting CNI_IFNAME" [] []), podif', p)
    | Some env' =>
      match netconf !! "type" with
      | Some (JString type) =>
        let '(w', answer) := DelegateDel co (world p) env' type netconfBytes in
        let p' := Proc w' env'
                    (trace p ++ [InvokedDel type netconfBytes iface answer]) in
        match answer with
        | Some err =>
          (Fail (Errorf "error in invoke Delegate del - %q: %v" [type] [err]),
           podif', p')
        | None => (Nil, podif', p')
        end
      | _ => (Panicked, podif', Proc (world p) env' (trace p))
      end
    end
  end.

(** The inner loop [for _, plugin := range conf.Plugins] of both commands:
    the first entry whose name is [name] is handed to the delegate call and
    the loop is left; [None] when the loop runs to its end. *)
Fixpoint firstNamed (call : delegate) (name : string) (plugins : list plugin)
  (podif : podif) (p : state) : option (ret * Allocator.podif * state) :=
  match plugins with
  | [] => None
  | plugin :: rest =>
    if eqString (plugin !! "name") name then Some (call podif plugin p)
    else firstNamed call name rest podif p
  end.

(** The loop labelled [NextPlugin]. *)
Fixpoint eachPodPlugin (call : delegate) (plugins : list plugin)
  (podPlugins : list string) (podif : podif) (p : state)
  : ret * Allocator.podif * state :=
  match podPlugins with
  | [] => (Nil, podif, p)
  | podPlugin :: rest =>
    match firstNamed call podPlugin plugins podif p with
    | None =>
      (Fail (Errorf "failed to find plugin: %s" [podPlugin] []), podif, p)
    | Some (Nil, podif', p') => eachPodPlugin call plugins rest podif' p'
    | Some out => out
    end
  end.

(** Everything from [podifName := getifname(args.IfName)] to the end of a
    command. *)
Definition dispatch (call : delegate) (conf : NetConf)
  (podPlugins : list string) (ifName : string) (p : state) : ret * state :=
  match getifname ifName with
  | None => (Panicked, p)
  | Some podifName =>
    if (0 <? length podPlugins)%nat then
      let '(r, _, p') :=
        eachPodPlugin call (Plugins conf) podPlugins podifName p in
      (r, p')
    else
      match firstNamed call (Default conf) (Plugins conf) podifName p with
      | None => (Nil, p)
      | Some (r, _, p') => (r, p')
      end
  end.

(** The common text of [cmdAdd] and [cmdDel] before the dispatch. *)
Definition command (call : delegate) (args : CmdArgs) (p : state)
  : ret * state :=
  match loadNetConf (StdinData args) with
  | Error err => (Fail (Errorf "err in loading netconf: %v" [] [err]), p)
  | Ok conf =>
    match checkPlugins (Plugins conf) with
    | Fail err => (Fail err, p)
    | Panicked => (Panicked, p)
    | Nil =>
      match podPluginsOf (world p) conf args with
      | Error err => (Fail err, p)
      | Ok podPlugins => dispatch call conf podPlugins (IfName args) p
      end
    end
  end.

Definition cmdAdd : CmdArgs -> state -> ret * state := command delegateAdd.
Definition cmdDel : CmdArgs -> state -> ret * state := command delegateDel.

(** *** Notions the properties of the dispatcher are stated with *)

(** The static entry a name selects: the first one so named. *)
Definition resolve (plugins : list plugin) (name : string) : option plugin :=
  List.find (fun plugin => eqString (plugin !! "name") name) plugins.

(** The names of the plan: the dynamic list, or the default alone when the
    dynamic list is empty and the default names a static entry. *)
Definition plan (conf : NetConf) (podPlugins : list string) : list string :=
  match podPlugins with
  | [] =>
    match resolve (Plugins conf) (Default conf) with
    | Some _ => [Default conf]
    | None => []
    end
  | _ => podPlugins
  end.

(** A delegate invocation in the trace: type, configuration bytes and the
    interface name in the environment. *)
Definition invocation (e : event Result) : option (string * string * string) :=
  match e with
  | InvokedAdd type bytes iface _ => Some (type, bytes, iface)
  | InvokedDel type bytes iface _ => Some (type, bytes, iface)
  | Printed _ => None
  end.

Definition invocations (evs : list (event Result))
  : list (string * string * string) :=
  omap invocation evs.


(** The invocation is the one of the static entry that [name] selects. *)
Definition selected (conf : NetConf) (name : string)
  (inv : string * string * string) : Prop :=
  exists plugin,
    resolve (Plugins conf) name = Some plugin
    /\ plugin !! "type" = Some (JString inv.1.1)
    /\ Marshal co plugin = Ok inv.1.2.

(** What one delegate call may add to the trace: nothing, and then it does
    not return nil, or the invocation of the entry it was given. *)
Definition behaves (call : delegate) : Prop :=
  forall g plugin (p : state) r g' p',
    call g plugin p = (r, g', p') ->
    exists evs, trace p' = (trace p ++ evs)%list /\
      ((invocations evs = [] /\ r <> Nil) \/
       (exists inv, invocations evs = [inv]
          /\ plugin !! "type" = Some (JString inv.1.1)
          /\ Marshal co plugin = Ok inv.1.2)).

(** Either command. *)
Definition cmd (del : bool) : CmdArgs -> state -> ret * state :=
  if del then cmdDel else cmdAdd.



(** The invocations of a run in which every delegate returns nil: for each
    name of the plan the entry it selects, under the next name of the
    closure. *)
Fixpoint lineup (plugins : list plugin) (names : list string) (g : podif)
  : list (string * string * string) :=
  match names with
  | [] => []
  | name :: rest =>
    match resolve plugins name with
    | Some plugin =>
      match plugin !! "type", Marshal co plugin with
      | Some (JString type), Ok bytes =>
        (type, bytes, (produce g).1.1) :: lineup plugins rest (produce g).2
      | _, _ => []
      end
    | None => []
    end
  end.

(** A delegate call that returns nil has made one invocation, under the
    next name of the closure. *)
Definition steps (call : delegate) : Prop :=
  forall g plugin (p : state) g' p',
    call g plugin p = (Nil, g', p') ->
    exists evs type bytes,
      trace p' = (trace p ++ evs)%list
      /\ invocations evs = [(type, bytes, (produce g).1.1)]
      /\ plugin !! "type" = Some (JString type)
      /\ Marshal co plugin = Ok bytes
      /\ g' = (produce g).2.

(** The delegate answered without error; a printing counts as answered. *)
Definition answered (e : event Result) : bool :=
  match e with
  | InvokedAdd _ _ _ (Error _) => false
  | InvokedDel _ _ _ (Some _) => false
  | _ => true
  end.

Definition is_del (e : event Result) : bool :=
  match e with
  | InvokedDel _ _ _ _ => true
  | _ => false
  end.

(** What a run adds to the trace when it returns [r]: events of one
    command only, and an invocation that failed is the last event and makes
    the run fail. *)
Definition halts (del : bool) (r : ret) (evs : list (event Result)) : Prop :=
  Forall (fun e => is_del e = del) evs
  /\ forall i e, evs !! i = Some e -> answered e = false ->
       S i = length evs /\ r <> Nil.

(** No result among the events is one that [Print] fails on. *)
Definition prints_well (evs : list (event Result)) : Prop :=
  forall result, Printed result ∈ evs -> Print co result = None.

(** The closure hands out names without a NUL byte. *)
Definition clean (g : podif) : Prop :=
  has_byte 0 (ifname g) = false /\ has_byte 0 (prefix g) = false.

(** A delegate call on an entry that can be invoked: it goes through the
    closure once, it adds events, and it returns nil when the delegate
    answers without error and the printing, if any, does not fail. *)
Definition thrives (call : delegate) : Prop :=
  forall g plugin (p : proc W Result) type bytes,
    plugin !! "type" = Some (JString type) ->
    Marshal co plugin = Ok bytes ->
    clean g ->
    exists evs,
      trace (call g plugin p).2 = (trace p ++ evs)%list
      /\ (call g plugin p).1.2 = (produce g).2
      /\ (Forall (fun e => answered e = true) evs -> prints_well evs ->
          (call g plugin p).1.1 = Nil).

(** Every static entry can be invoked: its type is a string and it can be
    serialized. *)
Definition invocable (plugins : list plugin) : Prop :=
  forall plugin, plugin ∈ plugins ->
    exists type bytes,
      plugin !! "type" = Some (JString type) /\ Marshal co plugin = Ok bytes.

End Dispatcher.
End Multicni.

(** ** The single-device handler ([host-device.go]) *)

Module HostDevice.

(** What [Attrs()] of a [netlink.Link] gives: the attributes read when the
    link was looked up. *)
Record Link := {
  Index : Z;
  Name : string;
  Alias : string;
  HardwareAddr : list Z
}.

(** A handle of [ns.NetNS]: the namespace it stands for ([Fd()]) and the
    path it was opened from ([Path()]). *)
Record NetNS := {
  Fd : nat;
  Path : string
}.

Record DNS := {
  Nameservers : list string;
  Domain : string;
  Search : list string;
  Options : list string
}.

Record NetConf := {
  CNIVersion : string;
  IPAM_Type : string;
  NetConf_DNS : DNS;
  Devices : list string;
  HWAddrs : list string;
  KernelPaths : list string
}.

Record CmdArgs := {
  ContainerID : string;
  Netns : string;
  IfName : string;
  Args : string;
  StdinData : string
}.

(** [current.Result]. *)
Record Interface := {
  Interface_Name : string;
  Mac : string;
  Sandbox : string
}.

Record IPConfig := {
  Version : string;
  IPConfig_Interface : option Z;
  Address : string;
  Gateway : string
}.

Record Result := {
  Interfaces : list Interface;
  IPs : list IPConfig;
  Result_DNS : DNS
}.

(** A call that leaves the process. *)
Inductive call : Type :=
| CLinkList
| CLinkByName (name : string)
| CLinkSetDown (link : Link)
| CLinkSetAlias (link : Link) (alias : string)
| CLinkSetName (link : Link) (name : string)
| CLinkSetNsFd (link : Link) (fd : nat)
| CGetNS (path : string)
| CGetCurrentNS
| CClose (netns : NetNS)
| CSetns (fd : nat)
| CReadDir (dir : string)
| CExecAdd (type stdin : string)
| CExecDel (type stdin : string)
| CConfigureIface (ifName : string) (result : Result)
| CPrint.

(** One entry of the trace: the namespace the thread was in, the call, and
    whether it returned without error. *)
Record entry := Entry {
  at_ns : nat;
  what : call;
  succeeded : bool
}.

(** The platform under the handler: the kernel seen through [netlink] and
    [ns], the file system, the IPAM delegate of [plugins/pkg/ipam], and the
    pure library functions the handler calls.  [K] is the state of kernel
    and delegate.  A netlink call or a namespace switch that fails leaves
    the state as it was. *)
Record Platform (K IPAMResult VResult : Type) := {
  LinkList : K -> nat -> res (list Link);
  LinkByName : K -> nat -> string -> res Link;
  LinkSetDown : K -> nat -> Link -> res K;
  LinkSetAlias : K -> nat -> Link -> string -> res K;
  LinkSetName : K -> nat -> Link -> string -> res K;
  LinkSetNsFd : K -> nat -> Link -> nat -> res K;
  GetNS : K -> string -> res NetNS;
  CurrentNSPath : K -> nat -> res string;
  Setns : K -> nat -> option error;
  ReadDir : K -> string -> res (list string);
  ExecAdd : K -> string -> string -> K * res IPAMResult;
  ExecDel : K -> string -> string -> K * option error;
  ConfigureIface : K -> nat -> string -> Result -> K * option error;
  Unmarshal : string -> res NetConf;
  ParseMAC : string -> res (list Z);
  Join : string -> string -> string;
  MacString : list Z -> string;
  NewResultFromResult : IPAMResult -> res Result;
  GetAsVersion : Result -> string -> res VResult;
  Print : VResult -> option error
}.
Arguments LinkList {K IPAMResult VResult} p.
Arguments LinkByName {K IPAMResult VResult} p.
Arguments LinkSetDown {K IPAMResult VResult} p.
Arguments LinkSetAlias {K IPAMResult VResult} p.
Arguments LinkSetName {K IPAMResult VResult} p.
Arguments LinkSetNsFd {K IPAMResult VResult} p.
Arguments GetNS {K IPAMResult VResult} p.
Arguments CurrentNSPath {K IPAMResult VResult} p.
Arguments Setns {K IPAMResult VResult} p.
Arguments ReadDir {K IPAMResult VResult} p.
Arguments ExecAdd {K IPAMResult VResult} p.
Arguments ExecDel {K IPAMResult VResult} p.
Arguments ConfigureIface {K IPAMResult VResult} p.
Arguments Unmarshal {K IPAMResult VResult} p.
Arguments ParseMAC {K IPAMResult VResult} p.
Arguments Join {K IPAMResult VResult} p.
Arguments MacString {K IPAMResult VResult} p.
Arguments NewResultFromResult {K IPAMResult VResult} p.
Arguments GetAsVersion {K IPAMResult VResult} p.
Arguments Print {K IPAMResult VResult} p.

(** The state a command runs in: kernel and delegate, the namespace the
    thread is in, and the calls so far. *)
Record state (K : Type) := State {
  kern : K;
  cur : nat;
  trace : list entry
}.
Arguments State {K} kern cur trace.
Arguments kern {K} s.
Arguments cur {K} s.
Arguments trace {K} s.

Definition is_ok {A} (r : res A) : bool :=
  match r with Ok _ => true | Error _ => false end.

Definition error_of {A} (r : res A) : option error :=
  match r with Ok _ => None | Error e => Some e end.

Section Handler.
Context {K IPAMResult VResult : Type}.
Variable pf : Platform K IPAMResult VResult.

Abbreviation st := (state K).

Definition record (c : call) (ok : bool) (s : st) : st :=
  State (kern s) (cur s) (trace s ++ [Entry (cur s) c ok]).

(** A call that only reads. *)
Definition query {A} (c : call) (f : K -> nat -> res A) (s : st) : res A * st :=
  let r := f (kern s) (cur s) in (r, record c (is_ok r) s).

(** A call that changes the kernel state when it succeeds. *)
Definition update (c : call) (f : K -> nat -> res K) (s : st)
  : option error * st :=
  match f (kern s) (cur s) with
  | Ok k' => (None, State k' (cur s) (trace s ++ [Entry (cur s) c true]))
  | Error err => (Some err, record c false s)
  end.

(** A call into the IPAM delegate. *)
Definition effect {A} (c : call) (ok : A -> bool) (f : K -> nat -> K * A)
  (s : st) : A * st :=
  let '(k', a) := f (kern s) (cur s) in
  (a, State k' (cur s) (trace s ++ [Entry (cur s) c (ok a)])).

Definition nil_error (e : option error) : bool :=
  match e with None => true | Some _ => false end.

(** Modelled from the spec: [ns.GetCurrentNS] of [plugins/pkg/ns], which is
    not among the sources: a handle of the namespace that is active for the
    caller. *)
Definition GetCurrentNS (s : st) : res NetNS * st :=
  match CurrentNSPath pf (kern s) (cur s) with
  | Error err => (Error err, record CGetCurrentNS false s)
  | Ok path => (Ok {| Fd := cur s; Path := path |}, record CGetCurrentNS true s)
  end.

Definition Close (netns : NetNS) (s : st) : st := record (CClose netns) true s.

(** Modelled from the spec: [Do] of [plugins/pkg/ns], which is not among the
    sources: the scoped operation that runs code with this namespace active
    and restores the caller's original namespace on every exit path.  A
    switch that fails runs nothing. *)
Definition Do {A} (netns : NetNS) (toRun : st -> res A * st) (s : st)
  : res A * st :=
  match Setns pf (kern s) (Fd netns) with
  | Some err => (Error err, record (CSetns (Fd netns)) false s)
  | None =>
    let inside := State (kern s) (Fd netns)
                    (trace s ++ [Entry (cur s) (CSetns (Fd netns)) true]) in
    let '(r, s') := toRun inside in
    (r, State (kern s') (cur s)
          (trace s' ++ [Entry (cur s') (CSetns (cur s)) true]))
  end.

(** The text of the error of [loadConf], with its quotation marks. *)
Definition no_selector : string :=
  let q := String "034"%char EmptyString in
  "specify either " +:+ q +:+ "device" +:+ q +:+ ", " +:+ q +:+ "hwaddr" +:+ q
  +:+ " or " +:+ q +:+ "kernelpath" +:+ q.

Definition loadConf (bytes : string) : res NetConf :=
  match Unmarshal pf bytes with
  | Error err => Error (Errorf "failed to load netconf: %v" [] [err])
  | Ok n =>
    if (length (Devices n) =? 0)%nat && (length (HWAddrs n) =? 0)%nat
       && (length (KernelPaths n) =? 0)%nat
    then Error (Errorf no_selector [] [])
    else Ok n
  end.

(** The first loop of [getLink]: the first device name that resolves. *)
Fixpoint byName (devices : list string) (s : st) : option Link * st :=
  match devices with
  | [] => (None, s)
  | device :: rest =>
    let '(r, s') :=
      query (CLinkByName device) (fun k n => LinkByName pf k n device) s in
    match r with
    | Ok link => (Some link, s')
    | Error _ => byName rest s'
    end
  end.

(** [for _, link := range links] with [bytes.Equal] on the address. *)
Fixpoint firstWithAddr (hwAddr : list Z) (links : list Link) : option Link :=
  match links with
  | [] => None
  | link :: rest =>
    if bool_decide (HardwareAddr link = hwAddr) then Some link
    else firstWithAddr hwAddr rest
  end.

(** The second loop: an address that does not parse is logged and skipped. *)
Fixpoint byHWAddr (hwaddrs : list string) (links : list Link) : option Link :=
  match hwaddrs with
  | [] => None
  | hwaddr :: rest =>
    match ParseMAC pf hwaddr with
    | Error _ => byHWAddr rest links
    | Ok hwAddr =>
      match firstWithAddr hwAddr links with
      | Some link => Some link
      | None => byHWAddr rest links
      end
    end
  end.

Fixpoint firstWithName (name : string) (links : list Link) : option Link :=
  match links with
  | [] => None
  | l :: rest =>
    if bool_decide (name = Name l) then Some l else firstWithName name rest
  end.

(** [for _, file := range files]: the first entry that names a link. *)
Fixpoint firstInterface (files : list string) (links : list Link)
  : option Link :=
  match files with
  | [] => None
  | file :: rest =>
    match firstWithName file links with
    | Some l => Some l
    | None => firstInterface rest links
    end
  end.

(** [filepath.IsAbs] on Linux. *)
Definition IsAbs (path : string) : bool := String.prefix "/" path.
Definition HasPrefix (s pre : string) : bool := String.prefix pre s.

(** The third loop. *)
Fixpoint byKernelPath (kernelpaths : list string) (links : list Link) (s : st)
  : option Link * st :=
  match kernelpaths with
  | [] => (None, s)
  | kernelpath :: rest =>
    if negb (IsAbs kernelpath) || negb (HasPrefix kernelpath "/sys/devices/")
    then byKernelPath rest links s
    else
      let netDir := Join pf kernelpath "net" in
      let '(r, s') := query (CReadDir netDir) (fun k _ => ReadDir pf k netDir) s in
      match r with
      | Error _ => byKernelPath rest links s'
      | Ok files =>
        match firstInterface files links with
        | Some l => (Some l, s')
        | None => byKernelPath rest links s'
        end
      end
  end.

Definition not_found : error := Errorf "failed to find physical interface" [] [].

Definition getLink (devices hwaddrs kernelpaths : list string) (s : st)
  : res Link * st :=
  let '(r, s1) := query CLinkList (LinkList pf) s in
  match r with
  | Error err => (Error (Errorf "failed to list node links: %v" [] [err]), s1)
  | Ok links =>
    let '(found, s2) := byName devices s1 in
    match found with
    | Some link => (Ok link, s2)
    | None =>
      match byHWAddr hwaddrs links with
      | Some link => (Ok link, s2)
      | None =>
        let '(found, s3) := byKernelPath kernelpaths links s2 in
        match found with
        | Some l => (Ok l, s3)
        | None => (Error not_found, s3)
        end
      end
    end
  end.

(** The function literal [moveLinkIn] hands to [containerNs.Do]; its result
    is the value it leaves in [contDev]. *)
Definition moveLinkIn_inside (hostDev : Link) (ifName : string) (s : st)
  : res Link * st :=
  let '(r, s) :=
    query (CLinkByName (Name hostDev))
      (fun k n => LinkByName pf k n (Name hostDev)) s in
  match r with
  | Error err => (Error (Errorf "failed to find %q: %v" [Name hostDev] [err]), s)
  | Ok contDev =>
    let '(e, s) :=
      update (CLinkSetAlias contDev (Name hostDev))
        (fun k n => LinkSetAlias pf k n contDev (Name hostDev)) s in
    match e with
    | Some err =>
      (Error (Errorf "failed to set alias to %q: %v" [Name hostDev] [err]), s)
    | None =>
      let '(e, s) :=
        update (CLinkSetName contDev ifName)
          (fun k n => LinkSetName pf k n contDev ifName) s in
      match e with
      | Some err =>
        (Error (Errorf "failed to rename device %q to %q: %v"
                  [Name hostDev; ifName] [err]), s)
      | None =>
        let '(r, s) :=
          query (CLinkByName ifName) (fun k n => LinkByName pf k n ifName) s in
        match r with
        | Error err => (Error (Errorf "failed to find %q: %v" [ifName] [err]), s)
        | Ok contDev => (Ok contDev, s)
        end
      end
    end
  end.

Definition moveLinkIn (hostDev : Link) (containerNs : NetNS) (ifName : string)
  (s : st) : res Link * st :=
  let '(e, s) :=
    update (CLinkSetDown hostDev) (fun k n => LinkSetDown pf k n hostDev) s in
  match e with
  | Some err =>
    (Error (Errorf "failed to host interface down %q: %v" [ifName] [err]), s)
  | None =>
    let '(e, s) :=
      update (CLinkSetNsFd hostDev (Fd containerNs))
        (fun k n => LinkSetNsFd pf k n hostDev (Fd containerNs)) s in
    match e with
    | Some err => (Error err, s)
    | None => Do containerNs (moveLinkIn_inside hostDev ifName) s
    end
  end.

(** The function literal [moveLinkOut] hands to [containerNs.Do]. *)
Definition moveLinkOut_inside (defaultNs : NetNS) (ifName : string) (s : st)
  : res unit * st :=
  let '(r, s) :=
    query (CLinkByName ifName) (fun k n => LinkByName pf k n ifName) s in
  match r with
  | Error err => (Error (Errorf "failed to find %q: %v" [ifName] [err]), s)
  | Ok dev =>
    let '(e, s) :=
      update (CLinkSetDown dev) (fun k n => LinkSetDown pf k n dev) s in
    match e with
    | Some err =>
      (Error (Errorf "failed to container interface down %q: %v" [ifName] [err]),
       s)
    | None =>
      let '(e, s) :=
        update (CLinkSetName dev (Alias dev))
          (fun k n => LinkSetName pf k n dev (Alias dev)) s in
      match e with
      | Some err =>
        (Error (Errorf "failed to restore %q to original name %q: %v"
                  [ifName; Alias dev] [err]), s)
      | None =>
        let '(e, s) :=
          update (CLinkSetNsFd dev (Fd defaultNs))
            (fun k n => LinkSetNsFd pf k n dev (Fd defaultNs)) s in
        match e with
        | Some err =>
          (Error (Errorf "failed to move %q to host netns: %v" [Alias dev] [err]),
           s)
        | None => (Ok tt, s)
        end
      end
    end
  end.

Definition moveLinkOut (containerNs : NetNS) (ifName : string) (s : st)
  : option error * st :=
  let '(r, s) := GetCurrentNS s in
  match r with
  | Error err => (Some err, s)
  | Ok defaultNs =>
    let '(r, s) := Do containerNs (moveLinkOut_inside defaultNs ifName) s in
    (error_of r, Close defaultNs s)
  end.

(** [cmdAdd] from the second [defer] on.  Beside the value returned, the
    result carries the value the variable [err] holds at the return: the
    deferred functions read the variable, and [return errors.New(...)] and
    [return newResult.Print()] do not assign it. *)
Definition cmdAdd_allocated (cfg : NetConf) (containerNs : NetNS)
  (contDev : Link) (args : CmdArgs) (r : IPAMResult) (s : st)
  : option error * option error * st :=
  match NewResultFromResult pf r with
  | Error err => (Some err, Some err, s)
  | Ok result =>
    if (length (IPs result) =? 0)%nat then
      (Some (Errorf "IPAM plugin returned missing IP config" [] []), None, s)
    else
      let result :=
        {| Interfaces :=
             [ {| Interface_Name := IfName args;
                  Mac := MacString pf (HardwareAddr contDev);
                  Sandbox := Path containerNs |} ];
           IPs :=
             (fun ipc => {| Version := Version ipc;
                            IPConfig_Interface := Some 0;
                            Address := Address ipc;
                            Gateway := Gateway ipc |}) <$> IPs result;
           Result_DNS := Result_DNS result |} in
      let '(done, s) :=
        Do containerNs
          (fun s =>
             let '(e, s) :=
               effect (CConfigureIface (IfName args) result) nil_error
                 (fun k n => ConfigureIface pf k n (IfName args) result) s in
             match e with
             | Some err => (Error err, s)
             | None => (Ok tt, s)
             end) s in
      match done with
      | Error err => (Some err, Some err, s)
      | Ok _ =>
        let result :=
          {| Interfaces := Interfaces result;
             IPs := IPs result;
             Result_DNS := NetConf_DNS cfg |} in
        match GetAsVersion pf result (CNIVersion cfg) with
        | Error err => (Some err, Some err, s)
        | Ok newResult =>
          (Print pf newResult, None, record CPrint (nil_error (Print pf newResult)) s)
        end
      end
  end.

(** [cmdAdd] from the first [defer] of a function literal on: the IPAM
    call, and the release that the second literal does on the way out. *)
Definition cmdAdd_moved (cfg : NetConf) (containerNs : NetNS) (contDev : Link)
  (args : CmdArgs) (s : st) : option error * option error * st :=
  let '(r, s) :=
    effect (CExecAdd (IPAM_Type cfg) (StdinData args)) is_ok
      (fun k _ => ExecAdd pf k (IPAM_Type cfg) (StdinData args)) s in
  match r with
  | Error err => (Some err, Some err, s)
  | Ok r =>
    let '(out, err, s) := cmdAdd_allocated cfg containerNs contDev args r s in
    match err with
    | Some _ =>
      let '(_, s) :=
        effect (CExecDel (IPAM_Type cfg) (StdinData args)) nil_error
          (fun k _ => ExecDel pf k (IPAM_Type cfg) (StdinData args)) s in
      (out, err, s)
    | None => (out, err, s)
    end
  end.

(** "Move out link if err to avoid link hold in this ns". *)
Definition rollback (containerNs : NetNS) (args : CmdArgs) (s : st) : st :=
  snd (Do containerNs
         (fun s =>
            let '(e, s) := moveLinkOut containerNs (IfName args) s in
            match e with
            | Some err => (Error err, s)
            | None => (Ok tt, s)
            end) s).

(** [cmdAdd] after [defer containerNs.Close()]. *)
Definition cmdAdd_opened (cfg : NetConf) (containerNs : NetNS) (args : CmdArgs)
  (s : st) : option error * st :=
  let '(r, s) := getLink (Devices cfg) (HWAddrs cfg) (KernelPaths cfg) s in
  match r with
  | Error err => (Some (Errorf "failed to find host device: %v" [] [err]), s)
  | Ok hostDev =>
    let '(r, s) := moveLinkIn hostDev containerNs (IfName args) s in
    match r with
    | Error err => (Some (Errorf "failed to move link %v" [] [err]), s)
    | Ok contDev =>
      let '(out, err, s) := cmdAdd_moved cfg containerNs contDev args s in
      match err with
      | Some _ => (out, rollback containerNs args s)
      | None => (out, s)
      end
    end
  end.

Definition cmdAdd (args : CmdArgs) (s : st) : option error * st :=
  match loadConf (StdinData args) with
  | Error err => (Some err, s)
  | Ok cfg =>
    let '(r, s) := query (CGetNS (Netns args)) (fun k _ => GetNS pf k (Netns args)) s in
    match r with
    | Error err =>
      (Some (Errorf "failed to open netns %q: %v" [Netns args] [err]), s)
    | Ok containerNs =>
      let '(out, s) := cmdAdd_opened cfg containerNs args s in
      (out, Close containerNs s)
    end
  end.

Definition cmdDel (args : CmdArgs) (s : st) : option error * st :=
  match loadConf (StdinData args) with
  | Error err => (Some err, s)
  | Ok cfg =>
    let '(e, s) :=
      effect (CExecDel (IPAM_Type cfg) (StdinData args)) nil_error
        (fun k _ => ExecDel pf k (IPAM_Type cfg) (StdinData args)) s in
    match e with
    | Some err => (Some err, s)
    | None =>
      let '(r, s) :=
        query (CGetNS (Netns args)) (fun k _ => GetNS pf k (Netns args)) s in
      match r with
      | Error err =>
        (Some (Errorf "failed to open netns %q: %v" [Netns args] [err]), s)
      | Ok containerNs =>
        let '(e, s) := moveLinkOut containerNs (IfName args) s in
        (e, Close containerNs s)
      end
    end
  end.

(** *** Notions the properties of the handler are stated with *)

(** [s'] is [s] after more calls, all of which satisfy [P]. *)
Definition adds (P : entry -> Prop) (s s' : st) : Prop :=
  exists evs, trace s' = (trace s ++ evs)%list /\ Forall P evs.

(** The call does not move a link, or moves it into namespace [fd0]. *)
Definition moves_only_to (fd0 : nat) (e : entry) : Prop :=
  forall l fd, what e = CLinkSetNsFd l fd -> fd = fd0.


(** A link that a selector of each kind selects. *)
Definition name_hit (k : K) (ns : nat) (devices : list string) (l : Link) : Prop :=
  exists device, device ∈ devices /\ LinkByName pf k ns device = Ok l.

Definition addr_hit (hwaddrs : list string) (links : list Link) (l : Link) : Prop :=
  exists hwaddr,
    hwaddr ∈ hwaddrs /\ ParseMAC pf hwaddr = Ok (HardwareAddr l) /\ l ∈ links.

Definition path_hit (k : K) (kernelpaths : list string) (links : list Link)
  (l : Link) : Prop :=
  exists kernelpath files,
    kernelpath ∈ kernelpaths
    /\ IsAbs kernelpath = true
    /\ HasPrefix kernelpath "/sys/devices/" = true
    /\ ReadDir pf k (Join pf kernelpath "net") = Ok files
    /\ Name l ∈ files /\ l ∈ links.

(** [s'] is [s] after more calls, which together satisfy [Q]. *)
Definition extends (Q : list entry -> Prop) (s s' : state K) : Prop :=
  exists evs, trace s' = (trace s ++ evs)%list /\ Q evs.

(** A call that [getLink] may make: it lists the links, looks one of the
    configured device names up, or reads the directory [net] under one of
    the configured kernel paths that is absolute and begins with
    /sys/devices/. *)
Definition lookup_of (devices kernelpaths : list string) (e : entry) : Prop :=
  what e = CLinkList
  \/ (exists device, device ∈ devices /\ what e = CLinkByName device)
  \/ (exists kernelpath,
        kernelpath ∈ kernelpaths
        /\ IsAbs kernelpath = true
        /\ HasPrefix kernelpath "/sys/devices/" = true
        /\ what e = CReadDir (Join pf kernelpath "net")).

(** A netlink call that changes a link. *)
Definition is_write (c : call) : bool :=
  match c with
  | CLinkSetDown _ | CLinkSetAlias _ _ | CLinkSetName _ _ | CLinkSetNsFd _ _ => true
  | _ => false
  end.

Definition is_move (c : call) : bool :=
  match c with
  | CLinkSetNsFd _ _ => true
  | _ => false
  end.

Definition is_ipam (c : call) : bool :=
  match c with
  | CExecAdd _ _ | CExecDel _ _ => true
  | _ => false
  end.

(** Every move of a link comes after the link was set down, by a call made
    from the same namespace. *)
Definition down_before_move (evs : list entry) : Prop :=
  forall i ns l fd ok,
    evs !! i = Some (Entry ns (CLinkSetNsFd l fd) ok) ->
    exists j, (j < i)%nat /\ evs !! j = Some (Entry ns (CLinkSetDown l) true).

(** Once a call that changes a link has failed, no link is moved. *)
Definition no_move_after_failed_write (evs : list entry) : Prop :=
  forall i j e e',
    evs !! i = Some e -> is_write (what e) = true -> succeeded e = false ->
    (i < j)%nat -> evs !! j = Some e' -> is_move (what e') = false.

(** The link was moved into a namespace and renamed there to [ifName]. *)
Definition attached_as (ifName : string) (evs : list entry) : Prop :=
  exists j1 j2 ns l fd l',
    (j1 < j2)%nat
    /\ evs !! j1 = Some (Entry ns (CLinkSetNsFd l fd) true)
    /\ evs !! j2 = Some (Entry fd (CLinkSetName l' ifName) true).

(** An address is released only after it was handed out, for the same type
    and configuration, and no link is changed in between. *)
Definition released_after_allocated (evs : list entry) : Prop :=
  forall i ns type stdin ok,
    evs !! i = Some (Entry ns (CExecDel type stdin) ok) ->
    exists j ns',
      (j < i)%nat
      /\ evs !! j = Some (Entry ns' (CExecAdd type stdin) true)
      /\ forall m e, (j < m < i)%nat -> evs !! m = Some e ->
           is_write (what e) = false.


(** Calls of a kind, and calls that did not fail. *)
Definition no_ipam (e : entry) : Prop := is_ipam (what e) = false.
Definition no_write (e : entry) : Prop := is_write (what e) = false.
Definition no_failed_write (e : entry) : Prop :=
  is_write (what e) = true -> succeeded e = true.
Definition no_move (e : entry) : Prop := is_move (what e) = false.

(** Every rename comes after the alias was stored. *)
Definition alias_before_rename (alias : string) (evs : list entry) : Prop :=
  forall i ns l name ok,
    evs !! i = Some (Entry ns (CLinkSetName l name) ok) ->
    exists j, (j < i)%nat /\ evs !! j = Some (Entry ns (CLinkSetAlias l alias) true).

End Handler.
End HostDevice.

(** ** The REST client ([http_rest.go])

    The revision with the type [RestClient] and its methods [Get], [Post],
    [Put] and [Delete]. *)

Module Rest.

(** What [newRequest] puts into an [http.Request]. *)
Record Request := {
  Method : string;
  URL : string;
  Body : option string;
  Header : list (string * string);
  BasicAuth : string * string
}.

(** What the client reads of an [http.Response]. *)
Record Response := {
  StatusCode : Z;
  Status : string;
  ResponseBody : string
}.

(** One request that left the process, with what came back. *)
Record exchange := Exchange {
  sent : Request;
  answer : res Response
}.

(** The libraries under the client: [net/url], [encoding/json] for the
    bodies of type [Payload] and the answers of type [Answer], and
    [net/http], whose [Do] reaches the servers in the world [W]. *)
Record Transport (W Url Payload Answer : Type) := {
  Parse : string -> res Url;
  PathEscape : string -> string;
  Reference : string -> Url;
  ResolveReference : Url -> Url -> Url;
  UrlString : Url -> string;
  Encode : Payload -> res string;
  Decode : string -> res Answer;
  NewRequest : string -> string -> option error;
  Do : W -> Request -> W * res Response
}.
Arguments Parse {W Url Payload Answer} t.
Arguments PathEscape {W Url Payload Answer} t.
Arguments Reference {W Url Payload Answer} t.
Arguments ResolveReference {W Url Payload Answer} t.
Arguments UrlString {W Url Payload Answer} t.
Arguments Encode {W Url Payload Answer} t.
Arguments Decode {W Url Payload Answer} t.
Arguments NewRequest {W Url Payload Answer} t.
Arguments Do {W Url Payload Answer} t.

Record RestClient (Url : Type) := {
  baseUrl : Url;
  user : string;
  password : string
}.
Arguments baseUrl {Url} r.
Arguments user {Url} r.
Arguments password {Url} r.

(** The world with the exchanges so far. *)
Record conn (W : Type) := Conn {
  world : W;
  log : list exchange
}.
Arguments Conn {W} world log.
Arguments world {W} c.
Arguments log {W} c.

Section Client.
Context {W Url Payload Answer : Type}.
Variable tr : Transport W Url Payload Answer.

(** [None] is the nil pointer. *)
Definition NewRestClient (path user password : string) : option (RestClient Url) :=
  match Parse tr path with
  | Error _ => None
  | Ok baseUrl => Some {| baseUrl := baseUrl; user := user; password := password |}
  end.

(** [body] is [None] for a nil body. *)
Definition newRequest (c : RestClient Url) (method path : string)
  (body : option Payload) : res Request :=
  let reqUrl :=
    ResolveReference tr (baseUrl c) (Reference tr (PathEscape tr path)) in
  let buf : res (option string) :=
    match body with
    | Some b =>
      match Encode tr b with
      | Error err => Error err
      | Ok text => Ok (Some text)
      end
    | None => Ok None
    end in
  match buf with
  | Error err => Error err
  | Ok buf =>
    match NewRequest tr method (UrlString tr reqUrl) with
    | Some err => Error err
    | None =>
      Ok {| Method := method;
            URL := UrlString tr reqUrl;
            Body := buf;
            Header :=
              ((match body with
                | Some _ => [("Content-Type", "application/json")]
                | None => []
                end)
               ++ [("Accept", "application/json"); ("User-Agent", "CNI-Plugin")])%list;
            BasicAuth := (user c, password c) |}
    end
  end.

(** [do]: the response, nil when the transport fails, the error, and the
    value decoded into [v] when [v] is not nil ([want]). *)
Definition do (req : Request) (want : bool) (s : conn W)
  : option Response * option error * option Answer * conn W :=
  let '(w', r) := Do tr (world s) req in
  let s' := Conn w' (log s ++ [Exchange req r]) in
  match r with
  | Error err => (None, Some err, None, s')
  | Ok resp =>
    if want then
      match Decode tr (ResponseBody resp) with
      | Error err => (Some resp, Some err, None, s')
      | Ok a => (Some resp, None, Some a, s')
      end
    else (Some resp, None, None, s')
  end.

(** The lines after [c.do] that [Get], [Post], [Put] and [Delete] share. *)
Definition status (r : option Response) (err : option error) : ret :=
  match err with
  | Some err => Fail err
  | None =>
    match r with
    | None => Panicked
    | Some r =>
      if negb (StatusCode r =? 200) then
        Fail (Errorf "rest server response error: %s" [Status r] [])
      else Nil
    end
  end.

(** A method called on the nil client panics where [newRequest] reads
    [c.baseUrl]. *)
Definition Get (c : option (RestClient Url)) (path : string) (resp : bool)
  (s : conn W) : ret * option Answer * conn W :=
  match c with
  | None => (Panicked, None, s)
  | Some c =>
    match newRequest c "GET" path None with
    | Error err => (Fail err, None, s)
    | Ok req =>
      let '(r, err, a, s') := do req resp s in
      (status r err, a, s')
    end
  end.

Definition Post (c : option (RestClient Url)) (path : string)
  (body : option Payload) (resp : bool) (s : conn W)
  : ret * option Answer * conn W :=
  match c with
  | None => (Panicked, None, s)
  | Some c =>
    match newRequest c "POST" path body with
    | Error err => (Fail err, None, s)
    | Ok req =>
      let '(r, err, a, s') := do req resp s in
      (status r err, a, s')
    end
  end.

Definition Put (c : option (RestClient Url)) (path : string)
  (body : option Payload) (resp : bool) (s : conn W)
  : ret * option Answer * conn W :=
  match c with
  | None => (Panicked, None, s)
  | Some c =>
    match newRequest c "PUT" path body with
    | Error err => (Fail err, None, s)
    | Ok req =>
      let '(r, err, a, s') := do req resp s in
      (status r err, a, s')
    end
  end.

Definition Delete (c : option (RestClient Url)) (path : string) (s : conn W)
  : ret * conn W :=
  match c with
  | None => (Panicked, s)
  | Some c =>
    match newRequest c "DELETE" path None with
    | Error err => (Fail err, s)
    | Ok req =>
      let '(r, err, _, s') := do req false s in
      (status r err, s')
    end
  end.

(** *** Notions the properties of the client are stated with *)

(** The server answered with status 200 and, where the caller wants the
    body, a body that decodes. *)
Definition accepted (want : bool) (ex : exchange) : bool :=
  match answer ex with
  | Error _ => false
  | Ok resp =>
    (if want then
       match Decode tr (ResponseBody resp) with Ok _ => true | Error _ => false end
     else true)
    && (StatusCode resp =? 200)
  end.

(** What a method of a client that is not nil delivers: a request that
    cannot be built is not sent and its error is returned; otherwise one
    exchange takes place, and the method returns nil exactly when the
    exchange is accepted, with the decoded body where one is wanted. *)
Definition delivers (c : RestClient Url) (method path : string)
  (body : option Payload) (want : bool) (s : conn W)
  (out : ret * option Answer * conn W) : Prop :=
  match newRequest c method path body with
  | Error err => out = (Fail err, None, s)
  | Ok req =>
    let ex := Exchange req (Do tr (world s) req).2 in
    log out.2 = (log s ++ [ex])%list
    /\ world out.2 = (Do tr (world s) req).1
    /\ out.1.1 <> Panicked
    /\ (out.1.1 = Nil <-> accepted want ex = true)
    /\ (out.1.1 = Nil -> want = true ->
        exists resp a,
          (Do tr (world s) req).2 = Ok resp
          /\ Decode tr (ResponseBody resp) = Ok a
          /\ out.1.2 = Some a)
  end.

End Client.
End Rest.

(** ** The address plugin ([vdn-dhcp.go])

    The revision that goes with that client: [cmdAdd] and [cmdDel] make a
    client of each configured server in turn. *)

Module VdnDhcp.
Import Rest.

Record Server := {
  Url : string;
  User : string;
  Password : string
}.

(** [NetConf]; [Servers] is [IPAM.Servers]. *)
Record NetConf := {
  CNIVersion : string;
  Servers : list Server;
  Kubeconfig : string
}.

Record DhcpReq := {
  ClientHwAddr : string;
  VdnId : string;
  RequestIp : string
}.

Record DhcpResp := {
  ClientIp : string;
  Resp_ClientHwAddr : string;
  Resp_VdnId : string;
  SubnetMask : string;
  Router : list string;
  DNS : list string;
  LeaseTime : Z
}.

(** [net.IP] and [net.IPMask] are byte slices. *)
Record IPNet := {
  IP : list Z;
  Mask : list Z
}.

Record IPConfig := {
  Version : string;
  Address : IPNet;
  Gateway : list Z
}.

Record Route := {
  Dst : IPNet;
  GW : list Z
}.

(** [current.Result]; of its [DNS] the plugin fills the name servers. *)
Record Result := {
  Interfaces : list HostDevice.Interface;
  IPs : list IPConfig;
  Routes : list Route;
  Nameservers : list string
}.

(** [net.IPv4(a, b, c, d)]: the 16-byte form of an IPv4 address. *)
Definition IPv4 (a b c d : Z) : list Z :=
  [0; 0; 0; 0; 0; 0; 0; 0; 0; 0; 255; 255; a; b; c; d].
Definition IPv4bcast : list Z := IPv4 255 255 255 255.
Definition IPv4zero : list Z := IPv4 0 0 0 0.

(** The collaborators of the plugin: the REST transport, the JSON decoder
    of the configuration, the namespace of the container and its links,
    the Kubernetes client, [net.ParseIP] ([None] is the nil address), and
    the conversion and printing of the result. *)
Record Environment (W Location Config Clientset VResult : Type) := {
  transport : Transport W Location DhcpReq DhcpResp;
  Unmarshal : string -> res NetConf;
  EnterNS : W -> string -> option error;
  LinkByName : W -> string -> string -> res (list Z);
  MacString : list Z -> string;
  BuildConfigFromFlags : W -> string -> string -> res Config;
  NewForConfig : W -> Config -> res Clientset;
  LoadArgs : string -> res Multicni.K8sArgs;
  PodsGet : W -> Clientset -> string -> string -> res (gmap string string);
  ParseIP : string -> option (list Z);
  GetAsVersion : Result -> string -> res VResult;
  Print : VResult -> option error
}.
Arguments transport {W Location Config Clientset VResult} e.
Arguments Unmarshal {W Location Config Clientset VResult} e.
Arguments EnterNS {W Location Config Clientset VResult} e.
Arguments LinkByName {W Location Config Clientset VResult} e.
Arguments MacString {W Location Config Clientset VResult} e.
Arguments BuildConfigFromFlags {W Location Config Clientset VResult} e.
Arguments NewForConfig {W Location Config Clientset VResult} e.
Arguments LoadArgs {W Location Config Clientset VResult} e.
Arguments PodsGet {W Location Config Clientset VResult} e.
Arguments ParseIP {W Location Config Clientset VResult} e.
Arguments GetAsVersion {W Location Config Clientset VResult} e.
Arguments Print {W Location Config Clientset VResult} e.

Section Plugin.
Context {W Location Config Clientset VResult : Type}.
Variable en : Environment W Location Config Clientset VResult.

Definition loadConf (bytes : string) : res NetConf :=
  match Unmarshal en bytes with
  | Error err => Error (Errorf "failed to load netconf: %v" [] [err])
  | Ok n => Ok n
  end.

Definition createK8sClient (w : W) (kubeconfig : string) : res Clientset :=
  match BuildConfigFromFlags en w EmptyString kubeconfig with
  | Error err => Error err
  | Ok config => NewForConfig en w config
  end.

Definition loadArgs (args : string) : res Multicni.K8sArgs :=
  match LoadArgs en args with
  | Error err => Error err
  | Ok k8sArgs =>
    if bool_decide (Multicni.K8S_POD_NAMESPACE k8sArgs = EmptyString)
       || bool_decide (Multicni.K8S_POD_NAME k8sArgs = EmptyString)
    then Error (Errorf "failed to get pod_namespace & pod_name from args: %v"
                  [args] [])
    else Ok k8sArgs
  end.

Definition getK8sPodAnnotations (w : W) (client : Clientset)
  (args : Multicni.CmdArgs) : res (gmap string string) :=
  match loadArgs (Multicni.Args args) with
  | Error err => Error err
  | Ok k8sArgs =>
    PodsGet en w client (Multicni.K8S_POD_NAMESPACE k8sArgs)
      (Multicni.K8S_POD_NAME k8sArgs)
  end.

(** Modelled from the spec: [ns.WithNetNSPath] of [plugins/pkg/ns], which is
    not among the sources: the scoped operation on the namespace opened
    from a path.  A namespace that cannot be opened or entered runs
    nothing. *)
Definition WithNetNSPath {A} (w : W) (nspath : string)
  (toRun : string -> res A) : res A :=
  match EnterNS en w nspath with
  | Some err => Error err
  | None => toRun nspath
  end.

Definition macAddr (w : W) (containerNs ifName : string) : res (list Z) :=
  WithNetNSPath w containerNs
    (fun inside =>
       match LinkByName en w inside ifName with
       | Error err => Error (Errorf "failed to find nic %q: %v" [ifName] [err])
       | Ok hardwareAddr => Ok hardwareAddr
       end).

(** The block "Get vdnId from kubernetes api-server" of [cmdAdd]. *)
Definition vdnIdOf (w : W) (conf : NetConf) (args : Multicni.CmdArgs) : string :=
  match createK8sClient w (Kubeconfig conf) with
  | Error _ => EmptyString
  | Ok kubeClient =>
    match getK8sPodAnnotations w kubeClient args with
    | Error _ => EmptyString
    | Ok annot => default EmptyString (annot !! "vdnId")
    end
  end.

(** The loop "DHCP option: nameserver": [acc] is [result.DNS.Nameservers]. *)
Fixpoint nameservers (dns : list string) (acc : list string)
  : res (list string) :=
  match dns with
  | [] => Ok acc
  | d :: rest =>
    if negb (bool_decide (d = EmptyString)) then
      match ParseIP en d with
      | Some _ => nameservers rest (acc ++ [d])%list
      | None => Error (Errorf "invalid dns: %s" [d] [])
      end
    else nameservers rest acc
  end.

(** The block "Make result" of [cmdAdd], up to the name servers. *)
Definition resultOf (dhcpResp : DhcpResp) : res Result :=
  match ParseIP en (ClientIp dhcpResp) with
  | None => Error (Errorf "invalid ip address: %s" [ClientIp dhcpResp] [])
  | Some ipAddr =>
    let mask : res (list Z) :=
      if negb (bool_decide (SubnetMask dhcpResp = EmptyString)) then
        match ParseIP en (SubnetMask dhcpResp) with
        | Some subnetMask => Ok subnetMask
        | None =>
          Error (Errorf "invalid subnet mask: %s" [SubnetMask dhcpResp] [])
        end
      else Ok IPv4bcast in
    match mask with
    | Error err => Error err
    | Ok mask =>
      let gateway : res (list Z * list Route) :=
        match Router dhcpResp with
        | first :: _ =>
          if negb (bool_decide (first = EmptyString)) then
            match ParseIP en first with
            | Some router =>
              Ok (router,
                  [ {| Dst := {| IP := IPv4zero; Mask := IPv4zero |};
                       GW := router |} ])
            | None => Error (Errorf "invalid router: %s" [first] [])
            end
          else Ok ([], [])
        | [] => Ok ([], [])
        end in
      match gateway with
      | Error err => Error err
      | Ok (gateway, routes) =>
        match nameservers (DNS dhcpResp) [] with
        | Error err => Error err
        | Ok servers =>
          Ok {| Interfaces := [];
                IPs := [ {| Version := "4";
                            Address := {| IP := ipAddr; Mask := mask |};
                            Gateway := gateway |} ];
                Routes := routes;
                Nameservers := servers |}
        end
      end
    end
  end.

(** The branch [err == nil] of the loop of [cmdAdd]: what the command
    returns, and what it prints. *)
Definition conclude (conf : NetConf) (dhcpResp : DhcpResp)
  : ret * option VResult :=
  match resultOf dhcpResp with
  | Error err => (Fail err, None)
  | Ok result =>
    match GetAsVersion en result (CNIVersion conf) with
    | Error err => (Fail err, None)
    | Ok newResult =>
      (match Print en newResult with None => Nil | Some err => Fail err end,
       Some newResult)
    end
  end.

Abbreviation state := (conn W).

Definition no_server : error := Errorf "failed to connect dhcp servers" [] [].

(** [for _, server := range conf.IPAM.Servers] of [cmdAdd]. *)
Fixpoint eachServerAdd (conf : NetConf) (mac vdnId : string)
  (servers : list Server) (s : state) : ret * option VResult * state :=
  match servers with
  | [] => (Fail no_server, None, s)
  | server :: rest =>
    let dhcpReq :=
      {| ClientHwAddr := mac; VdnId := vdnId; RequestIp := EmptyString |} in
    let restClient :=
      NewRestClient (transport en) (Url server) (User server) (Password server) in
    let '(err, dhcpResp, s') :=
      Put (transport en) restClient mac (Some dhcpReq) true s in
    match err, dhcpResp with
    | Nil, Some dhcpResp =>
      let '(r, printed) := conclude conf dhcpResp in (r, printed, s')
    | Nil, None => (Panicked, None, s')
    | Fail _, _ => eachServerAdd conf mac vdnId rest s'
    | Panicked, _ => (Panicked, None, s')
    end
  end.

Definition cmdAdd (args : Multicni.CmdArgs) (s : state)
  : ret * option VResult * state :=
  match loadConf (Multicni.StdinData args) with
  | Error err => (Fail err, None, s)
  | Ok conf =>
    match macAddr (world s) (Multicni.Netns args) (Multicni.IfName args) with
    | Error err => (Fail err, None, s)
    | Ok hardwareAddr =>
      let vdnId := vdnIdOf (world s) conf args in
      eachServerAdd conf (MacString en hardwareAddr) vdnId (Servers conf) s
    end
  end.

(** [for _, server := range conf.IPAM.Servers] of [cmdDel]. *)
Fixpoint eachServerDel (mac : string) (servers : list Server) (s : state)
  : ret * state :=
  match servers with
  | [] => (Fail no_server, s)
  | server :: rest =>
    let restClient :=
      NewRestClient (transport en) (Url server) (User server) (Password server) in
    let '(err, s') := Delete (transport en) restClient mac s in
    match err with
    | Nil => (Nil, s')
    | Fail _ => eachServerDel mac rest s'
    | Panicked => (Panicked, s')
    end
  end.

Definition cmdDel (args : Multicni.CmdArgs) (s : state) : ret * state :=
  match loadConf (Multicni.StdinData args) with
  | Error err => (Fail err, s)
  | Ok conf =>
    match macAddr (world s) (Multicni.Netns args) (Multicni.IfName args) with
    | Error err => (Fail err, s)
    | Ok hardwareAddr =>
      eachServerDel (MacString en hardwareAddr) (Servers conf) s
    end
  end.

(** *** Notions the properties of the plugin are stated with *)

(** The request the plugin builds for a server, when it can build one. *)
Definition request_of (method mac : string) (body : option DhcpReq)
  (server : Server) : option Request :=
  match NewRestClient (transport en) (Url server) (User server) (Password server) with
  | None => None
  | Some c =>
    match newRequest (transport en) c method mac body with
    | Ok req => Some req
    | Error _ => None
    end
  end.

(** The server has a URL that [url.Parse] refuses. *)
Definition unparsable (server : Server) : Prop :=
  NewRestClient (transport en) (Url server) (User server) (Password server) = None.

End Plugin.
End VdnDhcp.

(** ** A reference platform

    A small kernel to run the handler on: devices with the namespace they
    are in, named namespaces, a directory table, and an IPAM delegate that
    answers from a script.  It follows the kernel where the handler can
    tell: a name is looked up in the namespace of the thread, a device is
    addressed by its index, an empty or taken name is refused, and moving a
    device to the namespace it is in changes nothing. *)

Module Reference.
Import HostDevice.

Record device := Device {
  d_ns : nat;
  d_up : bool;
  d_link : Link
}.

Record scenario := {
  namespaces : list (string * nat);
  directories : list (string * list string);
  addresses : list (string * list Z);
  configs : list (string * NetConf);
  ipam_add : res Result;
  ipam_del : option error;
  configure : option error;
  print : option error
}.

Fixpoint assoc {A} (key : string) (table : list (string * A)) : option A :=
  match table with
  | [] => None
  | (k, v) :: rest => if bool_decide (k = key) then Some v else assoc key rest
  end.

Definition lookup_or {A} (what : string) (o : option A) : res A :=
  match o with
  | Some a => Ok a
  | None => Error (External what)
  end.

Definition here (ns : nat) (l : Link) (d : device) : bool :=
  bool_decide (d_ns d = ns) && (Index (d_link d) =? Index l).

Definition named (ns : nat) (name : string) (d : device) : bool :=
  bool_decide (d_ns d = ns) && bool_decide (Name (d_link d) = name).

(** Apply [f] to the device [l] stands for, if the thread can see it. *)
Definition modify (f : device -> device) (k : list device) (ns : nat) (l : Link)
  : res (list device) :=
  if existsb (here ns l) k then
    Ok ((fun d => if here ns l d then f d else d) <$> k)
  else Error (External "no such device").

Definition set_up (up : bool) (d : device) : device :=
  Device (d_ns d) up (d_link d).

Definition set_alias (alias : string) (d : device) : device :=
  Device (d_ns d) (d_up d)
    {| Index := Index (d_link d); Name := Name (d_link d); Alias := alias;
       HardwareAddr := HardwareAddr (d_link d) |}.

Definition set_name (name : string) (d : device) : device :=
  Device (d_ns d) (d_up d)
    {| Index := Index (d_link d); Name := name; Alias := Alias (d_link d);
       HardwareAddr := HardwareAddr (d_link d) |}.

Definition set_ns (ns : nat) (d : device) : device :=
  Device ns (d_up d) (d_link d).

Definition ref_LinkList (k : list device) (ns : nat) : res (list Link) :=
  Ok (d_link <$> List.filter (fun d => bool_decide (d_ns d = ns)) k).

Definition ref_LinkByName (k : list device) (ns : nat) (name : string)
  : res Link :=
  match List.find (named ns name) k with
  | Some d => Ok (d_link d)
  | None => Error (External "Link not found")
  end.

Definition ref_LinkSetName (k : list device) (ns : nat) (l : Link)
  (name : string) : res (list device) :=
  if bool_decide (name = EmptyString) then
    Error (External "numerical result out of range")
  else if existsb (fun d => named ns name d && negb (here ns l d)) k then
    Error (External "file exists")
  else modify (set_name name) k ns l.

Definition ref_LinkSetNsFd (k : list device) (ns : nat) (l : Link) (fd : nat)
  : res (list device) :=
  match List.find (here ns l) k with
  | None => Error (External "no such device")
  | Some d =>
    if bool_decide (fd = ns) then Ok k
    else if existsb (named fd (Name (d_link d))) k then
      Error (External "file exists")
    else modify (set_ns fd) k ns l
  end.

Definition platform (sc : scenario) : Platform (list device) Result Result := {|
  LinkList := ref_LinkList;
  LinkByName := ref_LinkByName;
  LinkSetDown := modify (set_up false);
  LinkSetAlias := fun k ns l alias => modify (set_alias alias) k ns l;
  LinkSetName := ref_LinkSetName;
  LinkSetNsFd := ref_LinkSetNsFd;
  GetNS := fun _ path =>
    match assoc path (namespaces sc) with
    | Some fd => Ok {| Fd := fd; Path := path |}
    | None => Error (External "no such file or directory")
    end;
  CurrentNSPath := fun _ _ => Ok "/proc/self/ns/net";
  Setns := fun _ _ => None;
  ReadDir := fun _ dir =>
    lookup_or "no such file or directory" (assoc dir (directories sc));
  ExecAdd := fun k _ _ => (k, ipam_add sc);
  ExecDel := fun k _ _ => (k, ipam_del sc);
  ConfigureIface := fun k _ _ _ => (k, configure sc);
  Unmarshal := fun bytes =>
    lookup_or "invalid character" (assoc bytes (configs sc));
  ParseMAC := fun a => lookup_or "invalid MAC address" (assoc a (addresses sc));
  Join := fun dir name => dir +:+ "/" +:+ name;
  MacString := fun _ => "02:00:00:00:00:01";
  NewResultFromResult := fun r => Ok r;
  GetAsVersion := fun r _ => Ok r;
  Print := fun _ => print sc
|}.


(** The host namespace is 0, the namespace of the container 1. *)
Definition container_path : string := "/var/run/netns/c1".

Definition enp3s0 : Link :=
  {| Index := 2; Name := "enp3s0"; Alias := EmptyString;
     HardwareAddr := [2; 0; 0; 0; 0; 1] |}.

Definition conf_enp3s0 : NetConf :=
  {| CNIVersion := "0.3.1"; IPAM_Type := "vdn-dhcp";
     NetConf_DNS := {| Nameservers := []; Domain := EmptyString;
                       Search := []; Options := [] |};
     Devices := ["enp3s0"]; HWAddrs := []; KernelPaths := [] |}.

Definition one_address : Result :=
  {| Interfaces := [];
     IPs := [ {| Version := "4"; IPConfig_Interface := None;
                 Address := "172.16.1.10/24"; Gateway := "172.16.1.1" |} ];
     Result_DNS := NetConf_DNS conf_enp3s0 |}.

Definition no_address : Result :=
  {| Interfaces := []; IPs := []; Result_DNS := NetConf_DNS conf_enp3s0 |}.

Definition base (add : res Result) (conf : option error) : scenario :=
  {| namespaces := [(container_path, 1%nat)];
     directories := [];
     addresses := [];
     configs := [("stdin", conf_enp3s0)];
     ipam_add := add;
     ipam_del := None;
     configure := conf;
     print := None |}.

Definition args_eth0 : CmdArgs :=
  {| ContainerID := "c1"; Netns := container_path; IfName := "eth0";
     Args := EmptyString; StdinData := "stdin" |}.

Definition boot : state (list device) :=
  State [Device 0 true enp3s0] 0 [].

(** The link after a failed Add has renamed it back: in the namespace of
    the container, down, under its first name. *)
Definition stranded : list device :=
  [Device 1 false {| Index := 2; Name := "enp3s0"; Alias := "enp3s0";
                     HardwareAddr := [2; 0; 0; 0; 0; 1] |}].

(** The link where a successful attach leaves it. *)
Definition attached : list device :=
  [Device 1 false {| Index := 2; Name := "eth0"; Alias := "enp3s0";
                     HardwareAddr := [2; 0; 0; 0; 0; 1] |}].



(** Three links on the host, and selectors of the three kinds that select
    one each. *)
Definition enp4s0 : Link :=
  {| Index := 3; Name := "enp4s0"; Alias := EmptyString;
     HardwareAddr := [2; 0; 0; 0; 0; 2] |}.

Definition enp5s0 : Link :=
  {| Index := 4; Name := "enp5s0"; Alias := EmptyString;
     HardwareAddr := [2; 0; 0; 0; 0; 3] |}.

Definition pci_path : string := "/sys/devices/pci0000:00/0000:00:19.0".

Definition three_ways : scenario :=
  {| namespaces := [(container_path, 1%nat)];
     directories := [(pci_path +:+ "/net", ["enp5s0"])];
     addresses := [("02:00:00:00:00:02", [2; 0; 0; 0; 0; 2])];
     configs := [];
     ipam_add := Ok one_address;
     ipam_del := None;
     configure := None;
     print := None |}.

Definition three_links : state (list device) :=
  State [Device 0 true enp5s0; Device 0 true enp4s0; Device 0 true enp3s0] 0 [].

End Reference.

(** ** A reference world for the dispatcher

    Three static plugins A, B and C with A the default, an API server that
    is unreachable, knows no such pod, or returns the pod's annotations, and
    delegates that answer with their type and the interface name they read
    from the environment. *)

Module Demo.
Import Multicni.

Inductive apiserver : Type :=
| Unreachable
| NoSuchPod
| Pod (annotations : gmap string string).

Definition q : string := String "034"%char EmptyString.

Definition entry (name type : string) : plugin :=
  <["name" := JString name]> (<["type" := JString type]> ∅).

Definition A : plugin := entry "A" "bridge".
Definition B : plugin := entry "B" "macvlan".
Definition C : plugin := entry "C" "ptp".

Definition conf : NetConf :=
  {| Kubeconfig := "/etc/kubernetes/kubelet.conf"; Default := "A";
     Plugins := [A; B; C] |}.

(** A configuration whose default names no entry. *)
Definition conf_stray : NetConf :=
  {| Kubeconfig := "/etc/kubernetes/kubelet.conf"; Default := "D";
     Plugins := [A; B; C] |}.

(** The text of a JSON array of strings. *)
Definition array (names : list string) : string :=
  "[" +:+ String.concat "," ((fun n => q +:+ n +:+ q) <$> names) +:+ "]".

Definition text_of (j : option json) : string :=
  match j with
  | Some (JString s) => s
  | _ => EmptyString
  end.

(** The JSON text of an entry with a name and a type. *)
Definition object_text (name type : string) : string :=
  "{" +:+ q +:+ "name" +:+ q +:+ ":" +:+ q +:+ name +:+ q +:+ ","
  +:+ q +:+ "type" +:+ q +:+ ":" +:+ q +:+ type +:+ q +:+ "}".

Definition world : Collaborators apiserver unit unit string := {|
  Unmarshal_NetConf := fun bytes =>
    if bool_decide (bytes = "stdin") then Ok conf
    else if bool_decide (bytes = "stray") then Ok conf_stray
    else Error (External "unexpected end of JSON input");
  Unmarshal_strings := fun text =>
    if bool_decide (text = array ["C"; "A"]) then Ok ["C"; "A"]
    else if bool_decide (text = array ["B"; "D"]) then Ok ["B"; "D"]
    else if bool_decide (text = array []) then Ok []
    else Error (External "invalid character");
  Marshal := fun netconf =>
    Ok (object_text (text_of (netconf !! "name")) (text_of (netconf !! "type")));
  BuildConfigFromFlags := fun w _ _ =>
    match w with
    | Unreachable => Error (External "invalid configuration")
    | _ => Ok tt
    end;
  NewForConfig := fun _ _ => Ok tt;
  LoadArgs := fun args =>
    if bool_decide (args = "K8S_POD_NAMESPACE=default;K8S_POD_NAME=web") then
      Ok {| K8S_POD_NAME := "web"; K8S_POD_NAMESPACE := "default";
            K8S_POD_INFRA_CONTAINER_ID := EmptyString |}
    else Error (External "ARGS: invalid pair");
  PodsGet := fun w _ _ _ =>
    match w with
    | Pod annotations => Ok annotations
    | _ => Error (External "pods not found")
    end;
  DelegateAdd := fun w env type _ =>
    (w, Ok (type +:+ " on " +:+ default EmptyString (env !! "CNI_IFNAME")));
  DelegateDel := fun w _ _ _ => (w, None);
  Print := fun _ => None
|}.

Definition args : CmdArgs :=
  {| ContainerID := "c1"; Netns := "/var/run/netns/c1"; IfName := "eth0";
     Args := "K8S_POD_NAMESPACE=default;K8S_POD_NAME=web"; Path := "/opt/cni/bin";
     StdinData := "stdin" |}.




Definition annotated (text : string) : apiserver :=
  Pod (<["cni-plugins" := text]> ∅).

Definition start (w : apiserver) : proc apiserver string := Proc w ∅ [].

(** An entry without a name, a configuration that holds it, and the
    reference world reading a given configuration from every input. *)
Definition nameless : plugin := <["type" := JString "bridge"]> ∅.

Definition conf_nameless : NetConf :=
  {| Kubeconfig := "/etc/kubernetes/kubelet.conf"; Default := "A";
     Plugins := [A; nameless] |}.

Definition reading (netconf : NetConf)
  : Collaborators apiserver unit unit string := {|
  Unmarshal_NetConf := fun _ => Ok netconf;
  Unmarshal_strings := Unmarshal_strings world;
  Marshal := Marshal world;
  BuildConfigFromFlags := BuildConfigFromFlags world;
  NewForConfig := NewForConfig world;
  LoadArgs := LoadArgs world;
  PodsGet := PodsGet world;
  DelegateAdd := DelegateAdd world;
  DelegateDel := DelegateDel world;
  Print := Print world
|}.

End Demo.

(** ** A reference environment for the address plugin

    Two servers: the first refuses the connection, the second answers every
    request with status 200 and a lease.  The container has one link, the
    API server cannot be reached, and a URL that begins with a colon does
    not parse. *)

Module Lab.
Import Rest VdnDhcp.

Definition lease : DhcpResp :=
  {| ClientIp := "172.16.1.10"; Resp_ClientHwAddr := "02:00:00:00:00:01";
     Resp_VdnId := EmptyString; SubnetMask := "255.255.255.0";
     Router := ["172.16.1.1"];
     DNS := ["164.124.101.2"; EmptyString; "203.248.252.2"];
     LeaseTime := 3600 |}.

(** The result the plugin makes of the lease. *)
Definition granted : Result :=
  {| Interfaces := [];
     IPs := [ {| Version := "4";
                 Address := {| IP := IPv4 172 16 1 10;
                               Mask := IPv4 255 255 255 0 |};
                 Gateway := IPv4 172 16 1 1 |} ];
     Routes := [ {| Dst := {| IP := IPv4zero; Mask := IPv4zero |};
                    GW := IPv4 172 16 1 1 |} ];
     Nameservers := ["164.124.101.2"; "203.248.252.2"] |}.

Definition down : Server :=
  {| Url := "http://down:8181/vdn/v1/vdhcp/dhcp/"; User := "onos";
     Password := "rocks" |}.

Definition up : Server :=
  {| Url := "http://localhost:8181/vdn/v1/vdhcp/dhcp/"; User := "onos";
     Password := "rocks" |}.

Definition stray : Server :=
  {| Url := "://localhost"; User := "onos"; Password := "rocks" |}.

Definition conf : NetConf :=
  {| CNIVersion := "0.3.1"; Servers := [down; up]; Kubeconfig := EmptyString |}.

Definition conf_stray : NetConf :=
  {| CNIVersion := "0.3.1"; Servers := [down; stray; up];
     Kubeconfig := EmptyString |}.

Definition wire : Transport unit string DhcpReq DhcpResp := {|
  Parse := fun path =>
    if String.prefix ":" path then Error (External "missing protocol scheme")
    else Ok path;
  PathEscape := fun path => path;
  Reference := fun path => path;
  ResolveReference := fun base ref => base +:+ ref;
  UrlString := fun u => u;
  Encode := fun req => Ok (ClientHwAddr req);
  Decode := fun text =>
    if bool_decide (text = "lease") then Ok lease
    else Error (External "invalid character");
  NewRequest := fun _ _ => None;
  Do := fun w req =>
    (w,
     if String.prefix "http://down" (URL req) then
       Error (External "connection refused")
     else Ok {| StatusCode := 200; Status := "200 OK"; ResponseBody := "lease" |})
|}.

Definition addresses : list (string * list Z) :=
  [("172.16.1.10", IPv4 172 16 1 10); ("255.255.255.0", IPv4 255 255 255 0);
   ("172.16.1.1", IPv4 172 16 1 1); ("164.124.101.2", IPv4 164 124 101 2);
   ("203.248.252.2", IPv4 203 248 252 2)].

Definition hardwareAddr : list Z := [2; 0; 0; 0; 0; 1].

Definition environment : Environment unit string unit unit Result := {|
  transport := wire;
  Unmarshal := fun bytes =>
    if bool_decide (bytes = "stdin") then Ok conf
    else if bool_decide (bytes = "stray") then Ok conf_stray
    else Error (External "unexpected end of JSON input");
  EnterNS := fun _ _ => None;
  LinkByName := fun _ _ ifName =>
    if bool_decide (ifName = "eth0") then Ok hardwareAddr
    else Error (External "Link not found");
  MacString := fun _ => "02:00:00:00:00:01";
  BuildConfigFromFlags := fun _ _ _ => Error (External "invalid configuration");
  NewForConfig := fun _ _ => Ok tt;
  LoadArgs := fun _ => Error (External "ARGS: invalid pair");
  PodsGet := fun _ _ _ _ => Error (External "pods not found");
  ParseIP := fun text => Reference.assoc text addresses;
  GetAsVersion := fun result _ => Ok result;
  Print := fun _ => None
|}.

Definition args (stdin : string) : Multicni.CmdArgs :=
  {| Multicni.ContainerID := "c1"; Multicni.Netns := "/var/run/netns/c1";
     Multicni.IfName := "eth0"; Multicni.Args := EmptyString;
     Multicni.Path := "/opt/cni/bin"; Multicni.StdinData := stdin |}.

Definition start : conn unit := Conn tt [].

End Lab.

(** * Properties *)

Import GoString Allocator.
Local Open Scope list_scope.

(** ** Bytes, runes and the fresh closure *)

Lemma lor_bounds a b : 0 <= a -> 0 <= b -> a <= Z.lor a b /\ b <= Z.lor a b /\ Z.lor a b <= a + b.
Proof.
  intros Ha Hb.
  pose proof (Z.add_lor_land a b) as H.
  pose proof (Z.sub_land_same_l a b) as H1.
  pose proof (Z.sub_land_same_l b a) as H2.
  rewrite (Z.land_comm b a) in H2.
  assert (0 <= Z.land a b) by (apply Z.land_nonneg; lia).
  assert (0 <= Z.land a (Z.lnot b)) by (apply Z.land_nonneg; lia).
  assert (0 <= Z.land b (Z.lnot a)) by (apply Z.land_nonneg; lia).
  lia.
Qed.

Lemma low6_bounds b : 0 <= low6 b < 64.
Proof.
  unfold low6. change 63 with (Z.ones 6). rewrite Z.land_ones by lia.
  apply Z.mod_pos_bound. lia.
Qed.

Lemma low6_mod b : low6 b = b mod 64.
Proof. unfold low6. change 63 with (Z.ones 6). rewrite Z.land_ones by lia. reflexivity. Qed.

Lemma shiftr_div r n : 0 <= n -> Z.shiftr r n = r / 2 ^ n.
Proof. intros. apply Z.shiftr_div_pow2; lia. Qed.

Lemma is_digit_spec b : is_digit b = true <-> 48 <= b <= 57.
Proof. unfold is_digit, within. rewrite andb_true_iff, !Z.leb_le. reflexivity. Qed.

Lemma is_digit_false_ge b : 58 <= b -> is_digit b = false.
Proof. intros. destruct (is_digit b) eqn:E; [apply is_digit_spec in E; lia | reflexivity]. Qed.

Lemma plain_high b : 128 <= b < 256 -> plain b.
Proof. intros. split; [lia | apply is_digit_false_ge; lia]. Qed.

Lemma encode_spec r :
  (is_digit r = true /\ encode r = [r]) \/ Forall plain (encode r).
Proof.
  unfold encode, within, MaxRune.
  destruct ((0 <=? r) && (r <=? 127)) eqn:E1.
  { apply andb_true_iff in E1 as [?%Z.leb_le ?%Z.leb_le].
    destruct (is_digit r) eqn:Ed; [left; done | right].
    repeat constructor; [lia | lia | done]. }
  right.
  destruct ((0 <=? r) && (r <=? 2047)) eqn:E2.
  { apply andb_true_iff in E2 as [?%Z.leb_le ?%Z.leb_le].
    apply andb_false_iff in E1 as [?%Z.leb_gt | ?%Z.leb_gt]; [lia|].
    pose proof (low6_bounds r).
    assert (0 <= Z.shiftr r 6 <= 31).
    { rewrite shiftr_div by lia. change (2 ^ 6) with 64. Z.div_mod_to_equations; lia. }
    pose proof (lor_bounds 192 (Z.shiftr r 6)).
    pose proof (lor_bounds 128 (low6 r)).
    repeat constructor; apply plain_high; lia. }
  destruct ((r <? 0) || (1114111 <? r) || ((55296 <=? r) && (r <=? 57343))) eqn:E3.
  { repeat constructor; apply plain_high; lia. }
  apply orb_false_iff in E3 as [E3 _].
  apply orb_false_iff in E3 as [?%Z.ltb_ge ?%Z.ltb_ge].
  destruct (r <=? 65535) eqn:E4.
  { apply Z.leb_le in E4.
    pose proof (low6_bounds r). pose proof (low6_bounds (Z.shiftr r 6)).
    assert (0 <= Z.shiftr r 12 <= 15).
    { rewrite shiftr_div by lia. change (2 ^ 12) with 4096. Z.div_mod_to_equations; lia. }
    pose proof (lor_bounds 224 (Z.shiftr r 12)).
    pose proof (lor_bounds 128 (low6 r)).
    pose proof (lor_bounds 128 (low6 (Z.shiftr r 6))).
    repeat constructor; apply plain_high; lia. }
  apply Z.leb_gt in E4.
  pose proof (low6_bounds r). pose proof (low6_bounds (Z.shiftr r 6)).
  pose proof (low6_bounds (Z.shiftr r 12)).
  assert (0 <= Z.shiftr r 18 <= 4).
  { rewrite shiftr_div by lia. change (2 ^ 18) with 262144. Z.div_mod_to_equations; lia. }
  pose proof (lor_bounds 240 (Z.shiftr r 18)).
  pose proof (lor_bounds 128 (low6 r)).
  pose proof (lor_bounds 128 (low6 (Z.shiftr r 6))).
  pose proof (lor_bounds 128 (low6 (Z.shiftr r 12))).
  repeat constructor; apply plain_high; lia.
Qed.

Lemma first_spec b0 sz lo hi :
  first b0 = Some (sz, lo, hi) ->
  hi <= 191 /\
  ((sz = 2 /\ 194 <= b0 <= 223 /\ lo = 128) \/
   (sz = 3 /\ ((b0 = 224 /\ lo = 160) \/ (225 <= b0 <= 239 /\ 128 <= lo))) \/
   (sz = 4 /\ ((b0 = 240 /\ lo = 144) \/ (241 <= b0 <= 244 /\ 128 <= lo)))).
Proof.
  unfold first.
  repeat match goal with
  | |- context [if ?c then _ else _] => destruct c eqn:?
  end; intros [= <- <- <-]; split; try lia;
  repeat match goal with
  | H : (_ && _) = true |- _ => apply andb_true_iff in H as [? ?]
  | H : (_ <=? _) = true |- _ => apply Z.leb_le in H
  | H : (_ =? _) = true |- _ => apply Z.eqb_eq in H
  end; lia.
Qed.

Lemma shiftl_mul a n : 0 <= n -> Z.shiftl a n = a * 2 ^ n.
Proof. intros. apply Z.shiftl_mul_pow2; lia. Qed.

Lemma land_low a n : 0 <= n -> Z.land a (Z.ones n) = a mod 2 ^ n.
Proof. intros. apply Z.land_ones; lia. Qed.

Lemma within_spec lo hi b : within lo hi b = true <-> lo <= b <= hi.
Proof. unfold within. rewrite andb_true_iff, !Z.leb_le. reflexivity. Qed.

Lemma decode_step b0 t0 :
  exists r k, decode (b0 :: t0) = r :: decode (drop k t0)
    /\ ((r = b0 /\ k = 0%nat) \/ is_digit r = false).
Proof.
  cbn [decode].
  destruct (b0 <? 128) eqn:E0.
  { exists b0, 0%nat. rewrite drop_0. auto. }
  assert (Herr : exists r k, RuneError :: decode t0 = r :: decode (drop k t0)
    /\ ((r = b0 /\ k = 0%nat) \/ is_digit r = false)).
  { exists RuneError, 0%nat. rewrite drop_0. split; [done | right; done]. }
  destruct (first b0) as [[[sz lo] hi]|] eqn:Ef; [|exact Herr].
  apply first_spec in Ef as [Hhi Hf].
  destruct t0 as [|b1 t1]; [exact Herr|].
  destruct (within lo hi b1) eqn:E1; cbn [negb]; [|exact Herr].
  apply within_spec in E1.
  pose proof (low6_bounds b1) as Hb1. pose proof (low6_mod b1) as Hm1.
  destruct (sz <=? 2) eqn:E2.
  { apply Z.leb_le in E2. destruct Hf as [(-> & Hb0 & ->)|[[? _]|[? _]]]; try lia.
    eexists _, 1%nat. split; [reflexivity | right].
    apply is_digit_false_ge.
    assert (128 <= Z.shiftl (Z.land b0 31) 6).
    { change 31 with (Z.ones 5). rewrite land_low, shiftl_mul by lia.
      change (2 ^ 5) with 32. change (2 ^ 6) with 64. Z.div_mod_to_equations; lia. }
    pose proof (lor_bounds (Z.shiftl (Z.land b0 31) 6) (low6 b1)). lia. }
  apply Z.leb_gt in E2.
  destruct t1 as [|b2 t2]; [exact Herr|].
  destruct (cont b2) eqn:Ec2; cbn [negb]; [|exact Herr].
  pose proof (low6_bounds b2) as Hb2.
  destruct (sz <=? 3) eqn:E3.
  { apply Z.leb_le in E3. destruct Hf as [(? & _)|[[-> Hc]|[? _]]]; try lia.
    eexists _, 2%nat. split; [reflexivity | right].
    apply is_digit_false_ge.
    assert (0 <= Z.shiftl (low6 b1) 6).
    { rewrite shiftl_mul by lia. lia. }
    assert (0 <= Z.shiftl (Z.land b0 15) 12).
    { change 15 with (Z.ones 4). rewrite land_low, shiftl_mul by lia.
      change (2 ^ 4) with 16. change (2 ^ 12) with 4096. Z.div_mod_to_equations; lia. }
    pose proof (lor_bounds (Z.shiftl (low6 b1) 6) (low6 b2)) as L1.
    pose proof (lor_bounds (Z.shiftl (Z.land b0 15) 12)
                  (Z.lor (Z.shiftl (low6 b1) 6) (low6 b2))) as L2.
    destruct Hc as [[-> ->]|[Hb0 Hlo]].
    - assert (2048 <= Z.shiftl (low6 b1) 6).
      { rewrite shiftl_mul, Hm1 by lia. change (2 ^ 6) with 64.
        Z.div_mod_to_equations; lia. }
      lia.
    - assert (4096 <= Z.shiftl (Z.land b0 15) 12).
      { change 15 with (Z.ones 4). rewrite land_low, shiftl_mul by lia.
        change (2 ^ 4) with 16. change (2 ^ 12) with 4096.
        Z.div_mod_to_equations; lia. }
      lia. }
  apply Z.leb_gt in E3.
  destruct t2 as [|b3 t3]; [exact Herr|].
  destruct (cont b3) eqn:Ec3; cbn [negb]; [|exact Herr].
  pose proof (low6_bounds b3) as Hb3.
  destruct Hf as [(? & _)|[[? _]|[-> Hc]]]; try lia.
  eexists _, 3%nat. split; [reflexivity | right].
  apply is_digit_false_ge.
  assert (0 <= Z.shiftl (low6 b2) 6) by (rewrite shiftl_mul by lia; lia).
  assert (0 <= Z.shiftl (low6 b1) 12) by (rewrite shiftl_mul by lia; lia).
  assert (0 <= Z.shiftl (Z.land b0 7) 18).
  { change 7 with (Z.ones 3). rewrite land_low, shiftl_mul by lia.
    change (2 ^ 3) with 8. change (2 ^ 18) with 262144. Z.div_mod_to_equations; lia. }
  pose proof (lor_bounds (Z.shiftl (low6 b2) 6) (low6 b3)) as L1.
  pose proof (lor_bounds (Z.shiftl (low6 b1) 12)
                (Z.lor (Z.shiftl (low6 b2) 6) (low6 b3))) as L2.
  pose proof (lor_bounds (Z.shiftl (Z.land b0 7) 18)
                (Z.lor (Z.shiftl (low6 b1) 12)
                   (Z.lor (Z.shiftl (low6 b2) 6) (low6 b3)))) as L3.
  destruct Hc as [[-> ->]|[Hb0 Hlo]].
  - assert (65536 <= Z.shiftl (low6 b1) 12).
    { rewrite shiftl_mul, Hm1 by lia. change (2 ^ 12) with 4096.
      Z.div_mod_to_equations; lia. }
    lia.
  - assert (262144 <= Z.shiftl (Z.land b0 7) 18).
    { change 7 with (Z.ones 3). rewrite land_low, shiftl_mul by lia.
      change (2 ^ 3) with 8. change (2 ^ 18) with 262144.
      Z.div_mod_to_equations; lia. }
    lia.
Qed.

Lemma decode_nodigit_aux n : forall bs, (length bs <= n)%nat ->
  Forall nodigit bs -> Forall nodigit (decode bs).
Proof.
  induction n as [|n IH]; intros [|b0 t0] Hlen Hbs; cbn [length] in Hlen;
    try (constructor; fail); try lia.
  destruct (decode_step b0 t0) as (r & k & Hd & Hr). rewrite Hd.
  apply Forall_cons in Hbs as [Hb0 Ht0].
  constructor.
  - destruct Hr as [[-> _]|Hr]; assumption.
  - apply IH; [rewrite length_drop; lia | by apply Forall_drop].
Qed.

Lemma decode_nodigit bs : Forall nodigit bs -> Forall nodigit (decode bs).
Proof. apply (decode_nodigit_aux (length bs)). lia. Qed.

(** Runes past position [n] are no digits when bytes past index [n] are
    none: a rune never starts before its own position. *)
Lemma decode_late_aux m : forall bs n, (length bs <= m)%nat ->
  (forall i b, bs !! i = Some b -> is_digit b = true -> (i <= n)%nat) ->
  Forall nodigit (drop (S n) (decode bs)).
Proof.
  induction m as [|m IH]; intros [|b0 t0] n Hlen Hbs; cbn [length] in Hlen;
    try (cbn [decode]; rewrite drop_nil; constructor; fail); try lia.
  destruct (decode_step b0 t0) as (r & k & Hd & _). rewrite Hd.
  cbn [drop].
  destruct n as [|n].
  - rewrite drop_0. apply decode_nodigit, Forall_drop.
    apply Forall_lookup. intros i b Hi.
    destruct (is_digit b) eqn:Ed; [|done].
    specialize (Hbs (S i) b Hi Ed). lia.
  - apply IH; [rewrite length_drop; lia|].
    intros i b Hi Ed. rewrite lookup_drop in Hi.
    specialize (Hbs (S (k + i)) b Hi Ed). lia.
Qed.

Lemma decode_late bs n :
  (forall i b, bs !! i = Some b -> is_digit b = true -> (i <= n)%nat) ->
  Forall nodigit (drop (S n) (decode bs)).
Proof. apply (decode_late_aux (length bs)). lia. Qed.

Lemma last_digit_from_spec bs : forall i found, found < i ->
  found <= last_digit_from i bs found /\
  forall p b, bs !! p = Some b -> is_digit b = true ->
    i + Z.of_nat p <= last_digit_from i bs found.
Proof.
  induction bs as [|b bs IH]; intros i found Hlt; cbn [last_digit_from].
  - split; [lia | intros p b' Hp; by rewrite lookup_nil in Hp].
  - destruct (IH (i + 1) (if is_digit b then i else found)) as [Hmono Hall].
    { destruct (is_digit b); lia. }
    split; [revert Hmono; destruct (is_digit b); lia|].
    intros [|p] b' Hp Hd; cbn in Hp.
    + injection Hp as ->. rewrite Hd in Hmono |- *. lia.
    + specialize (Hall p b' Hp Hd). lia.
Qed.

Lemma LastIndexAnyDigit_last s i b :
  bytes s !! i = Some b -> is_digit b = true ->
  Z.of_nat i <= LastIndexAnyDigit s.
Proof.
  intros Hi Hd. unfold LastIndexAnyDigit.
  destruct (last_digit_from_spec (bytes s) 0 (-1)) as [_ H]; [lia|].
  specialize (H i b Hi Hd). lia.
Qed.

Lemma fold_digit_small d : is_digit d = true -> 0 * 10 + (d - 48) < 2 ^ 63.
Proof. intros ?%is_digit_spec. lia. Qed.

Lemma Atoi_error_value s i :
  Atoi s = (i, true) -> i <> 0 ->
  (2 <= length (List.filter is_digit (bytes s)))%nat.
Proof.
  unfold Atoi. destruct (bytes s) as [|c rest]; [intros [= <-]; done|].
  set (ds := if (c =? 45) || (c =? 43) then rest else c :: rest).
  assert (Hsub : (length (List.filter is_digit ds)
                  <= length (List.filter is_digit (c :: rest)))%nat).
  { subst ds. destruct ((c =? 45) || (c =? 43)); [|lia].
    cbn [List.filter]. destruct (is_digit c); cbn [length]; lia. }
  destruct ds as [|d [|d' ds']] eqn:Eds; [intros [= <-]; done| |].
  - cbn [forallb fold_left]. rewrite andb_true_r.
    destruct (is_digit d) eqn:Ed; [|intros [= <-]; done].
    pose proof (fold_digit_small d Ed) as Hn. intros H Hi. exfalso.
    destruct (c =? 45); [destruct (2 ^ 63 <? 0 * 10 + (d - 48)) eqn:E
                        |destruct (2 ^ 63 <=? 0 * 10 + (d - 48)) eqn:E];
      try discriminate H.
    + apply Z.ltb_lt in E. lia.
    + apply Z.leb_le in E. lia.
  - destruct (forallb is_digit (d :: d' :: ds')) eqn:Eall; [|intros [= <-]; done].
    intros _ _. rewrite (forallb_filter_id _ _ Eall) in Hsub.
    cbn [length] in Hsub. lia.
Qed.

Lemma bytes_of_bytes l : bytes (of_bytes l) = (fun b => byte_of (ascii_of b)) <$> l.
Proof.
  unfold bytes, of_bytes. rewrite list_ascii_of_string_of_list_ascii.
  by rewrite <- list_fmap_compose.
Qed.

Lemma byte_of_ascii_of b : 0 <= b < 256 -> byte_of (ascii_of b) = b.
Proof.
  intros Hb. unfold byte_of, ascii_of.
  rewrite N_ascii_embedding by lia. lia.
Qed.

Lemma filter_plain l :
  Forall plain l -> List.filter is_digit ((fun b => byte_of (ascii_of b)) <$> l) = [].
Proof.
  induction 1 as [|b l [Hb Hd] _ IH]; [done|].
  cbn. rewrite byte_of_ascii_of, Hd by done. exact IH.
Qed.

Lemma encode_nodigit rs : Forall nodigit rs -> Forall plain (concat (encode <$> rs)).
Proof.
  induction 1 as [|r rs Hr _ IH]; cbn; [constructor|].
  apply Forall_app. split; [|exact IH].
  destruct (encode_spec r) as [[Hd _]|Hp]; [unfold nodigit in Hr; congruence | exact Hp].
Qed.

Lemma suffix_digits name :
  (length (List.filter is_digit
     (bytes (of_runes (drop (Z.to_nat (LastIndexAnyDigit name)) (runes name))))) <= 1)%nat.
Proof.
  set (n := Z.to_nat (LastIndexAnyDigit name)).
  assert (Hlate : Forall nodigit (drop (S n) (runes name))).
  { apply decode_late. intros i b Hi Hd.
    pose proof (LastIndexAnyDigit_last name i b Hi Hd). lia. }
  replace (S n) with (n + 1)%nat in Hlate by lia. rewrite <- drop_drop in Hlate.
  unfold of_runes. rewrite bytes_of_bytes.
  destruct (drop n (runes name)) as [|r rs]; [cbn; lia|].
  cbn [drop] in Hlate. rewrite drop_0 in Hlate.
  cbn [fmap list_fmap concat]. rewrite fmap_app, List.filter_app, length_app.
  rewrite (filter_plain _ (encode_nodigit rs Hlate)). cbn [length].
  destruct (encode_spec r) as [[_ ->]|Hp].
  - cbn. destruct (is_digit _); cbn; lia.
  - rewrite (filter_plain _ Hp). cbn. lia.
Qed.

Lemma getifname_fresh name g :
  getifname name = Some g -> ifname g = name /\ ifIdx g = 0.
Proof.
  unfold getifname.
  destruct (LastIndexAnyDigit name <? 0); [intros [= <-]; done|].
  destruct (_ <? _); [done|].
  destruct (Atoi _) as [i err] eqn:EA. intros [= <-]. cbn. split; [done|].
  destruct err; [|done].
  destruct (Z.eq_dec i 0) as [|Hi]; [done|]. exfalso.
  pose proof (Atoi_error_value _ _ EA Hi). pose proof (suffix_digits name). lia.
Qed.

Lemma wrap_small z : MinInt <= z <= MaxInt -> wrap z = z.
Proof.
  unfold wrap, MinInt, MaxInt. intros.
  rewrite Z.mod_small by lia. lia.
Qed.

Lemma nth_call_same_names g g' i :
  ifname g = ifname g' -> prefix g = prefix g' -> nth_call g i = nth_call g' i.
Proof. intros Hn Hp. destruct i; cbn; by rewrite ?Hn, ?Hp. Qed.

Lemma produce_n_from n : forall g k,
  ifIdx g = Z.of_nat k -> Z.of_nat (k + n) <= MaxInt + 1 ->
  (produce_n n g).1 = nth_call g <$> seq k n.
Proof.
  induction n as [|n IH]; intros g k Hk Hbound; [done|].
  cbn [produce_n seq fmap list_fmap].
  destruct (produce g) as [[name primary] g1] eqn:Ep.
  assert (Hfirst : (name, primary) = nth_call g k
                   /\ ifname g1 = ifname g /\ prefix g1 = prefix g
                   /\ ifIdx g1 = wrap (ifIdx g + 1)).
  { revert Ep. unfold produce. destruct k as [|k].
    - rewrite Hk. cbn. by intros [= <- <- <-].
    - destruct (ifIdx g =? 0) eqn:E0; [apply Z.eqb_eq in E0; lia|].
      rewrite Hk. by intros [= <- <- <-]. }
  destruct Hfirst as (Hcall & Hname & Hpre & Hidx).
  destruct (produce_n n g1) as [l g2] eqn:En. cbn. rewrite Hcall. f_equal.
  destruct n as [|n]; [by injection En as <- _|].
  replace l with (produce_n (S n) g1).1 by by rewrite En.
  rewrite (IH g1 (S k)).
  - apply list_fmap_ext. intros _ i _. by apply nth_call_same_names.
  - rewrite Hidx, Hk, wrap_small; unfold MinInt, MaxInt in *; lia.
  - lia.
Qed.

(** Every fresh closure starts at index 0, whatever digits the name ends
    in: the names it hands out are those of [nth_call]. *)
Lemma calls_closed_form name g n :
  getifname name = Some g -> Z.of_nat n <= MaxInt ->
  calls n name = Some (nth_call g <$> seq 0 n).
Proof.
  intros Hg Hn. unfold calls. rewrite Hg. cbn. f_equal.
  apply getifname_fresh in Hg as [_ Hidx].
  apply produce_n_from; [done | unfold MaxInt in *; lia].
Qed.

(** C2: from the base name eth0 three calls give eth0, eth1 and eth2, the
    first one alone marked primary; and the names of any fresh closure for
    eth0 are a function of the number of the call alone. *)
Theorem eth0_names :
  calls 3 "eth0" = Some [("eth0", true); ("eth1", false); ("eth2", false)]
  /\ forall n g, getifname "eth0" = Some g -> Z.of_nat n <= MaxInt ->
       (produce_n n g).1
       = (fun i => match i with
                   | O => ("eth0", true)
                   | S _ => ("eth" +:+ Itoa (Z.of_nat i), false)
                   end) <$> seq 0 n.
Proof.
  split; [vm_compute; reflexivity|].
  intros n g Hg Hn. pose proof (calls_closed_form _ _ n Hg Hn) as H.
  unfold calls in H. rewrite Hg in H. cbn in H. injection H as ->.
  apply list_fmap_ext. intros _ i _.
  assert (g = Podif "eth0" "eth" 0) as -> by (vm_compute in Hg; congruence).
  by destruct i.
Qed.

(** C3 at the base name eth10: the prefix is cut before the last digit
    only and keeps the digit 1, so the names run eth10, eth11, ..., eth19,
    eth110; and at eth0a, which ends in no digit, the prefix is eth, not
    the whole name. *)
Theorem eth10_prefix_keeps_a_digit :
  getifname "eth10" = Some (Podif "eth10" "eth1" 0)
  /\ calls 11 "eth10"
     = Some [("eth10", true); ("eth11", false); ("eth12", false);
             ("eth13", false); ("eth14", false); ("eth15", false);
             ("eth16", false); ("eth17", false); ("eth18", false);
             ("eth19", false); ("eth110", false)]
  /\ calls 2 "eth0a" = Some [("eth0a", true); ("eth1", false)].
Proof. repeat split; vm_compute; reflexivity. Qed.

Lemma last_digit_from_upper bs : forall i found, found < i ->
  last_digit_from i bs found < i + Z.of_nat (length bs).
Proof.
  induction bs as [|b bs IH]; intros i found Hlt; cbn [last_digit_from length].
  - lia.
  - specialize (IH (i + 1) (if is_digit b then i else found)).
    destruct (is_digit b); lia.
Qed.

Lemma decode_ascii bs : forallb (fun b => b <? 128) bs = true -> decode bs = bs.
Proof.
  induction bs as [|b bs IH]; [done|]. cbn [forallb decode].
  intros [Hb Hbs]%andb_true_iff. rewrite Hb. f_equal. by apply IH.
Qed.

(** As long as the bytes are ASCII, each is a rune of its own. *)
Lemma decode_ascii_prefix n : forall bs,
  (n <= length bs)%nat ->
  (forall i b, (i < n)%nat -> bs !! i = Some b -> b < 128) ->
  (n <= length (decode bs))%nat.
Proof.
  induction n as [|n IH]; intros bs Hlen Hlow; [lia|].
  destruct bs as [|b0 t0]; [cbn in Hlen; lia|].
  assert (Hb : (b0 <? 128) = true).
  { apply Z.ltb_lt. apply (Hlow 0%nat); [lia|done]. }
  cbn [decode]. rewrite Hb. cbn [length] in *.
  apply le_n_S, IH; [lia|].
  intros i b Hi Hb'. apply (Hlow (S i)); [lia|done].
Qed.

(** X2: on a name of ASCII bytes the byte index is a rune index, and
    [getifname] returns; its slice expression goes out of range only on a
    name with a byte of a multi-byte character before its last digit. *)
Theorem ascii_name_never_panics name :
  (is_ascii name = true -> is_Some (getifname name))
  /\ (getifname name = None ->
      exists i b,
        Z.of_nat i < LastIndexAnyDigit name
        /\ bytes name !! i = Some b /\ 128 <= b).
Proof.
  pose proof (last_digit_from_upper (bytes name) 0 (-1) ltac:(lia)) as Hup.
  fold (LastIndexAnyDigit name) in Hup.
  split.
  - intros Ha. unfold getifname.
    destruct (LastIndexAnyDigit name <? 0); [by eexists|].
    unfold runes. rewrite (decode_ascii _ Ha).
    destruct (_ <? _) eqn:E; [apply Z.ltb_lt in E; lia|].
    destruct (Atoi _). by eexists.
  - unfold getifname.
    destruct (Z.ltb_spec (LastIndexAnyDigit name) 0) as [|Hidx]; [done|].
    destruct (Z.ltb_spec (Z.of_nat (length (runes name))) (LastIndexAnyDigit name))
      as [Hshort|]; [intros _|by destruct (Atoi _)].
    set (n := Z.to_nat (LastIndexAnyDigit name)).
    destruct (decide (Forall (fun b => b < 128) (take n (bytes name))))
      as [Hlow|Hhigh].
    + exfalso.
      assert (Hn : (n <= length (decode (bytes name)))%nat).
      { apply decode_ascii_prefix; [lia|].
        intros i b Hi Hb. rewrite Forall_lookup in Hlow.
        apply (Hlow i). by rewrite lookup_take_lt. }
      unfold runes in Hshort. lia.
    + apply not_Forall_Exists in Hhigh; [|intros b; apply _].
      apply Exists_exists in Hhigh as (b & Hin & Hb).
      apply list_elem_of_lookup in Hin as [i Hi].
      apply lookup_take_Some in Hi as [Hi Hlt].
      unfold compose in Hb. subst n. exists i, b. split; [lia|]. split; [done|lia].
Qed.

Lemma ascii_name_never_panics_witness : is_Some (getifname "eth0").
Proof. apply (proj1 (ascii_name_never_panics "eth0")). reflexivity. Defined.

(** X1: the first call of every closure returns the base name itself,
    marked primary: the index starts at 0 whatever digits the name ends
    in. *)
Theorem first_call_returns_base_name name g :
  getifname name = Some g -> (produce g).1 = (name, true).
Proof.
  intros [Hname Hidx]%getifname_fresh. unfold produce. by rewrite Hidx, Hname.
Qed.

Lemma first_call_returns_base_name_witness :
  (produce (Podif "eth5" "eth" 0)).1 = ("eth5", true).
Proof. apply first_call_returns_base_name. vm_compute. reflexivity. Defined.

(** X3: from the base name eth1 the second name is eth1 again. *)
Theorem eth1_is_handed_out_twice :
  calls 2 "eth1" = Some [("eth1", true); ("eth1", false)].
Proof. vm_compute. reflexivity. Qed.

(** ** The dispatcher *)

Section DispatcherFacts.
Import Multicni.
Context {W Config Clientset Result : Type}.
Variable co : Collaborators W Config Clientset Result.

Lemma firstNamed_resolve (call : delegate) name plugins g (p : proc W Result) :
  firstNamed call name plugins g p
  = (fun plugin => call g plugin p) <$> resolve plugins name.
Proof.
  unfold resolve. induction plugins as [|plugin rest IH]; cbn; [done|].
  destruct (eqString _ _); [done | exact IH].
Qed.


Lemma delegateAdd_behaves : behaves co (delegateAdd co).
Proof.
  intros g plugin p r g' p'. unfold delegateAdd.
  destruct (Marshal co plugin) as [bytes|err] eqn:EM.
  2:{ intros [= <- <- <-]. exists []. rewrite app_nil_r. split; [done|]. left. done. }
  destruct (produce g) as [[iface isDefault] g1].
  destruct (Setenv _ _ _) as [env'|].
  2:{ intros [= <- <- <-]. exists []. rewrite app_nil_r. split; [done|]. left. done. }
  destruct (plugin !! "type") as [[| | |type| |]|] eqn:ET;
    try (intros [= <- <- <-]; exists []; rewrite app_nil_r; split; [done|]; left; done).
  destruct (DelegateAdd co _ _ _ _) as [w' answer].
  destruct answer as [result|err].
  - destruct isDefault; intros [= <- <- <-]; cbn [trace].
    + exists [InvokedAdd type bytes iface (Ok result); Printed result].
      rewrite <- app_assoc. split; [done|]. right. by exists (type, bytes, iface).
    + exists [InvokedAdd type bytes iface (Ok result)].
      split; [done|]. right. by exists (type, bytes, iface).
  - intros [= <- <- <-]; cbn [trace].
    exists [InvokedAdd type bytes iface (Error err)].
    split; [done|]. right. by exists (type, bytes, iface).
Qed.

Lemma delegateDel_behaves : behaves co (delegateDel co).
Proof.
  intros g plugin p r g' p'. unfold delegateDel.
  destruct (Marshal co plugin) as [bytes|err] eqn:EM.
  2:{ intros [= <- <- <-]. exists []. rewrite app_nil_r. split; [done|]. left. done. }
  destruct (produce g) as [[iface isDefault] g1].
  destruct (Setenv _ _ _) as [env'|].
  2:{ intros [= <- <- <-]. exists []. rewrite app_nil_r. split; [done|]. left. done. }
  destruct (plugin !! "type") as [[| | |type| |]|] eqn:ET;
    try (intros [= <- <- <-]; exists []; rewrite app_nil_r; split; [done|]; left; done).
  destruct (DelegateDel co _ _ _ _) as [w' answer].
  destruct answer as [err|]; intros [= <- <- <-]; cbn [trace];
    (eexists [_]; split; [reflexivity|]); right;
    by exists (type, bytes, iface).
Qed.

Lemma invocations_app (a b : list (event Result)) :
  invocations (a ++ b) = invocations a ++ invocations b.
Proof. unfold invocations. apply omap_app. Qed.

(** The loop over the dynamic list invokes, in the order of the list, the
    entries its names select, and stops at the first failure. *)
Lemma eachPodPlugin_order (call : delegate) (conf : NetConf) :
  behaves co call ->
  forall podPlugins g (p : proc W Result) r g' p',
    eachPodPlugin call (Plugins conf) podPlugins g p = (r, g', p') ->
    exists evs k, trace p' = trace p ++ evs
      /\ Forall2 (selected co conf) (take k podPlugins) (invocations evs)
      /\ (r = Nil -> k = length podPlugins).
Proof.
  intros Hcall. induction podPlugins as [|name rest IH]; intros g p r g' p'.
  { intros [= <- <- <-]. exists [], 0%nat. rewrite app_nil_r. by repeat split. }
  cbn [eachPodPlugin]. rewrite firstNamed_resolve.
  destruct (resolve (Plugins conf) name) as [plugin|] eqn:Eres; cbn.
  2:{ intros [= <- <- <-]. exists [], 0%nat. rewrite app_nil_r. by repeat split. }
  destruct (call g plugin p) as [[r1 g1] p1] eqn:Ecall.
  destruct (Hcall _ _ _ _ _ _ Ecall) as (evs1 & Htr1 & Hshape).
  assert (Hstop : r1 <> Nil -> (r1, g1, p1) = (r, g', p') ->
    exists evs k, trace p' = trace p ++ evs
      /\ Forall2 (selected co conf) (take k (name :: rest)) (invocations evs)
      /\ (r = Nil -> k = length (name :: rest))).
  { intros Hr [= <- <- <-]. destruct Hshape as [[Hnone _]|(inv & Hone & Hty & Hm)].
    - exists evs1, 0%nat. rewrite Hnone. by repeat split.
    - exists evs1, 1%nat. rewrite Hone. cbn. repeat split; [done| |done].
      repeat constructor. by exists plugin. }
  destruct r1; [|by apply Hstop|by apply Hstop].
  intros Hrest. destruct (IH _ _ _ _ _ Hrest) as (evs2 & k & Htr2 & Hsel & Hall).
  destruct Hshape as [[_ ?]|(inv & Hone & Hty & Hm)]; [done|].
  exists (evs1 ++ evs2), (S k). rewrite Htr2, Htr1, app_assoc.
  split; [done|]. rewrite invocations_app, Hone. cbn. split.
  - constructor; [by exists plugin | exact Hsel].
  - intros Hr. by rewrite (Hall Hr).
Qed.

Lemma eachPodPlugin_unresolved (call : delegate) plugins :
  forall podPlugins g (p : proc W Result) name,
    name ∈ podPlugins -> resolve plugins name = None ->
    (eachPodPlugin call plugins podPlugins g p).1.1 <> Nil.
Proof.
  induction podPlugins as [|name' rest IH]; intros g p name Hin Hres.
  { by apply elem_of_nil in Hin. }
  cbn [eachPodPlugin]. rewrite firstNamed_resolve.
  destruct (resolve plugins name') as [plugin|] eqn:Eres; cbn; [|done].
  destruct (call g plugin p) as [[r1 g1] p1]. destruct r1; [|done|done].
  apply elem_of_cons in Hin as [->|Hin]; [congruence|].
  by apply (IH _ _ name).
Qed.

Lemma command_dispatch (call : delegate) args (p : proc W Result) conf podPlugins :
  loadNetConf co (StdinData args) = Ok conf ->
  checkPlugins (Plugins conf) = Nil ->
  podPluginsOf co (world p) conf args = Ok podPlugins ->
  command co call args p = dispatch call conf podPlugins (IfName args) p.
Proof. intros Hconf Hcheck Hpod. unfold command. by rewrite Hconf, Hcheck, Hpod. Qed.

Lemma dispatch_selection (call : delegate) conf podPlugins ifName (p : proc W Result) :
  behaves co call ->
  exists evs k,
    trace (dispatch call conf podPlugins ifName p).2 = trace p ++ evs
    /\ Forall2 (selected co conf) (take k (plan conf podPlugins)) (invocations evs)
    /\ ((dispatch call conf podPlugins ifName p).1 = Nil ->
        k = length (plan conf podPlugins)).
Proof.
  intros Hcall. unfold dispatch.
  destruct (getifname ifName) as [g|].
  2:{ exists [], 0%nat. rewrite app_nil_r. by repeat split. }
  destruct podPlugins as [|name rest]; cbn [length Nat.ltb Nat.leb plan].
  - rewrite firstNamed_resolve.
    destruct (resolve (Plugins conf) (Default conf)) as [plugin|] eqn:Eres; cbn.
    2:{ exists [], 0%nat. rewrite app_nil_r. by repeat split. }
    destruct (call g plugin p) as [[r g'] p'] eqn:Ecall. cbn.
    destruct (Hcall _ _ _ _ _ _ Ecall) as (evs & Htr & [[Hnone Hr]|(inv & Hone & Hty & Hm)]).
    + exists evs, 0%nat. rewrite Hnone. by repeat split.
    + exists evs, 1%nat. rewrite Hone. cbn. repeat split; [done|].
      repeat constructor. by exists plugin.
  - destruct (eachPodPlugin call (Plugins conf) (name :: rest) g p)
      as [[r g'] p'] eqn:Erun. cbn.
    destruct (eachPodPlugin_order call conf Hcall _ _ _ _ _ _ Erun)
      as (evs & k & Htr & Hsel & Hall).
    by exists evs, k.
Qed.

Lemma dispatch_unresolved (call : delegate) conf podPlugins ifName
  (p : proc W Result) name :
  name ∈ podPlugins -> resolve (Plugins conf) name = None ->
  (dispatch call conf podPlugins ifName p).1 <> Nil.
Proof.
  intros Hin Hres. unfold dispatch.
  destruct (getifname ifName) as [g|]; [|done].
  destruct podPlugins as [|name' rest]; [by apply elem_of_nil in Hin|].
  cbn [length Nat.ltb Nat.leb].
  pose proof (eachPodPlugin_unresolved call (Plugins conf) (name' :: rest) g p
                name Hin Hres) as H.
  by destruct (eachPodPlugin _ _ _ _ _) as [[r g'] p'].
Qed.

Lemma cmd_command (del : bool) :
  cmd co del = command co (if del then delegateDel co else delegateAdd co).
Proof. by destruct del. Qed.

Lemma cmd_behaves (del : bool) :
  behaves co (if del then delegateDel co else delegateAdd co).
Proof. destruct del; [apply delegateDel_behaves | apply delegateAdd_behaves]. Qed.


(** C5, amended: a failure to reach the API server or to read the pod, or
    a pod with no plugin list, leaves the dynamic list empty, and the
    command goes on with the default; a plugin list that does not parse
    makes the command fail before any delegate is invoked. *)
Theorem metadata_failures (del : bool) args (p : proc W Result) conf :
  loadNetConf co (StdinData args) = Ok conf ->
  checkPlugins (Plugins conf) = Nil ->
  ((forall client, createK8sClient co (world p) (Kubeconfig conf) = Ok client ->
    forall annot, getK8sPodAnnotations co (world p) client args = Ok annot ->
    annot !! "cni-plugins" = None \/ annot !! "cni-plugins" = Some EmptyString) ->
   cmd co del args p
   = dispatch (if del then delegateDel co else delegateAdd co) conf []
       (IfName args) p)
  /\ (forall client annot text err,
       createK8sClient co (world p) (Kubeconfig conf) = Ok client ->
       getK8sPodAnnotations co (world p) client args = Ok annot ->
       annot !! "cni-plugins" = Some text -> text <> EmptyString ->
       parsePodNetworkObject co text = Error err ->
       cmd co del args p
       = (Fail (Errorf "Multicni: Err in pod annotation 'cni-plugins': %v"
                  [text] []), p)).
Proof.
  intros Hconf Hcheck. rewrite cmd_command. split.
  - intros Hlookup. apply command_dispatch; [done..|].
    unfold podPluginsOf.
    destruct (createK8sClient _ _ _) as [client|]; [|done].
    destruct (getK8sPodAnnotations _ _ _ _) as [annot|] eqn:Ea; [|done].
    destruct (Hlookup client eq_refl annot Ea) as [-> | ->]; done.
  - intros client annot text err Hc Ha Ht Hne Herr.
    unfold command, podPluginsOf. rewrite Hconf, Hcheck, Hc, Ha, Ht. cbn.
    rewrite bool_decide_eq_false_2 by done. by rewrite Herr.
Qed.





Lemma delegateAdd_steps : steps co (delegateAdd co).
Proof.
  intros g plugin p g' p'. unfold delegateAdd.
  destruct (Marshal co plugin) as [bytes|err]; [|done].
  destruct (produce g) as [[iface isDefault] g1].
  destruct (Setenv _ _ _) as [env'|]; [|done].
  destruct (plugin !! "type") as [[| | |type| |]|]; try done.
  destruct (DelegateAdd co _ _ _ _) as [w' [result|err]]; [|done].
  destruct isDefault.
  - destruct (Print co result); [done|]. intros [= <- <-]. cbn [trace].
    eexists [_; _], type, bytes. rewrite <- app_assoc. by repeat split.
  - intros [= <- <-]. cbn [trace]. eexists [_], type, bytes. by repeat split.
Qed.

Lemma delegateDel_steps : steps co (delegateDel co).
Proof.
  intros g plugin p g' p'. unfold delegateDel.
  destruct (Marshal co plugin) as [bytes|err]; [|done].
  destruct (produce g) as [[iface isDefault] g1].
  destruct (Setenv _ _ _) as [env'|]; [|done].
  destruct (plugin !! "type") as [[| | |type| |]|]; try done.
  destruct (DelegateDel co _ _ _ _) as [w' [err|]]; [done|].
  intros [= <- <-]. cbn [trace]. eexists [_], type, bytes. by repeat split.
Qed.

Lemma eachPodPlugin_lineup (call : delegate) plugins :
  steps co call ->
  forall names g (p : proc W Result) g' p',
    eachPodPlugin call plugins names g p = (Nil, g', p') ->
    exists evs, trace p' = trace p ++ evs
      /\ invocations evs = lineup co plugins names g.
Proof.
  intros Hcall. induction names as [|name rest IH]; intros g p g' p'.
  { intros [= <- <-]. exists []. by rewrite app_nil_r. }
  cbn [eachPodPlugin lineup]. rewrite firstNamed_resolve.
  destruct (resolve plugins name) as [plugin|]; cbn; [|done].
  destruct (call g plugin p) as [[r1 g1] p1] eqn:Ecall.
  destruct r1; [|done..].
  destruct (Hcall _ _ _ _ _ Ecall) as (evs1 & ty & b & Htr1 & Hinv & Hty & Hm & ->).
  intros Hrest. destruct (IH _ _ _ _ Hrest) as (evs2 & Htr2 & Hinv2).
  exists (evs1 ++ evs2). rewrite Htr2, Htr1, app_assoc. split; [done|].
  by rewrite invocations_app, Hinv, Hinv2, Hty, Hm.
Qed.

Lemma dispatch_lineup (call : delegate) conf podPlugins ifName (p : proc W Result) g :
  steps co call -> getifname ifName = Some g ->
  (dispatch call conf podPlugins ifName p).1 = Nil ->
  exists evs, trace (dispatch call conf podPlugins ifName p).2 = trace p ++ evs
    /\ invocations evs = lineup co (Plugins conf) (plan conf podPlugins) g.
Proof.
  intros Hcall Hg. unfold dispatch. rewrite Hg.
  destruct podPlugins as [|name rest]; cbn [length Nat.ltb Nat.leb plan].
  - rewrite firstNamed_resolve.
    destruct (resolve (Plugins conf) (Default conf)) as [plugin|] eqn:Eres; cbn.
    2:{ intros _. exists []. by rewrite app_nil_r. }
    destruct (call g plugin p) as [[r g'] p'] eqn:Ecall. cbn. intros ->.
    destruct (Hcall _ _ _ _ _ Ecall) as (evs & ty & b & Htr & Hinv & Hty & Hm & _).
    exists evs. split; [done|]. by rewrite Eres, Hty, Hm.
  - destruct (eachPodPlugin call (Plugins conf) (name :: rest) g p)
      as [[r g'] p'] eqn:Erun. cbn. intros ->.
    by apply (eachPodPlugin_lineup _ _ Hcall) in Erun.
Qed.

(** X4: a Del that returns nil invokes the same delegates, with the same
    configuration and under the same interface names, as an Add that
    returned nil for the same configuration, dynamic list and interface
    name. *)
Theorem del_names_line_up conf podPlugins ifName (pa pd : proc W Result) :
  (dispatch (delegateAdd co) conf podPlugins ifName pa).1 = Nil ->
  (dispatch (delegateDel co) conf podPlugins ifName pd).1 = Nil ->
  exists adds dels,
    trace (dispatch (delegateAdd co) conf podPlugins ifName pa).2 = trace pa ++ adds
    /\ trace (dispatch (delegateDel co) conf podPlugins ifName pd).2 = trace pd ++ dels
    /\ invocations adds = invocations dels.
Proof.
  intros Ha Hd.
  destruct (getifname ifName) as [g|] eqn:Hg.
  2:{ unfold dispatch in Ha. by rewrite Hg in Ha. }
  destruct (dispatch_lineup _ conf podPlugins ifName pa g delegateAdd_steps Hg Ha)
    as (adds & Htra & Hia).
  destruct (dispatch_lineup _ conf podPlugins ifName pd g delegateDel_steps Hg Hd)
    as (dels & Htrd & Hid).
  exists adds, dels. by rewrite Hia, Hid.
Qed.
End DispatcherFacts.

(** ** The single-device handler *)

Section HandlerFacts.
Import HostDevice.
Context {K IPAMResult VResult : Type}.
Variable pf : Platform K IPAMResult VResult.

Ltac crunch :=
  repeat (match goal with
          | |- context [match ?x with _ => _ end] =>
            lazymatch x with
            | context [match _ with _ => _ end] => fail
            | _ => destruct x eqn:?
            end
          end; cbn [fst snd kern cur trace is_ok error_of nil_error Fd] in *).

Ltac trace_tail :=
  eexists; split;
  [ rewrite <- ?app_assoc; cbn [app]; reflexivity
  | repeat constructor; intros ? ?; cbn [what]; try discriminate;
    try (intros [= ? ?]; subst; reflexivity) ].

Lemma moveLinkOut_inside_adds defaultNs ifName (s : state K) :
  adds (moves_only_to (Fd defaultNs)) s (moveLinkOut_inside pf defaultNs ifName s).2.
Proof.
  unfold moveLinkOut_inside, query, update, record. crunch; trace_tail.
Qed.

Lemma moveLinkOut_adds containerNs ifName (s : state K) :
  adds (moves_only_to (cur s)) s (moveLinkOut pf containerNs ifName s).2.
Proof.
  unfold moveLinkOut, GetCurrentNS, Do, Close, moveLinkOut_inside, query,
    update, record.
  crunch; trace_tail.
Qed.

(** X5: on the way out of a failed Add no link is moved anywhere but into
    the namespace of the container: the detach runs inside
    [containerNs.Do], and the namespace it reads as the one to return the
    link to is the container's. *)
Theorem rollback_stays_in_container containerNs args (s : state K) :
  adds (moves_only_to (Fd containerNs)) s (rollback pf containerNs args s).
Proof.
  unfold rollback, Do, moveLinkOut, GetCurrentNS, Do, Close, moveLinkOut_inside,
    query, update, record.
  crunch; trace_tail.
Qed.


(** C8: Del releases the address before it touches the link: the call of
    the IPAM delegate is the first the command makes, and when it returns
    an error the command returns that error and makes no other call. *)
Theorem del_releases_first args (s : state K) :
  match loadConf pf (StdinData args) with
  | Error err => cmdDel pf args s = (Some err, s)
  | Ok cfg =>
    let release := CExecDel (IPAM_Type cfg) (StdinData args) in
    let '(k', answer) := ExecDel pf (kern s) (IPAM_Type cfg) (StdinData args) in
    match answer with
    | Some err =>
      cmdDel pf args s
      = (Some err, State k' (cur s) (trace s ++ [Entry (cur s) release false]))
    | None =>
      exists rest,
        trace (cmdDel pf args s).2
        = trace s ++ Entry (cur s) release true :: rest
    end
  end.
Proof.
  unfold cmdDel. destruct (loadConf pf (StdinData args)) as [cfg|err]; [|done].
  unfold effect. cbn zeta.
  destruct (ExecDel pf (kern s) (IPAM_Type cfg) (StdinData args)) as [k' [err|]];
    [done|].
  cbn [nil_error].
  unfold moveLinkOut, GetCurrentNS, Do, Close, moveLinkOut_inside, query,
    update, record.
  crunch; rewrite <- ?app_assoc; cbn [app]; by eexists.
Qed.

Lemma byName_spec devices : forall s : state K,
  kern (byName pf devices s).2 = kern s
  /\ cur (byName pf devices s).2 = cur s
  /\ match (byName pf devices s).1 with
     | Some l => name_hit pf (kern s) (cur s) devices l
     | None => forall l, ~ name_hit pf (kern s) (cur s) devices l
     end.
Proof.
  induction devices as [|device rest IH]; intros s; cbn [byName].
  { repeat split. intros l (d & Hd & _). by apply elem_of_nil in Hd. }
  unfold query. cbn zeta.
  destruct (LinkByName pf (kern s) (cur s) device) as [link|err] eqn:E.
  { repeat split. exists device. split; [left | done]. }
  match goal with |- context [byName pf rest ?s1] =>
    destruct (IH s1) as (Hk & Hc & Hr); destruct (byName pf rest s1) as [found s'] end.
  cbn in *. repeat split; [done..|].
  destruct found as [l|].
  - destruct Hr as (d & Hd & Hl). exists d. split; [by right | done].
  - intros l (d & Hd & Hl). apply elem_of_cons in Hd as [->|Hd]; [congruence|].
    apply (Hr l). by exists d.
Qed.

Lemma firstWithAddr_spec hwAddr links :
  match firstWithAddr hwAddr links with
  | Some l => l ∈ links /\ HardwareAddr l = hwAddr
  | None => forall l, l ∈ links -> HardwareAddr l <> hwAddr
  end.
Proof.
  induction links as [|link rest IH]; cbn [firstWithAddr].
  { intros l Hl. by apply elem_of_nil in Hl. }
  case_bool_decide as Ha; [split; [left | done]|].
  destruct (firstWithAddr hwAddr rest) as [l|].
  - destruct IH. split; [by right | done].
  - intros l [->|Hl]%elem_of_cons; [done | by apply IH].
Qed.

Lemma byHWAddr_spec hwaddrs links :
  match byHWAddr pf hwaddrs links with
  | Some l => addr_hit pf hwaddrs links l
  | None => forall l, ~ addr_hit pf hwaddrs links l
  end.
Proof.
  induction hwaddrs as [|hwaddr rest IH]; cbn [byHWAddr].
  { intros l (h & Hh & _). by apply elem_of_nil in Hh. }
  assert (Hskip : (forall l, ParseMAC pf hwaddr = Ok (HardwareAddr l) -> l ∉ links) ->
    match byHWAddr pf rest links with
    | Some l => addr_hit pf (hwaddr :: rest) links l
    | None => forall l, ~ addr_hit pf (hwaddr :: rest) links l
    end).
  { intros Hno. destruct (byHWAddr pf rest links) as [l|].
    - destruct IH as (h & Hh & Hl). exists h. split; [by right | done].
    - intros l (h & Hh & Hp & Hl). apply elem_of_cons in Hh as [->|Hh].
      + by apply (Hno l).
      + apply (IH l). by exists h. }
  destruct (ParseMAC pf hwaddr) as [hwAddr|err] eqn:EP; [|by apply Hskip].
  pose proof (firstWithAddr_spec hwAddr links) as Hf.
  destruct (firstWithAddr hwAddr links) as [l|].
  - destruct Hf as [Hl <-]. exists hwaddr. split; [left | done].
  - apply Hskip. intros l [= ->] Hl. by apply (Hf l).
Qed.

Lemma firstWithName_spec name links :
  match firstWithName name links with
  | Some l => l ∈ links /\ Name l = name
  | None => forall l, l ∈ links -> Name l <> name
  end.
Proof.
  induction links as [|link rest IH]; cbn [firstWithName].
  { intros l Hl. by apply elem_of_nil in Hl. }
  case_bool_decide as Ha; [split; [left | done]|].
  destruct (firstWithName name rest) as [l|].
  - destruct IH. split; [by right | done].
  - intros l [->|Hl]%elem_of_cons; [done | by apply IH].
Qed.

Lemma firstInterface_spec files links :
  match firstInterface files links with
  | Some l => l ∈ links /\ Name l ∈ files
  | None => forall l, l ∈ links -> Name l ∉ files
  end.
Proof.
  induction files as [|file rest IH]; cbn [firstInterface].
  { intros l _ Hl. by apply elem_of_nil in Hl. }
  pose proof (firstWithName_spec file links) as Hf.
  destruct (firstWithName file links) as [l|].
  { destruct Hf as [Hl <-]. split; [done | left]. }
  destruct (firstInterface rest links) as [l|].
  - destruct IH. split; [done | by right].
  - intros l Hl [Heq|Hin]%elem_of_cons; [by apply (Hf l) | by apply (IH l)].
Qed.

Lemma byKernelPath_spec kernelpaths links : forall s : state K,
  match (byKernelPath pf kernelpaths links s).1 with
  | Some l => path_hit pf (kern s) kernelpaths links l
  | None => forall l, ~ path_hit pf (kern s) kernelpaths links l
  end.
Proof.
  induction kernelpaths as [|kernelpath rest IH]; intros s; cbn [byKernelPath].
  { intros l (kp & files & Hkp & _). by apply elem_of_nil in Hkp. }
  assert (Hskip : forall s1 : state K, kern s1 = kern s ->
    (forall files l, IsAbs kernelpath = true ->
       HasPrefix kernelpath "/sys/devices/" = true ->
       ReadDir pf (kern s) (Join pf kernelpath "net") = Ok files ->
       l ∈ links -> Name l ∉ files) ->
    match (byKernelPath pf rest links s1).1 with
    | Some l => path_hit pf (kern s) (kernelpath :: rest) links l
    | None => forall l, ~ path_hit pf (kern s) (kernelpath :: rest) links l
    end).
  { intros s1 Hk Hno. specialize (IH s1). rewrite Hk in IH.
    destruct (byKernelPath pf rest links s1).1 as [l|].
    - destruct IH as (kp & files & Hkp & H). exists kp, files. split; [by right | done].
    - intros l (kp & files & Hkp & Habs & Hpre & Hdir & Hname & Hl).
      apply elem_of_cons in Hkp as [->|Hkp].
      + by apply (Hno files l).
      + apply (IH l). by exists kp, files. }
  destruct (negb (IsAbs kernelpath) || negb (HasPrefix kernelpath "/sys/devices/"))
    eqn:Eok.
  { apply Hskip; [done|]. intros files l Ha Hp. rewrite Ha, Hp in Eok. done. }
  apply orb_false_iff in Eok as [Ha%negb_false_iff Hp%negb_false_iff].
  unfold query. cbn zeta.
  destruct (ReadDir pf (kern s) (Join pf kernelpath "net")) as [files|err] eqn:Edir.
  2:{ apply Hskip; [done|]. intros files l _ _ [=]. }
  pose proof (firstInterface_spec files links) as Hf.
  destruct (firstInterface files links) as [l|].
  - destruct Hf as [Hl Hname]. exists kernelpath, files. split; [left | done].
  - apply Hskip; [done|]. intros files' l _ _ [= <-]. apply Hf.
Qed.

(** C4: the link [getLink] returns is one a device name selects; or, no
    device name selecting any, one a hardware address selects; or, neither
    selecting any, one found under a kernel path.  It reports that no
    interface was found only when no selector of any kind selects a link. *)
Theorem getLink_priority devices hwaddrs kernelpaths (s : state K) links :
  LinkList pf (kern s) (cur s) = Ok links ->
  match (getLink pf devices hwaddrs kernelpaths s).1 with
  | Ok l =>
    name_hit pf (kern s) (cur s) devices l
    \/ ((forall l', ~ name_hit pf (kern s) (cur s) devices l')
        /\ (addr_hit pf hwaddrs links l
            \/ ((forall l', ~ addr_hit pf hwaddrs links l')
                /\ path_hit pf (kern s) kernelpaths links l)))
  | Error err =>
    err = not_found
    /\ (forall l', ~ name_hit pf (kern s) (cur s) devices l')
    /\ (forall l', ~ addr_hit pf hwaddrs links l')
    /\ (forall l', ~ path_hit pf (kern s) kernelpaths links l')
  end.
Proof.
  intros Hlist. unfold getLink, query. cbn zeta. rewrite Hlist.
  match goal with |- context [byName pf devices ?s1] =>
    destruct (byName_spec devices s1) as (Hk & Hc & Hn);
    destruct (byName pf devices s1) as [found s2] end.
  cbn in Hk, Hc, Hn.
  destruct found as [l|]; [by left|].
  pose proof (byHWAddr_spec hwaddrs links) as Ha.
  destruct (byHWAddr pf hwaddrs links) as [l|]; [right; split; [done | by left]|].
  pose proof (byKernelPath_spec kernelpaths links s2) as Hp. rewrite Hk in Hp.
  destruct (byKernelPath pf kernelpaths links s2) as [[l|] s3]; cbn in *.
  - right. split; [done|]. right. by split.
  - by repeat split.
Qed.
End HandlerFacts.

(** ** Runs on the reference worlds *)

Section DispatcherRuns.
Import Multicni Demo.

(** The dynamic list [C, A]: C is invoked first, under the name of the
    command, and its result is the one printed; A follows as eth1. *)
Example add_C_then_A :
  cmdAdd world args (start (annotated (array ["C"; "A"])))
  = (Nil,
     Proc (annotated (array ["C"; "A"])) (<["CNI_IFNAME" := "eth1"]> ∅)
       [InvokedAdd "ptp" (object_text "C" "ptp") "eth0" (Ok "ptp on eth0");
        Printed "ptp on eth0";
        InvokedAdd "bridge" (object_text "A" "bridge") "eth1"
          (Ok "bridge on eth1")]).
Proof. vm_compute. reflexivity. Qed.



(** C5 as stated fails: a plugin list that does not parse makes Add and Del
    return an error, and the default plugin is not invoked, although it is
    there to fall back to. *)
Lemma unparsable_annotation_is_fatal :
  cmdAdd world args (start (annotated "oops"))
  = (Fail (Errorf "Multicni: Err in pod annotation 'cni-plugins': %v" ["oops"] []),
     start (annotated "oops"))
  /\ cmdDel world args (start (annotated "oops"))
     = (Fail (Errorf "Multicni: Err in pod annotation 'cni-plugins': %v" ["oops"] []),
        start (annotated "oops"))
  /\ (cmdAdd world args (start NoSuchPod)).1 = Nil.
Proof. repeat split; vm_compute; reflexivity. Qed.

Lemma metadata_failures_witness :
  cmd world false args (start Unreachable)
  = dispatch (delegateAdd world) conf [] (IfName args) (start Unreachable)
  /\ cmd world false args (start (annotated "oops"))
     = (Fail (Errorf "Multicni: Err in pod annotation 'cni-plugins': %v"
                ["oops"] []), start (annotated "oops")).
Proof.
  split.
  - apply (metadata_failures world false args (start Unreachable) conf);
      [vm_compute; reflexivity..|].
    intros client Hclient. vm_compute in Hclient. discriminate Hclient.
  - apply (proj2 (metadata_failures world false args (start (annotated "oops"))
                    conf eq_refl eq_refl)
             tt (<["cni-plugins" := "oops"]> ∅) "oops"
             (Errorf "parsePodNetworkObject: failed to load pod plugin err: %v | pod network: %v"
                ["oops"] [External "invalid character"]));
      try (vm_compute; reflexivity).
    discriminate.
Defined.

Lemma del_names_line_up_witness :
  exists adds dels,
    trace (dispatch (delegateAdd world) conf ["C"; "A"] "eth0"
             (start NoSuchPod)).2 = trace (start NoSuchPod) ++ adds
    /\ trace (dispatch (delegateDel world) conf ["C"; "A"] "eth0"
                (start NoSuchPod)).2 = trace (start NoSuchPod) ++ dels
    /\ invocations adds = invocations dels.
Proof.
  apply (del_names_line_up world conf ["C"; "A"] "eth0" (start NoSuchPod)
           (start NoSuchPod)); vm_compute; reflexivity.
Defined.
End DispatcherRuns.

Section HandlerRuns.
Import HostDevice Reference.

(** C1 on the reference platform: an Add whose IPAM call fails, or whose
    address configuration fails, renames the link back but leaves it in the
    namespace of the container; an Add whose IPAM call returns no address
    leaves the link attached as it was, under the name of the command. *)
Theorem failed_add_strands_link :
  (cmdAdd (platform (base (Error (External "failed to connect dhcp servers")) None))
     args_eth0 boot).1 = Some (External "failed to connect dhcp servers")
  /\ kern (cmdAdd (platform (base (Error (External "failed to connect dhcp servers")) None))
             args_eth0 boot).2 = stranded
  /\ (cmdAdd (platform (base (Ok one_address) (Some (External "operation not permitted"))))
        args_eth0 boot).1 = Some (External "operation not permitted")
  /\ kern (cmdAdd (platform (base (Ok one_address) (Some (External "operation not permitted"))))
             args_eth0 boot).2 = stranded
  /\ (cmdAdd (platform (base (Ok no_address) None)) args_eth0 boot).1
     = Some (Errorf "IPAM plugin returned missing IP config" [] [])
  /\ kern (cmdAdd (platform (base (Ok no_address) None)) args_eth0 boot).2
     = attached.
Proof. repeat split; vm_compute; reflexivity. Qed.

(** X6: the other user of [moveLinkOut]: after an Add that succeeded, Del
    puts the link back on the host under its first name. *)
Example del_returns_link :
  (cmdAdd (platform (base (Ok one_address) None)) args_eth0 boot).1 = None
  /\ kern (cmdAdd (platform (base (Ok one_address) None)) args_eth0 boot).2
     = attached
  /\ kern (cmdDel (platform (base (Ok one_address) None)) args_eth0
             (cmdAdd (platform (base (Ok one_address) None)) args_eth0 boot).2).2
     = [Device 0 false {| Index := 2; Name := "enp3s0"; Alias := "enp3s0";
                          HardwareAddr := [2; 0; 0; 0; 0; 1] |}].
Proof. repeat split; vm_compute; reflexivity. Qed.



Lemma getLink_priority_witness :
  (getLink (platform three_ways) ["enp3s0"] ["02:00:00:00:00:02"] [pci_path]
     three_links).1 = Ok enp3s0
  /\ (getLink (platform three_ways) [] ["02:00:00:00:00:02"] [pci_path]
        three_links).1 = Ok enp4s0
  /\ (getLink (platform three_ways) [] [] [pci_path] three_links).1 = Ok enp5s0
  /\ match (getLink (platform three_ways) ["enp3s0"] ["02:00:00:00:00:02"]
              [pci_path] three_links).1 with
     | Ok l =>
       name_hit (platform three_ways) (kern three_links) (cur three_links)
         ["enp3s0"] l
       \/ ((forall l', ~ name_hit (platform three_ways) (kern three_links)
                         (cur three_links) ["enp3s0"] l')
           /\ (addr_hit (platform three_ways) ["02:00:00:00:00:02"]
                 [enp5s0; enp4s0; enp3s0] l
               \/ ((forall l', ~ addr_hit (platform three_ways)
                                 ["02:00:00:00:00:02"] [enp5s0; enp4s0; enp3s0] l')
                   /\ path_hit (platform three_ways) (kern three_links) [pci_path]
                        [enp5s0; enp4s0; enp3s0] l)))
     | Error err =>
       err = not_found
       /\ (forall l', ~ name_hit (platform three_ways) (kern three_links)
                        (cur three_links) ["enp3s0"] l')
       /\ (forall l', ~ addr_hit (platform three_ways) ["02:00:00:00:00:02"]
                        [enp5s0; enp4s0; enp3s0] l')
       /\ (forall l', ~ path_hit (platform three_ways) (kern three_links)
                        [pci_path] [enp5s0; enp4s0; enp3s0] l')
     end.
Proof.
  repeat split; try (vm_compute; reflexivity).
  apply (getLink_priority (platform three_ways) ["enp3s0"] ["02:00:00:00:00:02"]
           [pci_path] three_links [enp5s0; enp4s0; enp3s0]).
  reflexivity.
Defined.
End HandlerRuns.

(** ** More on the allocator *)

Lemma pretty_N_go_nonempty x : forall s, s <> EmptyString -> pretty_N_go x s <> EmptyString.
Proof.
  induction (N.lt_wf_0 x) as [x _ IH]; intros s Hs.
  assert (x = 0 ∨ 0 < x)%N as [->|?] by lia.
  - by rewrite pretty_N_go_0.
  - rewrite pretty_N_go_step by done. apply IH; [by apply N.div_lt|done].
Qed.

Lemma Itoa_nonempty i : 0 < i -> Itoa i <> EmptyString.
Proof.
  destruct i as [|p|p]; [lia| |lia]. intros _.
  unfold Itoa, pretty, pretty_Z, pretty, pretty_positive, pretty, pretty_N.
  destruct (decide _) as [|_]; [done|].
  rewrite pretty_N_go_step by lia. by apply pretty_N_go_nonempty.
Qed.

Lemma append_empty s : s +:+ EmptyString = s.
Proof. induction s as [|a s IH]; [done|]. change (String a (s +:+ EmptyString) = String a s). by rewrite IH. Qed.

(** X8: [n] calls of one closure return [n] names, and two of them are the
    same only when the first of the two is the base name itself, which
    comes back at call [j] exactly when it is the prefix followed by the
    decimal [j]; the names after the first are pairwise distinct. *)
Theorem name_collisions name g n :
  getifname name = Some g -> Z.of_nat n <= MaxInt ->
  exists l,
    calls n name = Some l /\ length l = n
    /\ forall (i j : nat) a b,
         (i < j)%nat -> l !! i = Some a -> l !! j = Some b ->
         a.1 = b.1 <-> i = 0%nat /\ name = prefix g +:+ Itoa (Z.of_nat j).
Proof.
  intros Hg Hn. eexists. split; [by apply calls_closed_form|].
  split; [by rewrite length_fmap, length_seq|].
  intros i j a b Hij Ha Hb.
  apply list_lookup_fmap_Some in Ha as (i' & -> & Hi%lookup_seq).
  apply list_lookup_fmap_Some in Hb as (j' & -> & Hj%lookup_seq).
  destruct Hi as [-> _], Hj as [-> _].
  apply getifname_fresh in Hg as [Hname _].
  destruct j as [|j]; [lia|]. destruct i as [|i]; cbn [nth_call fst Nat.add].
  - rewrite Hname. split; [by intros ?|by intros [_ ?]].
  - split; [|lia]. intros H%(inj (String.app _))%(inj pretty). lia.
Qed.

Lemma name_collisions_witness :
  exists l,
    calls 2 "eth1" = Some l /\ length l = 2%nat
    /\ forall (i j : nat) a b,
         (i < j)%nat -> l !! i = Some a -> l !! j = Some b ->
         a.1 = b.1
         <-> i = 0%nat
             /\ "eth1" = prefix (Podif "eth1" "eth" 0) +:+ Itoa (Z.of_nat j).
Proof.
  apply (name_collisions "eth1" (Podif "eth1" "eth" 0) 2);
    [vm_compute; reflexivity | vm_compute; discriminate].
Defined.

(** X9: from a base name without a decimal digit [n] calls return [n]
    names that are pairwise distinct, the first of them the base name
    itself, marked primary. *)
Theorem digitless_names_distinct name n :
  Forall nodigit (bytes name) -> Z.of_nat n <= MaxInt ->
  exists l,
    calls n name = Some l /\ length l = n /\ NoDup l.*1
    /\ ((0 < n)%nat -> l !! 0%nat = Some (name, true)).
Proof.
  intros Hd Hn.
  assert (Hg : getifname name = Some (Podif name name 0)).
  { unfold getifname.
    assert (Hidx : LastIndexAnyDigit name = -1).
    { unfold LastIndexAnyDigit. generalize 0. induction Hd as [|b bs Hb _ IH]; intros i; [done|].
      cbn [last_digit_from]. rewrite Hb. apply IH. }
    by rewrite Hidx. }
  eexists. split; [by apply calls_closed_form|].
  split; [by rewrite length_fmap, length_seq|].
  split; [|by destruct n; [lia|]].
  rewrite <- list_fmap_compose. apply NoDup_fmap_2_strong; [|apply NoDup_seq].
  intros i j _ _. destruct i as [|i], j as [|j]; cbn [compose nth_call fst prefix ifname]; [done|..].
  - rewrite <- (append_empty name) at 1. intros H%(inj (String.app _)).
    symmetry in H. by apply Itoa_nonempty in H; [|lia].
  - rewrite <- (append_empty name) at 2. intros H%(inj (String.app _)).
    by apply Itoa_nonempty in H; [|lia].
  - intros H%(inj (String.app _))%(inj pretty). lia.
Qed.

Lemma digitless_names_distinct_witness :
  exists l,
    calls 3 "net" = Some l /\ length l = 3%nat /\ NoDup l.*1
    /\ ((0 < 3)%nat -> l !! 0%nat = Some ("net", true)).
Proof.
  apply digitless_names_distinct; [|vm_compute; discriminate].
  repeat constructor.
Defined.

Lemma bytes_app s t : bytes (s +:+ t) = bytes s ++ bytes t.
Proof.
  unfold bytes. induction s as [|a s IH]; [done|].
  change (byte_of a :: (byte_of <$> list_ascii_of_string (s +:+ t))
          = byte_of a :: ((byte_of <$> list_ascii_of_string s) ++ (byte_of <$> list_ascii_of_string t))).
  by rewrite IH.
Qed.

Lemma of_bytes_bytes s : of_bytes (bytes s) = s.
Proof.
  unfold of_bytes, bytes. induction s as [|a s IH]; [done|].
  change (String (ascii_of (byte_of a))
            (string_of_list_ascii (ascii_of <$> (byte_of <$> list_ascii_of_string s)))
          = String a s).
  rewrite IH. f_equal.
  unfold ascii_of, byte_of. by rewrite N2Z.id, ascii_N_embedding.
Qed.

Lemma byte_of_nonneg a : 0 <= byte_of a.
Proof. unfold byte_of. lia. Qed.

Lemma encode_ascii s : is_ascii s = true -> concat (encode <$> bytes s) = bytes s.
Proof.
  unfold is_ascii, bytes. induction (list_ascii_of_string s) as [|a l IH]; [done|].
  rewrite !fmap_cons, concat_cons. cbn [forallb].
  intros [Ha Hl]%andb_true_iff. rewrite IH by done.
  unfold encode. pose proof (byte_of_nonneg a). apply Z.ltb_lt in Ha.
  destruct (0 <=? byte_of a) eqn:E1; [|apply Z.leb_gt in E1; lia].
  destruct (byte_of a <=? 127) eqn:E2; [done|apply Z.leb_gt in E2; lia].
Qed.

Lemma last_digit_from_snoc bs c : forall i found,
  is_digit c = true ->
  last_digit_from i (bs ++ [c]) found = i + Z.of_nat (length bs).
Proof.
  induction bs as [|b bs IH]; intros i found Hc; cbn [app last_digit_from length].
  - rewrite Hc. lia.
  - rewrite IH by done. lia.
Qed.

Lemma Itoa_digit d : 1 <= d <= 9 ->
  Itoa d = String (ascii_of (48 + d)) EmptyString /\ is_digit (48 + d) = true.
Proof.
  intros Hd.
  assert (d = 1 \/ d = 2 \/ d = 3 \/ d = 4 \/ d = 5 \/ d = 6 \/ d = 7 \/ d = 8 \/ d = 9)
    as Hcases by lia.
  repeat (destruct Hcases as [->|Hcases]; [by vm_compute|]). subst. by vm_compute.
Qed.

(** X7: a base name of ASCII bytes that ends in a digit [d] from 1 to 9 is
    handed out twice: by the first call, marked primary, and again by call
    number [d], not marked. *)
Theorem name_ending_in_digit_repeats pre d :
  is_ascii pre = true -> 1 <= d <= 9 ->
  exists l, calls (S (Z.to_nat d)) (pre +:+ Itoa d) = Some l
    /\ l !! 0%nat = Some (pre +:+ Itoa d, true)
    /\ l !! Z.to_nat d = Some (pre +:+ Itoa d, false).
Proof.
  intros Hpre Hd. destruct (Itoa_digit d Hd) as [Hs Hdig]. rewrite Hs.
  set (name := pre +:+ String (ascii_of (48 + d)) EmptyString).
  assert (Hbytes : bytes name = bytes pre ++ [48 + d]).
  { unfold name. rewrite bytes_app. f_equal. unfold bytes. cbn.
    by rewrite byte_of_ascii_of by lia. }
  assert (Hascii : is_ascii name = true).
  { unfold is_ascii in *. rewrite Hbytes, forallb_app, Hpre. cbn.
    rewrite andb_true_r. apply Z.ltb_lt. lia. }
  assert (Hidx : LastIndexAnyDigit name = Z.of_nat (length (bytes pre))).
  { unfold LastIndexAnyDigit. rewrite Hbytes, last_digit_from_snoc by done. lia. }
  assert (Hg : exists g, getifname name = Some g /\ prefix g = pre).
  { unfold getifname. rewrite Hidx.
    destruct (Z.ltb_spec (Z.of_nat (length (bytes pre))) 0) as [|_]; [lia|].
    unfold runes. rewrite (decode_ascii _ Hascii), Hbytes, length_app.
    destruct (Z.ltb_spec (Z.of_nat (length (bytes pre) + length [48 + d]))
                (Z.of_nat (length (bytes pre)))) as [|_]; [lia|].
    destruct (Atoi _) as [i err]. eexists. split; [reflexivity|]. cbn [prefix].
    rewrite Nat2Z.id, take_app_length. unfold of_runes.
    by rewrite encode_ascii, of_bytes_bytes. }
  destruct Hg as (g & Hg & Hp).
  eexists. split; [apply (calls_closed_form _ _ _ Hg); unfold MaxInt; lia|].
  pose proof (getifname_fresh _ _ Hg) as [Hn _].
  split.
  - cbn. by rewrite Hn.
  - rewrite list_lookup_fmap, lookup_seq_lt by lia. cbn [fmap option_fmap option_map Nat.add].
    destruct (Z.to_nat d) as [|k] eqn:Ek; [lia|]. cbn [nth_call].
    rewrite Hp, <- Ek, Z2Nat.id, Hs by lia. done.
Qed.

Lemma name_ending_in_digit_repeats_witness :
  exists l, calls (S (Z.to_nat 1)) ("eth" +:+ Itoa 1) = Some l
    /\ l !! 0%nat = Some ("eth" +:+ Itoa 1, true)
    /\ l !! Z.to_nat 1 = Some ("eth" +:+ Itoa 1, false).
Proof. apply (name_ending_in_digit_repeats "eth" 1); [reflexivity|lia]. Defined.

(** *** Names without a NUL byte *)

(** A rune decoded from bytes is its first byte, an ASCII byte, or at least
    128. *)
Lemma decode_step_high b0 t0 :
  exists r k, decode (b0 :: t0) = r :: decode (drop k t0)
    /\ ((r = b0 /\ k = 0%nat) \/ 128 <= r).
Proof.
  cbn [decode].
  destruct (b0 <? 128) eqn:E0.
  { exists b0, 0%nat. rewrite drop_0. auto. }
  assert (Herr : exists r k, RuneError :: decode t0 = r :: decode (drop k t0)
    /\ ((r = b0 /\ k = 0%nat) \/ 128 <= r)).
  { exists RuneError, 0%nat. rewrite drop_0. split; [done | right; done]. }
  destruct (first b0) as [[[sz lo] hi]|] eqn:Ef; [|exact Herr].
  apply first_spec in Ef as [Hhi Hf].
  destruct t0 as [|b1 t1]; [exact Herr|].
  destruct (within lo hi b1) eqn:E1; cbn [negb]; [|exact Herr].
  apply within_spec in E1.
  pose proof (low6_bounds b1) as Hb1. pose proof (low6_mod b1) as Hm1.
  destruct (sz <=? 2) eqn:E2.
  { apply Z.leb_le in E2. destruct Hf as [(-> & Hb0 & ->)|[[? _]|[? _]]]; try lia.
    eexists _, 1%nat. split; [reflexivity | right].
    assert (128 <= Z.shiftl (Z.land b0 31) 6).
    { change 31 with (Z.ones 5). rewrite land_low, shiftl_mul by lia.
      change (2 ^ 5) with 32. change (2 ^ 6) with 64. Z.div_mod_to_equations; lia. }
    pose proof (lor_bounds (Z.shiftl (Z.land b0 31) 6) (low6 b1)). lia. }
  apply Z.leb_gt in E2.
  destruct t1 as [|b2 t2]; [exact Herr|].
  destruct (cont b2) eqn:Ec2; cbn [negb]; [|exact Herr].
  pose proof (low6_bounds b2) as Hb2.
  destruct (sz <=? 3) eqn:E3.
  { apply Z.leb_le in E3. destruct Hf as [(? & _)|[[-> Hc]|[? _]]]; try lia.
    eexists _, 2%nat. split; [reflexivity | right].
    assert (0 <= Z.shiftl (low6 b1) 6).
    { rewrite shiftl_mul by lia. lia. }
    assert (0 <= Z.shiftl (Z.land b0 15) 12).
    { change 15 with (Z.ones 4). rewrite land_low, shiftl_mul by lia.
      change (2 ^ 4) with 16. change (2 ^ 12) with 4096. Z.div_mod_to_equations; lia. }
    pose proof (lor_bounds (Z.shiftl (low6 b1) 6) (low6 b2)) as L1.
    pose proof (lor_bounds (Z.shiftl (Z.land b0 15) 12)
                  (Z.lor (Z.shiftl (low6 b1) 6) (low6 b2))) as L2.
    destruct Hc as [[-> ->]|[Hb0 Hlo]].
    - assert (2048 <= Z.shiftl (low6 b1) 6).
      { rewrite shiftl_mul, Hm1 by lia. change (2 ^ 6) with 64.
        Z.div_mod_to_equations; lia. }
      lia.
    - assert (4096 <= Z.shiftl (Z.land b0 15) 12).
      { change 15 with (Z.ones 4). rewrite land_low, shiftl_mul by lia.
        change (2 ^ 4) with 16. change (2 ^ 12) with 4096.
        Z.div_mod_to_equations; lia. }
      lia. }
  apply Z.leb_gt in E3.
  destruct t2 as [|b3 t3]; [exact Herr|].
  destruct (cont b3) eqn:Ec3; cbn [negb]; [|exact Herr].
  pose proof (low6_bounds b3) as Hb3.
  destruct Hf as [(? & _)|[[? _]|[-> Hc]]]; try lia.
  eexists _, 3%nat. split; [reflexivity | right].
  assert (0 <= Z.shiftl (low6 b2) 6) by (rewrite shiftl_mul by lia; lia).
  assert (0 <= Z.shiftl (low6 b1) 12) by (rewrite shiftl_mul by lia; lia).
  assert (0 <= Z.shiftl (Z.land b0 7) 18).
  { change 7 with (Z.ones 3). rewrite land_low, shiftl_mul by lia.
    change (2 ^ 3) with 8. change (2 ^ 18) with 262144. Z.div_mod_to_equations; lia. }
  pose proof (lor_bounds (Z.shiftl (low6 b2) 6) (low6 b3)) as L1.
  pose proof (lor_bounds (Z.shiftl (low6 b1) 12)
                (Z.lor (Z.shiftl (low6 b2) 6) (low6 b3))) as L2.
  pose proof (lor_bounds (Z.shiftl (Z.land b0 7) 18)
                (Z.lor (Z.shiftl (low6 b1) 12)
                   (Z.lor (Z.shiftl (low6 b2) 6) (low6 b3)))) as L3.
  destruct Hc as [[-> ->]|[Hb0 Hlo]].
  - assert (65536 <= Z.shiftl (low6 b1) 12).
    { rewrite shiftl_mul, Hm1 by lia. change (2 ^ 12) with 4096.
      Z.div_mod_to_equations; lia. }
    lia.
  - assert (262144 <= Z.shiftl (Z.land b0 7) 18).
    { change 7 with (Z.ones 3). rewrite land_low, shiftl_mul by lia.
      change (2 ^ 3) with 8. change (2 ^ 18) with 262144.
      Z.div_mod_to_equations; lia. }
    lia.
Qed.

Lemma decode_nonzero_aux n : forall bs, (length bs <= n)%nat ->
  Forall nonzero bs -> Forall nonzero (decode bs).
Proof.
  induction n as [|n IH]; intros [|b0 t0] Hlen Hbs; cbn [length] in Hlen;
    try (constructor; fail); try lia.
  destruct (decode_step_high b0 t0) as (r & k & Hd & Hr). rewrite Hd.
  apply Forall_cons in Hbs as [Hb0 Ht0].
  constructor.
  - destruct Hr as [[-> _]|Hr]; [assumption|unfold nonzero; lia].
  - apply IH; [rewrite length_drop; lia | by apply Forall_drop].
Qed.

Lemma decode_nonzero bs : Forall nonzero bs -> Forall nonzero (decode bs).
Proof. by apply (decode_nonzero_aux (length bs)). Qed.

Lemma encode_high r :
  (0 <= r <= 127 /\ encode r = [r]) \/ Forall (fun b => 128 <= b < 256) (encode r).
Proof.
  unfold encode, within, MaxRune.
  destruct ((0 <=? r) && (r <=? 127)) eqn:E1.
  { apply andb_true_iff in E1 as [?%Z.leb_le ?%Z.leb_le]. by left. }
  right.
  destruct ((0 <=? r) && (r <=? 2047)) eqn:E2.
  { apply andb_true_iff in E2 as [?%Z.leb_le ?%Z.leb_le].
    apply andb_false_iff in E1 as [?%Z.leb_gt | ?%Z.leb_gt]; [lia|].
    pose proof (low6_bounds r).
    assert (0 <= Z.shiftr r 6 <= 31).
    { rewrite shiftr_div by lia. change (2 ^ 6) with 64. Z.div_mod_to_equations; lia. }
    pose proof (lor_bounds 192 (Z.shiftr r 6)).
    pose proof (lor_bounds 128 (low6 r)).
    repeat constructor; lia. }
  destruct ((r <? 0) || (1114111 <? r) || ((55296 <=? r) && (r <=? 57343))) eqn:E3.
  { repeat constructor; lia. }
  apply orb_false_iff in E3 as [E3 _].
  apply orb_false_iff in E3 as [?%Z.ltb_ge ?%Z.ltb_ge].
  destruct (r <=? 65535) eqn:E4.
  { apply Z.leb_le in E4.
    pose proof (low6_bounds r). pose proof (low6_bounds (Z.shiftr r 6)).
    assert (0 <= Z.shiftr r 12 <= 15).
    { rewrite shiftr_div by lia. change (2 ^ 12) with 4096. Z.div_mod_to_equations; lia. }
    pose proof (lor_bounds 224 (Z.shiftr r 12)).
    pose proof (lor_bounds 128 (low6 r)).
    pose proof (lor_bounds 128 (low6 (Z.shiftr r 6))).
    repeat constructor; lia. }
  apply Z.leb_gt in E4.
  pose proof (low6_bounds r). pose proof (low6_bounds (Z.shiftr r 6)).
  pose proof (low6_bounds (Z.shiftr r 12)).
  assert (0 <= Z.shiftr r 18 <= 4).
  { rewrite shiftr_div by lia. change (2 ^ 18) with 262144. Z.div_mod_to_equations; lia. }
  pose proof (lor_bounds 240 (Z.shiftr r 18)).
  pose proof (lor_bounds 128 (low6 r)).
  pose proof (lor_bounds 128 (low6 (Z.shiftr r 6))).
  pose proof (lor_bounds 128 (low6 (Z.shiftr r 12))).
  repeat constructor; lia.
Qed.

Lemma encode_range rs :
  Forall nonzero rs -> Forall (fun b => 0 < b < 256) (concat (encode <$> rs)).
Proof.
  induction 1 as [|r rs Hr _ IH]; [constructor|].
  rewrite fmap_cons, concat_cons. apply Forall_app. split; [|exact IH].
  destruct (encode_high r) as [[Hlow ->]|Hhigh].
  - repeat constructor; unfold nonzero in Hr; lia.
  - eapply Forall_impl; [exact Hhigh|]. intros b Hb. cbn beta in *. lia.
Qed.

Lemma bytes_nonzero s : Multicni.has_byte 0 s = false <-> Forall nonzero (bytes s).
Proof.
  unfold Multicni.has_byte. induction (bytes s) as [|b bs IH]; cbn [existsb].
  - split; [constructor|done].
  - rewrite orb_false_iff, IH, Forall_cons. unfold nonzero.
    destruct (Z.eqb_spec 0 b); split; intros []; split; done.
Qed.

Lemma of_bytes_in_range l :
  Forall (fun b => 0 < b < 256) l -> bytes (of_bytes l) = l.
Proof.
  intros Hl. rewrite bytes_of_bytes.
  induction Hl as [|b l Hb _ IH]; [done|].
  rewrite fmap_cons, IH, byte_of_ascii_of by lia. done.
Qed.

Lemma of_runes_nonzero rs :
  Forall nonzero rs -> Multicni.has_byte 0 (of_runes rs) = false.
Proof.
  intros Hrs. apply bytes_nonzero. unfold of_runes.
  pose proof (encode_range rs Hrs) as Hr.
  rewrite of_bytes_in_range by done.
  eapply Forall_impl; [exact Hr|]. intros b Hb. unfold nonzero. cbn beta in *. lia.
Qed.

Lemma getifname_nonzero name g :
  getifname name = Some g -> Multicni.has_byte 0 name = false ->
  Multicni.has_byte 0 (ifname g) = false /\ Multicni.has_byte 0 (prefix g) = false.
Proof.
  unfold getifname. intros Hg Hname.
  destruct (LastIndexAnyDigit name <? 0); [by injection Hg as <-|].
  destruct (_ <? _); [done|].
  destruct (Atoi _) as [i err]. injection Hg as <-. cbn [ifname prefix].
  split; [done|]. apply of_runes_nonzero, Forall_take.
  apply decode_nonzero. by apply bytes_nonzero.
Qed.

Lemma pretty_N_go_nonzero x : forall s,
  Multicni.has_byte 0 s = false -> Multicni.has_byte 0 (pretty_N_go x s) = false.
Proof.
  induction (N.lt_wf_0 x) as [x _ IH]; intros s Hs.
  assert (x = 0 ∨ 0 < x)%N as [->|?] by lia.
  - by rewrite pretty_N_go_0.
  - rewrite pretty_N_go_step by done. apply IH; [by apply N.div_lt|].
    unfold Multicni.has_byte in *. change (bytes (String ?a ?s)) with (byte_of a :: bytes s).
    cbn [existsb]. rewrite Hs, orb_false_r.
    unfold pretty_N_char. by repeat case_match.
Qed.

Lemma Itoa_nonzero i : Multicni.has_byte 0 (Itoa i) = false.
Proof.
  unfold Itoa, pretty, pretty_Z, pretty, pretty_positive, pretty, pretty_N.
  destruct i as [|x|x]; [done| |].
  - destruct (decide _); [done|]. by apply pretty_N_go_nonzero.
  - destruct (decide _); [done|].
    change ("-" +:+ ?s) with (String "-" s).
    unfold Multicni.has_byte. change (bytes (String ?a ?s)) with (byte_of a :: bytes s).
    cbn [existsb]. change (0 =? byte_of "-") with false. cbn [orb].
    by apply pretty_N_go_nonzero.
Qed.

Lemma has_byte_app b s t :
  Multicni.has_byte b (s +:+ t) = Multicni.has_byte b s || Multicni.has_byte b t.
Proof.
  unfold Multicni.has_byte.
  assert (Happ : bytes (s +:+ t) = bytes s ++ bytes t).
  { unfold bytes. induction s as [|a s IH]; [done|].
    change (byte_of a :: (byte_of <$> list_ascii_of_string (s +:+ t))
            = byte_of a :: ((byte_of <$> list_ascii_of_string s)
                            ++ (byte_of <$> list_ascii_of_string t))).
    by rewrite IH. }
  by rewrite Happ, existsb_app.
Qed.

(** The names of a closure whose base name and prefix hold no NUL byte hold
    none. *)
Lemma produce_nonzero g :
  Multicni.has_byte 0 (ifname g) = false -> Multicni.has_byte 0 (prefix g) = false ->
  Multicni.has_byte 0 (produce g).1.1 = false
  /\ ifname (produce g).2 = ifname g /\ prefix (produce g).2 = prefix g.
Proof.
  intros Hn Hp. unfold produce. destruct (ifIdx g =? 0); cbn [fst snd ifname prefix]; [done|].
  by rewrite has_byte_app, Hp, Itoa_nonzero.
Qed.

(** ** More on the dispatcher *)

Section DispatcherMore.
Import Multicni.
Context {W Config Clientset Result : Type}.
Variable co : Collaborators W Config Clientset Result.

Lemma checkPlugins_Nil plugins :
  checkPlugins plugins = Nil <->
  Forall (fun plugin : plugin => isString (plugin !! "type") = true
                        /\ isString (plugin !! "name") = true) plugins.
Proof.
  induction plugins as [|plugin rest IH]; cbn [checkPlugins].
  - split; [constructor|done].
  - rewrite Forall_cons, <- IH. unfold checkPlugin.
    destruct (plugin !! "type") as [[]|], (plugin !! "name") as [[]|]; cbn;
      destruct (checkPlugins rest); split; try done; intros [[? ?] ?]; done.
Qed.

Lemma checkPlugins_never_panics plugins : checkPlugins plugins <> Panicked.
Proof.
  induction plugins as [|plugin rest IH]; cbn [checkPlugins]; [done|].
  unfold checkPlugin.
  destruct (_ || _); [done|]. destruct (_ || _); done.
Qed.

(** X10: a configuration without a default or without plugins, or with an
    entry whose type or name is not a string, makes Add and Del fail before
    anything is looked up or invoked, whether or not the entry would have
    been selected. *)
Theorem malformed_configuration_is_refused (del : bool) args (p : proc W Result)
  netconf :
  Unmarshal_NetConf co (StdinData args) = Ok netconf ->
  Default netconf = EmptyString \/ Plugins netconf = []
  \/ (exists plugin : plugin, plugin ∈ Plugins netconf
        /\ (isString (plugin !! "type") = false
            \/ isString (plugin !! "name") = false)) ->
  exists err, cmd co del args p = (Fail err, p).
Proof.
  intros Hu Hbad.
  assert (Hc : cmd co del args p
               = command co (if del then delegateDel co else delegateAdd co) args p)
    by by destruct del.
  rewrite Hc. unfold command, loadNetConf. rewrite Hu.
  case_bool_decide as Hd; [by eexists|].
  destruct (Plugins netconf) as [|plugin rest] eqn:Hp; [by eexists|].
  cbn [length Nat.eqb]. rewrite <- Hp in *.
  destruct Hbad as [?|[Hnil|(bad & Hin & Hbad)]]; [done|by rewrite Hnil in Hp|].
  destruct (checkPlugins (Plugins netconf)) eqn:Hcheck.
  - apply checkPlugins_Nil in Hcheck.
    rewrite Forall_forall in Hcheck. destruct (Hcheck _ Hin) as [Ht Hn].
    destruct Hbad; congruence.
  - by eexists.
  - by apply checkPlugins_never_panics in Hcheck.
Qed.

Lemma delegateAdd_typed g plugin (p : proc W Result) :
  isString (plugin !! "type") = true ->
  (delegateAdd co g plugin p).1.1 <> Panicked.
Proof.
  intros Ht. unfold delegateAdd.
  destruct (Marshal co plugin); [|done].
  destruct (produce g) as [[iface isDefault] g'].
  destruct (Setenv _ _ _); [|done].
  destruct (plugin !! "type") as [[]|]; try done.
  destruct (DelegateAdd _ _ _ _ _) as [w' [result|err]]; [|done].
  destruct isDefault; [|done]. cbn. by destruct (Print co result).
Qed.

Lemma delegateDel_typed g plugin (p : proc W Result) :
  isString (plugin !! "type") = true ->
  (delegateDel co g plugin p).1.1 <> Panicked.
Proof.
  intros Ht. unfold delegateDel.
  destruct (Marshal co plugin); [|done].
  destruct (produce g) as [[iface isDefault] g'].
  destruct (Setenv _ _ _); [|done].
  destruct (plugin !! "type") as [[]|]; try done.
  by destruct (DelegateDel _ _ _ _ _) as [w' [err|]].
Qed.

Lemma firstNamed_typed (call : delegate) plugins name g (p : proc W Result) out :
  (forall g plugin p, plugin ∈ plugins -> (call g plugin p).1.1 <> Panicked) ->
  firstNamed call name plugins g p = Some out -> out.1.1 <> Panicked.
Proof.
  intros Hcall. rewrite firstNamed_resolve.
  destruct (resolve plugins name) as [plugin|] eqn:Hr; [|done].
  intros [= <-]. apply Hcall. unfold resolve in Hr.
  apply find_some in Hr as [Hin _]. by apply list_elem_of_In.
Qed.

Lemma eachPodPlugin_typed (call : delegate) plugins :
  (forall g plugin p, plugin ∈ plugins -> (call g plugin p).1.1 <> Panicked) ->
  forall podPlugins g (p : proc W Result),
    (eachPodPlugin call plugins podPlugins g p).1.1 <> Panicked.
Proof.
  intros Hcall. induction podPlugins as [|name rest IH]; intros g p; [done|].
  cbn [eachPodPlugin].
  destruct (firstNamed call name plugins g p) as [[[r g'] p']|] eqn:Hf; [|done].
  apply firstNamed_typed in Hf; [|done].
  destruct r; [apply IH|done|done].
Qed.

(** X11: when [getifname] returns, neither command panics: the type
    assertions on the type of an entry are made only on entries that
    [checkPlugin] has passed. *)
Theorem type_assertion_never_panics (del : bool) args (p : proc W Result) :
  is_Some (getifname (IfName args)) -> (cmd co del args p).1 <> Panicked.
Proof.
  intros [g Hg].
  assert (Hc : cmd co del args p
               = command co (if del then delegateDel co else delegateAdd co) args p)
    by by destruct del.
  rewrite Hc. set (call := if del then _ else _). unfold command.
  destruct (loadNetConf co (StdinData args)) as [conf|]; [|done].
  destruct (checkPlugins (Plugins conf)) eqn:Hcheck; [|done|].
  2: by apply checkPlugins_never_panics in Hcheck.
  destruct (podPluginsOf co (world p) conf args) as [podPlugins|]; [|done].
  assert (Hcall : forall g plugin (p : proc W Result),
             plugin ∈ Plugins conf -> (call g plugin p).1.1 <> Panicked).
  { intros g0 plugin p0 Hin. apply checkPlugins_Nil in Hcheck.
    rewrite Forall_forall in Hcheck. destruct (Hcheck _ Hin) as [Ht _].
    unfold call. destruct del; [by apply delegateDel_typed|by apply delegateAdd_typed]. }
  unfold dispatch. rewrite Hg.
  destruct (0 <? length podPlugins)%nat.
  - pose proof (eachPodPlugin_typed call _ Hcall podPlugins g p) as He.
    by destruct (eachPodPlugin _ _ _ _ _) as [[r g'] p'].
  - destruct (firstNamed call (Default conf) (Plugins conf) g p) as [[[r g'] p']|] eqn:Hf;
      [|done].
    by apply firstNamed_typed in Hf.
Qed.

Lemma halts_nil del r : halts (Result := Result) del r [].
Proof. split; [constructor|]. intros i e. by rewrite lookup_nil. Qed.

Lemma halts_app del r (evs1 evs2 : list (event Result)) :
  halts del Nil evs1 -> halts del r evs2 -> halts del r (evs1 ++ evs2).
Proof.
  intros [Hk1 H1] [Hk2 H2]. split; [by apply Forall_app|].
  intros i e Hi He. apply lookup_app_Some in Hi as [Hi|[Hlen Hi]].
  - by destruct (H1 _ _ Hi He).
  - destruct (H2 _ _ Hi He) as [Hlast Hr]. rewrite length_app. split; [lia|done].
Qed.

Lemma delegateAdd_halts g plugin (p : proc W Result) :
  exists evs, trace (delegateAdd co g plugin p).2 = trace p ++ evs
    /\ halts false (delegateAdd co g plugin p).1.1 evs.
Proof.
  unfold delegateAdd.
  destruct (Marshal co plugin);
    [|exists []; split; [by rewrite app_nil_r|apply halts_nil]].
  destruct (produce g) as [[iface isDefault] g'].
  destruct (Setenv _ _ _);
    [|exists []; split; [by rewrite app_nil_r|apply halts_nil]].
  destruct (plugin !! "type") as [[]|];
    try (exists []; split; [by rewrite app_nil_r|apply halts_nil]).
  destruct (DelegateAdd _ _ _ _ _) as [w' [result|err]].
  - destruct isDefault; cbn.
    + eexists [_; _]. split; [by rewrite <- app_assoc|].
      split; [by repeat constructor|].
      intros [|[|i]] e; cbn; intros [= <-]; done.
    + eexists [_]. split; [done|]. split; [by repeat constructor|].
      intros [|i] e; cbn; intros [= <-]; done.
  - eexists [_]. cbn. split; [done|]. split; [by repeat constructor|].
    intros [|i] e; cbn; intros [= <-]; done.
Qed.

Lemma delegateDel_halts g plugin (p : proc W Result) :
  exists evs, trace (delegateDel co g plugin p).2 = trace p ++ evs
    /\ halts true (delegateDel co g plugin p).1.1 evs.
Proof.
  unfold delegateDel.
  destruct (Marshal co plugin);
    [|exists []; split; [by rewrite app_nil_r|apply halts_nil]].
  destruct (produce g) as [[iface isDefault] g'].
  destruct (Setenv _ _ _);
    [|exists []; split; [by rewrite app_nil_r|apply halts_nil]].
  destruct (plugin !! "type") as [[]|];
    try (exists []; split; [by rewrite app_nil_r|apply halts_nil]).
  destruct (DelegateDel _ _ _ _ _) as [w' [err|]];
    (eexists [_]; cbn; split; [done|]; split; [by repeat constructor|];
     intros [|i] e; cbn; intros [= <-]; done).
Qed.

Lemma eachPodPlugin_halts (call : delegate) del plugins :
  (forall g plugin (p : proc W Result),
     exists evs, trace (call g plugin p).2 = trace p ++ evs
       /\ halts del (call g plugin p).1.1 evs) ->
  forall podPlugins g (p : proc W Result),
    exists evs, trace (eachPodPlugin call plugins podPlugins g p).2 = trace p ++ evs
      /\ halts del (eachPodPlugin call plugins podPlugins g p).1.1 evs.
Proof.
  intros Hcall. induction podPlugins as [|name rest IH]; intros g p.
  - exists []. split; [by rewrite app_nil_r|apply halts_nil].
  - cbn [eachPodPlugin]. rewrite firstNamed_resolve.
    destruct (resolve plugins name) as [plugin|]; cbn [fmap option_fmap option_map];
      [|exists []; split; [by rewrite app_nil_r|apply halts_nil]].
    destruct (Hcall g plugin p) as (evs1 & Ht1 & Hh1).
    destruct (call g plugin p) as [[r g'] p']; cbn [fst snd] in *.
    destruct r; [|by exists evs1..].
    destruct (IH g' p') as (evs2 & Ht2 & Hh2).
    exists (evs1 ++ evs2). split; [by rewrite Ht2, Ht1, app_assoc|].
    by apply halts_app.
Qed.

Lemma command_halts (call : delegate) del args (p : proc W Result) :
  (forall g plugin (p : proc W Result),
     exists evs, trace (call g plugin p).2 = trace p ++ evs
       /\ halts del (call g plugin p).1.1 evs) ->
  exists evs, trace (command co call args p).2 = trace p ++ evs
    /\ halts del (command co call args p).1 evs.
Proof.
  intros Hcall. unfold command.
  destruct (loadNetConf co (StdinData args)) as [conf|];
    [|exists []; split; [by rewrite app_nil_r|apply halts_nil]].
  destruct (checkPlugins (Plugins conf));
    try (exists []; split; [by rewrite app_nil_r|apply halts_nil]).
  destruct (podPluginsOf co (world p) conf args) as [podPlugins|];
    [|exists []; split; [by rewrite app_nil_r|apply halts_nil]].
  unfold dispatch.
  destruct (getifname (IfName args)) as [g|];
    [|exists []; split; [by rewrite app_nil_r|apply halts_nil]].
  destruct (0 <? length podPlugins)%nat.
  - destruct (eachPodPlugin_halts call del (Plugins conf) Hcall podPlugins g p)
      as (evs & Ht & Hh).
    destruct (eachPodPlugin _ _ _ _ _) as [[r g'] p']. by exists evs.
  - rewrite firstNamed_resolve.
    destruct (resolve (Plugins conf) (Default conf)) as [plugin|];
      cbn [fmap option_fmap option_map];
      [|exists []; split; [by rewrite app_nil_r|apply halts_nil]].
    destruct (Hcall g plugin p) as (evs & Ht & Hh).
    destruct (call g plugin p) as [[r g'] p']. by exists evs.
Qed.

(** X12: the events of a run are those of its own command only, and a
    delegate that answers with an error is the last event and makes the
    command fail: nothing is invoked after it, and an Add that fails
    half-way invokes no Del for the delegates it has added. *)
Theorem failed_delegate_ends_the_run (del : bool) args (p : proc W Result) :
  exists evs, trace (cmd co del args p).2 = trace p ++ evs
    /\ Forall (fun e => is_del e = del) evs
    /\ forall i e, evs !! i = Some e -> answered e = false ->
         S i = length evs /\ (cmd co del args p).1 <> Nil.
Proof.
  destruct del; cbn [cmd]; unfold cmdDel, cmdAdd.
  - apply command_halts, delegateDel_halts.
  - apply command_halts, delegateAdd_halts.
Qed.

Lemma Setenv_frame key value env env' other :
  Setenv key value env = Some env' -> other <> key -> env' !! other = env !! other.
Proof.
  unfold Setenv. destruct (_ || _); [done|]. intros [= <-] Hne.
  by rewrite lookup_insert_ne.
Qed.

Lemma delegateAdd_environ g plugin (p : proc W Result) key :
  key <> "CNI_IFNAME" ->
  environ (delegateAdd co g plugin p).2 !! key = environ p !! key.
Proof.
  intros Hkey. unfold delegateAdd.
  destruct (Marshal co plugin); [|done].
  destruct (produce g) as [[iface isDefault] g'].
  destruct (Setenv _ _ _) as [env'|] eqn:Hs; [|done].
  pose proof (Setenv_frame _ _ _ _ _ Hs Hkey).
  destruct (plugin !! "type") as [[]|]; try done.
  destruct (DelegateAdd _ _ _ _ _) as [w' [result|err]]; [|done].
  by destruct isDefault.
Qed.

Lemma delegateDel_environ g plugin (p : proc W Result) key :
  key <> "CNI_IFNAME" ->
  environ (delegateDel co g plugin p).2 !! key = environ p !! key.
Proof.
  intros Hkey. unfold delegateDel.
  destruct (Marshal co plugin); [|done].
  destruct (produce g) as [[iface isDefault] g'].
  destruct (Setenv _ _ _) as [env'|] eqn:Hs; [|done].
  pose proof (Setenv_frame _ _ _ _ _ Hs Hkey).
  destruct (plugin !! "type") as [[]|]; try done.
  by destruct (DelegateDel _ _ _ _ _) as [w' [err|]].
Qed.

Lemma eachPodPlugin_environ (call : delegate) plugins key :
  (forall g plugin (p : proc W Result),
     environ (call g plugin p).2 !! key = environ p !! key) ->
  forall podPlugins g (p : proc W Result),
    environ (eachPodPlugin call plugins podPlugins g p).2 !! key = environ p !! key.
Proof.
  intros Hcall. induction podPlugins as [|name rest IH]; intros g p; [done|].
  cbn [eachPodPlugin]. rewrite firstNamed_resolve.
  destruct (resolve plugins name) as [plugin|]; cbn [fmap option_fmap option_map];
    [|done].
  specialize (Hcall g plugin p).
  destruct (call g plugin p) as [[r g'] p']; cbn [fst snd] in *.
  destruct r; [|done..]. by rewrite IH.
Qed.

(** X13: of the process environment the commands change CNI_IFNAME
    alone. *)
Theorem only_CNI_IFNAME_is_set (del : bool) args (p : proc W Result) key :
  key <> "CNI_IFNAME" -> environ (cmd co del args p).2 !! key = environ p !! key.
Proof.
  intros Hkey.
  assert (Hc : cmd co del args p
               = command co (if del then delegateDel co else delegateAdd co) args p)
    by by destruct del.
  rewrite Hc. set (call := if del then _ else _).
  assert (Hcall : forall g plugin (p : proc W Result),
             environ (call g plugin p).2 !! key = environ p !! key).
  { intros. unfold call.
    destruct del; [by apply delegateDel_environ|by apply delegateAdd_environ]. }
  unfold command.
  destruct (loadNetConf co (StdinData args)) as [conf|]; [|done].
  destruct (checkPlugins (Plugins conf)); [|done..].
  destruct (podPluginsOf co (world p) conf args) as [podPlugins|]; [|done].
  unfold dispatch. destruct (getifname (IfName args)) as [g|]; [|done].
  destruct (0 <? length podPlugins)%nat.
  - pose proof (eachPodPlugin_environ call (Plugins conf) key Hcall podPlugins g p).
    by destruct (eachPodPlugin _ _ _ _ _) as [[r g'] p'].
  - rewrite firstNamed_resolve.
    destruct (resolve (Plugins conf) (Default conf)) as [plugin|];
      cbn [fmap option_fmap option_map]; [|done].
    specialize (Hcall g plugin p). by destruct (call g plugin p) as [[r g'] p'].
Qed.
End DispatcherMore.

(** ** How far a command gets *)

Section DispatcherProgress.
Import Multicni.
Context {W Config Clientset Result : Type}.
Variable co : Collaborators W Config Clientset Result.

Lemma Setenv_accepts value (env : gmap string string) :
  has_byte 0 value = false ->
  Setenv "CNI_IFNAME" value env = Some (<["CNI_IFNAME" := value]> env).
Proof. intros Hv. unfold Setenv. by rewrite Hv. Qed.

Lemma clean_produce g :
  clean g -> has_byte 0 (produce g).1.1 = false /\ clean (produce g).2.
Proof.
  intros [Hn Hp]. destruct (produce_nonzero g Hn Hp) as (? & Hn' & Hp').
  split; [done|]. unfold clean. by rewrite Hn', Hp'.
Qed.

(** What [delegateAdd] does with an entry that can be invoked. *)
Lemma delegateAdd_runs g plugin (p : proc W Result) type bytes :
  plugin !! "type" = Some (JString type) ->
  Marshal co plugin = Ok bytes ->
  has_byte 0 (produce g).1.1 = false ->
  delegateAdd co g plugin p
  = let iface := (produce g).1.1 in
    let env' := <["CNI_IFNAME" := iface]> (environ p) in
    let out := DelegateAdd co (world p) env' type bytes in
    let p' := Proc out.1 env' (trace p ++ [InvokedAdd type bytes iface out.2]) in
    match out.2 with
    | Error err =>
      (Fail (Errorf "error in invoke Delegate add - %q: %v" [type] [err]),
       (produce g).2, p')
    | Ok result =>
      if (produce g).1.2 then
        (match Print co result with None => Nil | Some err => Fail err end,
         (produce g).2, Proc out.1 env' (trace p' ++ [Printed result]))
      else (Nil, (produce g).2, p')
    end.
Proof.
  intros Ht Hm Hz. unfold delegateAdd. rewrite Hm, Ht.
  destruct (produce g) as [[iface isDefault] g'] eqn:Ep. cbn [fst snd] in *.
  rewrite (Setenv_accepts _ _ Hz). cbn zeta.
  destruct (DelegateAdd co _ _ _ _) as [w' [result|err]]; cbn [fst snd]; [|done].
  by destruct isDefault.
Qed.

Lemma delegateDel_runs g plugin (p : proc W Result) type bytes :
  plugin !! "type" = Some (JString type) ->
  Marshal co plugin = Ok bytes ->
  has_byte 0 (produce g).1.1 = false ->
  delegateDel co g plugin p
  = let iface := (produce g).1.1 in
    let env' := <["CNI_IFNAME" := iface]> (environ p) in
    let out := DelegateDel co (world p) env' type bytes in
    let p' := Proc out.1 env' (trace p ++ [InvokedDel type bytes iface out.2]) in
    match out.2 with
    | Some err =>
      (Fail (Errorf "error in invoke Delegate del - %q: %v" [type] [err]),
       (produce g).2, p')
    | None => (Nil, (produce g).2, p')
    end.
Proof.
  intros Ht Hm Hz. unfold delegateDel. rewrite Hm, Ht.
  destruct (produce g) as [[iface isDefault] g'] eqn:Ep. cbn [fst snd] in *.
  rewrite (Setenv_accepts _ _ Hz). cbn zeta.
  by destruct (DelegateDel co _ _ _ _) as [w' [err|]].
Qed.

Lemma delegateAdd_thrives : thrives co (delegateAdd co).
Proof.
  intros g plugin p type bytes Ht Hm [Hz Hg]%clean_produce.
  rewrite (delegateAdd_runs g plugin p type bytes Ht Hm Hz). cbn zeta.
  destruct (DelegateAdd co _ _ _ _) as [w' [result|err]]; cbn [fst snd].
  - destruct ((produce g).1.2); cbn [fst snd trace].
    + eexists [_; _]. split; [by rewrite <- app_assoc|]. split; [done|].
      intros _ Hp. rewrite (Hp result); [done|]. by right; left.
    + eexists [_]. done.
  - eexists [_]. split; [done|]. split; [done|].
    intros Ha. by apply Forall_inv in Ha.
Qed.

Lemma delegateDel_thrives : thrives co (delegateDel co).
Proof.
  intros g plugin p type bytes Ht Hm [Hz Hg]%clean_produce.
  rewrite (delegateDel_runs g plugin p type bytes Ht Hm Hz). cbn zeta.
  destruct (DelegateDel co _ _ _ _) as [w' [err|]]; cbn [fst snd].
  - eexists [_]. split; [done|]. split; [done|].
    intros Ha. by apply Forall_inv in Ha.
  - eexists [_]. done.
Qed.

Lemma prints_well_app (a b : list (event Result)) :
  prints_well co (a ++ b) <-> prints_well co a /\ prints_well co b.
Proof.
  unfold prints_well. setoid_rewrite elem_of_app. split.
  - intros H. split; intros result Hin; apply H; [by left|by right].
  - intros [Ha Hb] result [Hin|Hin]; [by apply Ha|by apply Hb].
Qed.

(** A loop over names that all select an entry returns nil when every
    delegate answers without error. *)
Lemma eachPodPlugin_thrives (call : delegate) plugins :
  thrives co call -> invocable co plugins ->
  forall names g (p : proc W Result),
    clean g ->
    (forall name, name ∈ names -> is_Some (resolve plugins name)) ->
    exists evs,
      trace (eachPodPlugin call plugins names g p).2 = trace p ++ evs
      /\ (Forall (fun e => answered e = true) evs -> prints_well co evs ->
          (eachPodPlugin call plugins names g p).1.1 = Nil).
Proof.
  intros Hcall Hinv. induction names as [|name rest IH]; intros g p Hg Hres.
  { exists []. by rewrite app_nil_r. }
  cbn [eachPodPlugin]. rewrite firstNamed_resolve.
  destruct (Hres name) as [plugin Hp]; [by left|]. rewrite Hp.
  cbn [fmap option_fmap option_map].
  assert (Hin : plugin ∈ plugins).
  { unfold resolve in Hp. apply find_some in Hp as [Hin _]. by apply list_elem_of_In. }
  destruct (Hinv plugin Hin) as (type & bytes & Ht & Hm).
  destruct (Hcall g plugin p type bytes Ht Hm Hg) as (evs1 & Htr1 & Hg1 & Hnil1).
  destruct (call g plugin p) as [[r1 g1] p1]. cbn [fst snd] in *. subst g1.
  destruct r1.
  - destruct (IH (produce g).2 p1) as (evs2 & Htr2 & Hnil2).
    { by apply clean_produce. }
    { intros n Hn. apply Hres. by right. }
    exists (evs1 ++ evs2). split; [by rewrite Htr2, Htr1, app_assoc|].
    intros [Ha1 Ha2]%Forall_app [Hp1 Hp2]%prints_well_app. by apply Hnil2.
  - exists evs1. split; [done|]. intros Ha Hpr. by specialize (Hnil1 Ha Hpr).
  - exists evs1. split; [done|]. intros Ha Hpr. by specialize (Hnil1 Ha Hpr).
Qed.

Lemma plan_resolves conf podPlugins :
  (forall name, name ∈ podPlugins -> is_Some (resolve (Plugins conf) name)) ->
  forall name, name ∈ plan conf podPlugins -> is_Some (resolve (Plugins conf) name).
Proof.
  intros Hres name. unfold plan. destruct podPlugins as [|n rest]; [|apply Hres].
  destruct (resolve (Plugins conf) (Default conf)) eqn:Hd.
  - intros ->%list_elem_of_singleton. by rewrite Hd.
  - by intros ?%elem_of_nil.
Qed.

(** The commands return nil when the interface name is one the allocator
    and the environment accept, every name of the dynamic list selects an
    entry, every entry can be invoked, every delegate invoked answers
    without error and the printing does not fail. *)
Lemma dispatch_thrives (call : delegate) conf podPlugins ifName (p : proc W Result) :
  thrives co call -> invocable co (Plugins conf) ->
  is_Some (getifname ifName) -> has_byte 0 ifName = false ->
  (forall name, name ∈ podPlugins -> is_Some (resolve (Plugins conf) name)) ->
  exists evs,
    trace (dispatch call conf podPlugins ifName p).2 = trace p ++ evs
    /\ (Forall (fun e => answered e = true) evs -> prints_well co evs ->
        (dispatch call conf podPlugins ifName p).1 = Nil).
Proof.
  intros Hcall Hinv [g Hg] Hz Hres. unfold dispatch. rewrite Hg.
  assert (Hclean : clean g).
  { destruct (getifname_nonzero _ _ Hg Hz). by split. }
  destruct podPlugins as [|name rest]; cbn [length Nat.ltb Nat.leb].
  - rewrite firstNamed_resolve.
    destruct (resolve (Plugins conf) (Default conf)) as [plugin|] eqn:Hp;
      cbn [fmap option_fmap option_map].
    2: { exists []. by rewrite app_nil_r. }
    assert (Hin : plugin ∈ Plugins conf).
    { unfold resolve in Hp. apply find_some in Hp as [Hin _]. by apply list_elem_of_In. }
    destruct (Hinv plugin Hin) as (type & bytes & Ht & Hm).
    destruct (Hcall g plugin p type bytes Ht Hm Hclean) as (evs & Htr & _ & Hnil).
    destruct (call g plugin p) as [[r g'] p']. by exists evs.
  - destruct (eachPodPlugin_thrives call (Plugins conf) Hcall Hinv (name :: rest) g p
                Hclean Hres) as (evs & Htr & Hnil).
    destruct (eachPodPlugin _ _ _ _ _) as [[r g'] p']. by exists evs.
Qed.

Lemma checked_invocable (plugins : list plugin) :
  checkPlugins plugins = Nil ->
  (forall plugin, plugin ∈ plugins -> exists bytes, Marshal co plugin = Ok bytes) ->
  invocable co plugins.
Proof.
  intros Hcheck%checkPlugins_Nil Hm plugin Hin.
  rewrite Forall_forall in Hcheck. destruct (Hcheck _ Hin) as [Ht _].
  destruct (Hm _ Hin) as [bytes Hb].
  destruct (plugin !! "type") as [[| | |type| |]|]; try done.
  by exists type, bytes.
Qed.



(** C6: a non-empty dynamic list is resolved name by name, in its order,
    against the static entries, and a name that selects no entry makes the
    command fail; with an empty dynamic list the plan is the default entry
    alone.  Of the plan, a prefix is invoked in order, all of it when the
    command returns nil; and the command does return nil, with the whole
    plan invoked, when [getifname] returns on the interface name, the name
    holds no NUL byte ([os.Setenv] refuses one), every name of the dynamic
    list selects an entry, every entry can be serialized, every delegate
    invoked answers without error and the printing does not fail. *)
Theorem selection_in_order (del : bool) args (p : proc W Result) conf podPlugins :
  loadNetConf co (StdinData args) = Ok conf ->
  checkPlugins (Plugins conf) = Nil ->
  podPluginsOf co (world p) conf args = Ok podPlugins ->
  exists evs k,
    trace (cmd co del args p).2 = trace p ++ evs
    /\ Forall2 (selected co conf) (take k (plan conf podPlugins)) (invocations evs)
    /\ ((cmd co del args p).1 = Nil -> k = length (plan conf podPlugins))
    /\ (forall name, name ∈ podPlugins -> resolve (Plugins conf) name = None ->
        (cmd co del args p).1 <> Nil)
    /\ (podPlugins = [] -> forall name, name ∈ plan conf podPlugins ->
        name = Default conf)
    /\ (is_Some (getifname (IfName args)) ->
        has_byte 0 (IfName args) = false ->
        (forall name, name ∈ podPlugins -> is_Some (resolve (Plugins conf) name)) ->
        (forall plugin, plugin ∈ Plugins conf ->
           exists bytes, Marshal co plugin = Ok bytes) ->
        Forall (fun e => answered e = true) evs ->
        prints_well co evs ->
        (cmd co del args p).1 = Nil /\ k = length (plan conf podPlugins)).
Proof.
  intros Hconf Hcheck Hpod.
  rewrite cmd_command, (command_dispatch co _ _ _ _ _ Hconf Hcheck Hpod).
  destruct (dispatch_selection co _ conf podPlugins (IfName args) p (cmd_behaves co del))
    as (evs & k & Htr & Hsel & Hall).
  exists evs, k. split; [done|]. split; [done|]. split; [done|].
  split; [|split].
  - intros name. apply dispatch_unresolved.
  - intros -> name. cbn. destruct (resolve _ _); [|by intros ?%elem_of_nil].
    by intros ->%list_elem_of_singleton.
  - intros Hg Hz Hres Hm Hans Hpr.
    assert (Hthr : thrives co (if del then delegateDel co else delegateAdd co))
      by (destruct del; [apply delegateDel_thrives|apply delegateAdd_thrives]).
    destruct (dispatch_thrives _ conf podPlugins (IfName args) p Hthr
                (checked_invocable _ Hcheck Hm) Hg Hz Hres) as (evs' & Htr' & Hnil).
    rewrite Htr in Htr'. apply app_inv_head in Htr' as <-.
    specialize (Hnil Hans Hpr). split; [done|]. by apply Hall.
Qed.

End DispatcherProgress.

(** ** More on the single-device handler *)

Section HandlerMore.
Import HostDevice.
Context {K IPAMResult VResult : Type}.
Variable pf : Platform K IPAMResult VResult.

Ltac crunch :=
  repeat (match goal with
          | |- context [match ?x with _ => _ end] =>
            lazymatch x with
            | context [match _ with _ => _ end] => fail
            | _ => destruct x eqn:?
            end
          end; cbn [fst snd kern cur trace is_ok error_of nil_error Fd] in *).

Lemma adds_refl P (s : state K) : adds P s s.
Proof. exists []. split; [by rewrite app_nil_r|constructor]. Qed.

Lemma adds_trans P (s1 s2 s3 : state K) : adds P s1 s2 -> adds P s2 s3 -> adds P s1 s3.
Proof.
  intros (e1 & H1 & F1) (e2 & H2 & F2). exists (e1 ++ e2).
  split; [by rewrite H2, H1, app_assoc|by apply Forall_app].
Qed.

Lemma adds_mono (P Q : entry -> Prop) (s s' : state K) :
  (forall e, P e -> Q e) -> adds P s s' -> adds Q s s'.
Proof.
  intros HPQ (evs & Ht & HF). exists evs. split; [done|].
  by eapply Forall_impl.
Qed.

Lemma byName_looks_up devices : forall s : state K,
  adds (fun e => exists device, device ∈ devices /\ what e = CLinkByName device)
    s (byName pf devices s).2.
Proof.
  induction devices as [|device rest IH]; intros s; cbn [byName]; [apply adds_refl|].
  unfold query. cbn [fst snd].
  set (s1 := record _ _ s).
  assert (H1 : adds (fun e => exists d, d ∈ device :: rest /\ what e = CLinkByName d) s s1).
  { eexists [_]. split; [done|]. repeat constructor. exists device. split; [left|done]. }
  destruct (LinkByName pf (kern s) (cur s) device) as [link|err]; [exact H1|].
  eapply adds_trans; [exact H1|]. eapply adds_mono; [|apply IH].
  intros e (d & Hd & He). exists d. split; [by right|done].
Qed.

Lemma byKernelPath_looks_up kernelpaths links : forall s : state K,
  adds (fun e => exists kernelpath,
          kernelpath ∈ kernelpaths
          /\ IsAbs kernelpath = true
          /\ HasPrefix kernelpath "/sys/devices/" = true
          /\ what e = CReadDir (Join pf kernelpath "net"))
    s (byKernelPath pf kernelpaths links s).2.
Proof.
  induction kernelpaths as [|kp rest IH]; intros s; cbn [byKernelPath];
    [apply adds_refl|].
  assert (Hrest : forall s' : state K,
    adds (fun e => exists kernelpath,
          kernelpath ∈ kp :: rest
          /\ IsAbs kernelpath = true
          /\ HasPrefix kernelpath "/sys/devices/" = true
          /\ what e = CReadDir (Join pf kernelpath "net"))
      s' (byKernelPath pf rest links s').2).
  { intros s'. eapply adds_mono; [|apply IH].
    intros e (d & Hd & He). exists d. split; [by right|done]. }
  destruct (IsAbs kp) eqn:Habs; cbn [negb orb]; [|apply Hrest].
  destruct (HasPrefix kp "/sys/devices/") eqn:Hpre; cbn [negb]; [|apply Hrest].
  unfold query. cbn [fst snd]. set (s1 := record _ _ s).
  assert (H1 : adds (fun e => exists kernelpath,
          kernelpath ∈ kp :: rest
          /\ IsAbs kernelpath = true
          /\ HasPrefix kernelpath "/sys/devices/" = true
          /\ what e = CReadDir (Join pf kernelpath "net")) s s1).
  { eexists [_]. split; [done|]. repeat constructor. exists kp.
    split; [left|done]. }
  destruct (ReadDir pf (kern s) (Join pf kp "net")) as [files|err];
    [|eapply adds_trans; [exact H1|apply Hrest]].
  destruct (firstInterface files links); [exact H1|].
  eapply adds_trans; [exact H1|apply Hrest].
Qed.

Lemma byKernelPath_frame kernelpaths links : forall s : state K,
  kern (byKernelPath pf kernelpaths links s).2 = kern s
  /\ cur (byKernelPath pf kernelpaths links s).2 = cur s.
Proof.
  induction kernelpaths as [|kp rest IH]; intros s; cbn [byKernelPath]; [done|].
  destruct (_ || _); [apply IH|].
  unfold query. cbn [fst snd].
  destruct (ReadDir pf (kern s) (Join pf kp "net")) as [files|e].
  - destruct (firstInterface files links); [done|].
    destruct (IH (record (CReadDir (Join pf kp "net")) (is_ok (Ok files : res (list string))) s)) as [-> ->]. done.
  - destruct (IH (record (CReadDir (Join pf kp "net")) (is_ok (Error e : res (list string))) s)) as [-> ->]. done.
Qed.

Lemma getLink_looks_up devices hwaddrs kernelpaths (s : state K) :
  kern (getLink pf devices hwaddrs kernelpaths s).2 = kern s
  /\ cur (getLink pf devices hwaddrs kernelpaths s).2 = cur s
  /\ adds (lookup_of pf devices kernelpaths) s
       (getLink pf devices hwaddrs kernelpaths s).2.
Proof.
  unfold getLink, query. cbn [fst snd]. set (s1 := record _ _ s).
  assert (H1 : adds (lookup_of pf devices kernelpaths) s s1).
  { eexists [_]. split; [done|]. constructor; [by left|constructor]. }
  destruct (LinkList pf (kern s) (cur s)) as [links|err]; [|done].
  pose proof (byName_spec pf devices s1) as (Hk & Hc & _).
  pose proof (byName_looks_up devices s1) as H2.
  destruct (byName pf devices s1) as [found s2]. cbn [fst snd] in *.
  assert (H12 : adds (lookup_of pf devices kernelpaths) s s2).
  { eapply adds_trans; [exact H1|]. eapply adds_mono; [|exact H2].
    intros e He. right. by left. }
  destruct found; [done|].
  destruct (byHWAddr pf hwaddrs links); [done|].
  pose proof (byKernelPath_frame kernelpaths links s2) as [Hk3 Hc3].
  pose proof (byKernelPath_looks_up kernelpaths links s2) as H3.
  destruct (byKernelPath pf kernelpaths links s2) as [found s3]. cbn [fst snd] in *.
  assert (H13 : adds (lookup_of pf devices kernelpaths) s s3).
  { eapply adds_trans; [exact H12|]. eapply adds_mono; [|exact H3].
    intros e He. right. by right. }
  destruct found; cbn [snd]; by rewrite Hk3, Hc3, Hk, Hc.
Qed.

Ltac index_cases i H tac :=
  cbn in H;
  first [ discriminate H
        | destruct i as [|i]; [cbn in H; tac | index_cases i H tac] ].

Ltac find_earlier :=
  first [ exists 0%nat; split; [lia|reflexivity]
        | exists 1%nat; split; [lia|reflexivity]
        | exists 2%nat; split; [lia|reflexivity]
        | exists 3%nat; split; [lia|reflexivity]
        | exists 4%nat; split; [lia|reflexivity]
        | exists 5%nat; split; [lia|reflexivity]
        | exists 6%nat; split; [lia|reflexivity]
        | exists 7%nat; split; [lia|reflexivity]
        | exists 8%nat; split; [lia|reflexivity] ].

(** Proof of [down_before_move] for a list written out. *)
Ltac check_down :=
  let i := fresh "i" in let H := fresh "H" in
  intros i ? ? ? ? H;
  index_cases i H ltac:(try discriminate H; simplify_eq H; intros; subst; find_earlier).

(** Proof of [no_move_after_failed_write] for a list written out. *)
Ltac check_halt :=
  let i := fresh "i" in let j := fresh "j" in
  let Hi := fresh "Hi" in let Hj := fresh "Hj" in
  let Hw := fresh "Hw" in let Hs := fresh "Hs" in let Hlt := fresh "Hlt" in
  intros i j ? ? Hi Hw Hs Hlt Hj;
  index_cases i Hi ltac:(simplify_eq Hi; intros; subst; cbn in Hw, Hs;
                         try discriminate Hw; try discriminate Hs;
                         index_cases j Hj ltac:(first [lia | simplify_eq Hj; intros; subst; reflexivity])).

Ltac check_each := repeat constructor; cbn; try done.


Lemma no_write_no_move e : no_write e -> no_move e.
Proof. unfold no_write, no_move. by destruct (what e). Qed.

Lemma no_write_no_failed_write e : no_write e -> no_failed_write e.
Proof. unfold no_write, no_failed_write. congruence. Qed.

Lemma lookup_of_no_write devices kernelpaths e :
  lookup_of pf devices kernelpaths e -> no_write e /\ no_ipam e.
Proof.
  unfold no_write, no_ipam.
  intros [->|[(d & _ & ->)|(kp & _ & _ & _ & ->)]]; done.
Qed.

Lemma down_before_move_app a b :
  down_before_move a -> down_before_move b -> down_before_move (a ++ b).
Proof.
  intros Ha Hb i ns l fd ok Hi. apply lookup_app_Some in Hi as [Hi|[Hlen Hi]].
  - destruct (Ha _ _ _ _ _ Hi) as (j & Hj & He). exists j. split; [done|].
    by apply lookup_app_l_Some.
  - destruct (Hb _ _ _ _ _ Hi) as (j & Hj & He). exists (length a + j)%nat.
    split; [lia|]. by rewrite lookup_app_r, Nat.add_sub' by lia.
Qed.

Lemma no_move_down_before_move evs : Forall no_move evs -> down_before_move evs.
Proof.
  intros Hf i ns l fd ok Hi. rewrite Forall_lookup in Hf.
  by specialize (Hf _ _ Hi).
Qed.

Lemma halt_app_no_move a b :
  no_move_after_failed_write a -> Forall no_move b ->
  no_move_after_failed_write (a ++ b).
Proof.
  intros Ha Hb i j e e' Hi Hw Hs Hlt Hj.
  apply lookup_app_Some in Hj as [Hj|[Hlen Hj]].
  - apply (Ha i j e e'); try done.
    rewrite lookup_app_l in Hi; [done|]. apply lookup_lt_Some in Hj. lia.
  - rewrite Forall_lookup in Hb. apply (Hb _ _ Hj).
Qed.

Lemma halt_app_no_failure a b :
  Forall no_failed_write a -> no_move_after_failed_write b ->
  no_move_after_failed_write (a ++ b).
Proof.
  intros Ha Hb i j e e' Hi Hw Hs Hlt Hj.
  apply lookup_app_Some in Hi as [Hi|[Hlen Hi]].
  - rewrite Forall_lookup in Ha. specialize (Ha _ _ Hi Hw). congruence.
  - apply (Hb (i - length a)%nat (j - length a)%nat e e'); try done; [lia|].
    rewrite lookup_app_r in Hj by lia. done.
Qed.

Lemma no_failure_halt evs :
  Forall no_failed_write evs -> no_move_after_failed_write evs.
Proof.
  intros Hf i j e e' Hi Hw Hs _ _. rewrite Forall_lookup in Hf.
  specialize (Hf _ _ Hi Hw). congruence.
Qed.

(** What [moveLinkOut] adds to the trace. *)
Lemma moveLinkOut_segment containerNs ifName (s : state K) :
  exists evs,
    trace (moveLinkOut pf containerNs ifName s).2 = trace s ++ evs
    /\ down_before_move evs /\ no_move_after_failed_write evs
    /\ Forall no_ipam evs.
Proof.
  unfold moveLinkOut, GetCurrentNS, Do, Close, moveLinkOut_inside, query,
    update, record.
  crunch;
    (eexists; split; [rewrite <- ?app_assoc; cbn [app]; reflexivity|];
     split; [check_down|split; [check_halt|check_each]]).
Qed.


Ltac check_alias :=
  let i := fresh "i" in let H := fresh "H" in
  intros i ? ? ? ? H;
  index_cases i H ltac:(try discriminate H; simplify_eq H; intros; subst; find_earlier).

Ltac check_attached :=
  first [ discriminate
        | intros _; split; [check_each|];
          eexists 1%nat, 5%nat, _, _, _, _;
          split; [lia|split; reflexivity] ].

(** What [moveLinkIn] adds to the trace. *)
Lemma moveLinkIn_segment hostDev containerNs ifName (s : state K) :
  exists evs,
    trace (moveLinkIn pf hostDev containerNs ifName s).2 = trace s ++ evs
    /\ down_before_move evs /\ no_move_after_failed_write evs
    /\ Forall no_ipam evs
    /\ alias_before_rename (Name hostDev) evs
    /\ (is_ok (moveLinkIn pf hostDev containerNs ifName s).1 = true ->
        Forall no_failed_write evs /\ attached_as ifName evs).
Proof.
  unfold moveLinkIn, Do, moveLinkIn_inside, query, update, record.
  crunch;
    (eexists; split; [rewrite <- ?app_assoc; cbn [app]; reflexivity|];
     split; [check_down|split; [check_halt|split; [check_each|
       split; [check_alias|check_attached]]]]).
Qed.

Lemma rollback_segment containerNs args (s : state K) :
  exists evs,
    trace (rollback pf containerNs args s) = trace s ++ evs
    /\ down_before_move evs /\ no_move_after_failed_write evs
    /\ Forall no_ipam evs.
Proof.
  unfold rollback, Do. destruct (Setns pf (kern s) (Fd containerNs)).
  - eexists [_]. cbn. split; [done|]. split; [check_down|split; [check_halt|check_each]].
  - set (inside := State _ _ _).
    destruct (moveLinkOut_segment containerNs (IfName args) inside)
      as (evs & Ht & Hd & Hh & Hi).
    destruct (moveLinkOut pf containerNs (IfName args) inside) as [e s'].
    cbn [snd] in Ht.
    exists ([Entry (cur s) (CSetns (Fd containerNs)) true] ++ evs
            ++ [Entry (cur s') (CSetns (cur s)) true]).
    split.
    { destruct e; cbn [snd trace]; rewrite Ht; unfold inside; cbn [trace];
        by rewrite <- !app_assoc. }
    split; [|split].
    + apply down_before_move_app; [check_down|].
      apply down_before_move_app; [done|check_down].
    + apply halt_app_no_failure; [check_each|].
      apply halt_app_no_move; [done|check_each].
    + apply Forall_app. split; [check_each|]. apply Forall_app. split; [done|check_each].
Qed.

Ltac check_between m He :=
  index_cases m He ltac:(first [lia | simplify_eq He; intros; subst; reflexivity]).

Ltac check_released :=
  let i := fresh "i" in let H := fresh "H" in
  intros i ? ? ? ? H;
  index_cases i H
    ltac:(first [ discriminate H
                | simplify_eq H; intros; subst;
                  exists 0%nat; eexists; split; [lia|split; [reflexivity|]];
                  let m := fresh "m" in let He := fresh "He" in
                  intros m ? ? He; check_between m He ]).

(** What [cmdAdd] adds from the IPAM call to the release. *)
Lemma cmdAdd_moved_segment cfg containerNs contDev args (s : state K) :
  exists evs,
    trace (cmdAdd_moved pf cfg containerNs contDev args s).2 = trace s ++ evs
    /\ Forall no_write evs /\ released_after_allocated evs.
Proof.
  unfold cmdAdd_moved, cmdAdd_allocated, Do, effect, record.
  crunch;
    (eexists; split; [rewrite <- ?app_assoc; cbn [app]; reflexivity|];
     split; [check_each|check_released]).
Qed.

Lemma adds_Forall P (s s' : state K) evs :
  adds P s s' -> trace s' = trace s ++ evs -> Forall P evs.
Proof. intros (evs' & Ht & Hf) Ht'. rewrite Ht in Ht'. by simplify_list_eq. Qed.

(** The trace of [cmdAdd] in three parts: up to the end of the attach, from
    the IPAM call to the release, and the rollback with the closing of the
    namespace. *)
Lemma cmdAdd_segments args (s : state K) :
  exists pre mid post (attached : bool),
    trace (cmdAdd pf args s).2 = trace s ++ pre ++ mid ++ post
    /\ down_before_move pre /\ no_move_after_failed_write pre
    /\ Forall no_ipam pre
    /\ (if attached
        then Forall no_failed_write pre /\ attached_as (IfName args) pre
        else mid = [] /\ Forall no_write post)
    /\ Forall no_write mid /\ released_after_allocated mid
    /\ down_before_move post /\ no_move_after_failed_write post
    /\ Forall no_ipam post.
Proof.
  assert (Hd0 : down_before_move []) by (intros i ns l fd ok; by rewrite lookup_nil).
  assert (Hh0 : no_move_after_failed_write []) by (by apply no_failure_halt).
  assert (Hr0 : released_after_allocated [])
    by (intros i ns t d ok; by rewrite lookup_nil).
  unfold cmdAdd. destruct (loadConf pf (StdinData args)) as [cfg|err].
  2: { exists [], [], [], false. cbn. by rewrite app_nil_r. }
  unfold query. cbn [fst snd]. set (s0 := record _ _ s).
  set (opened := Entry (cur s) (CGetNS (Netns args))
                   (is_ok (GetNS pf (kern s) (Netns args)))).
  assert (Ht0 : trace s0 = trace s ++ [opened]) by done.
  destruct (GetNS pf (kern s) (Netns args)) as [containerNs|err].
  2: { exists [opened], [], [], false. cbn [snd app]. rewrite Ht0.
       split_and!; try done; try check_each; [check_down|check_halt]. }
  unfold cmdAdd_opened.
  pose proof (getLink_looks_up (Devices cfg) (HWAddrs cfg) (KernelPaths cfg) s0)
    as (_ & _ & (evs0 & Ht1 & Hl1)).
  assert (Hw1 : Forall no_write evs0 /\ Forall no_ipam evs0).
  { split; eapply Forall_impl; try exact Hl1; intros e He;
      by apply lookup_of_no_write in He as []. }
  destruct Hw1 as [Hw1 Hi1].
  destruct (getLink pf (Devices cfg) (HWAddrs cfg) (KernelPaths cfg) s0)
    as [[hostDev|err] s1]; cbn [snd] in Ht1.
  2: { exists ([opened] ++ evs0), [], [Entry (cur s1) (CClose containerNs) true], false.
       cbn [snd Close record trace]. rewrite Ht1, Ht0, <- !app_assoc.
       split; [done|]. split; [|split; [|split]].
       - apply no_move_down_before_move, Forall_app. split; [check_each|].
         eapply Forall_impl; [exact Hw1|apply no_write_no_move].
       - apply no_failure_halt, Forall_app. split; [check_each|].
         eapply Forall_impl; [exact Hw1|apply no_write_no_failed_write].
       - apply Forall_app. split; [check_each|done].
       - split_and!; try done; try check_each; [check_down|check_halt]. }
  destruct (moveLinkIn_segment hostDev containerNs (IfName args) s1)
    as (evs1 & Ht2 & Hd2 & Hh2 & Hi2 & _ & Hok2).
  assert (Hpre_d : down_before_move ([opened] ++ evs0 ++ evs1)).
  { apply down_before_move_app; [check_down|]. apply down_before_move_app; [|done].
    apply no_move_down_before_move.
    eapply Forall_impl; [exact Hw1|apply no_write_no_move]. }
  assert (Hpre_h : no_move_after_failed_write ([opened] ++ evs0 ++ evs1)).
  { apply halt_app_no_failure; [check_each|]. apply halt_app_no_failure; [|done].
    eapply Forall_impl; [exact Hw1|apply no_write_no_failed_write]. }
  assert (Hpre_i : Forall no_ipam ([opened] ++ evs0 ++ evs1)).
  { apply Forall_app. split; [check_each|]. by apply Forall_app. }
  destruct (moveLinkIn pf hostDev containerNs (IfName args) s1)
    as [[contDev|err] s2]; cbn [fst snd is_ok] in Ht2, Hok2.
  2: { exists ([opened] ++ evs0 ++ evs1), [],
         [Entry (cur s2) (CClose containerNs) true], false.
       cbn [snd Close record trace]. rewrite Ht2, Ht1, Ht0, <- !app_assoc.
       split; [done|].
       split_and!; try done; try check_each; [check_down|check_halt]. }
  destruct (Hok2 eq_refl) as [Hnf2 Hat2].
  destruct (cmdAdd_moved_segment cfg containerNs contDev args s2)
    as (evs2 & Ht3 & Hw3 & Hr3).
  destruct (cmdAdd_moved pf cfg containerNs contDev args s2) as [[out err] s3].
  cbn [snd] in Ht3.
  assert (Hpre : Forall no_failed_write ([opened] ++ evs0 ++ evs1)
                 /\ attached_as (IfName args) ([opened] ++ evs0 ++ evs1)).
  { split.
    - apply Forall_app. split; [check_each|]. apply Forall_app. split; [|done].
      eapply Forall_impl; [exact Hw1|apply no_write_no_failed_write].
    - destruct Hat2 as (j1 & j2 & ns & l & fd & l' & Hlt & H1 & H2).
      exists (length ([opened] ++ evs0) + j1)%nat,
             (length ([opened] ++ evs0) + j2)%nat, ns, l, fd, l'.
      rewrite !app_assoc.
      split; [lia|]. by rewrite !lookup_app_r, !Nat.add_sub' by lia. }
  destruct err as [err|].
  - destruct (rollback_segment containerNs args s3) as (evs3 & Ht4 & Hd4 & Hh4 & Hi4).
    exists ([opened] ++ evs0 ++ evs1), evs2,
      (evs3 ++ [Entry (cur (rollback pf containerNs args s3)) (CClose containerNs) true]),
      true.
    cbn [snd Close record trace]. rewrite Ht4, Ht3, Ht2, Ht1, Ht0, <- !app_assoc.
    split; [done|]. destruct Hpre. split_and!; try done.
    + apply down_before_move_app; [done|check_down].
    + apply halt_app_no_move; [done|check_each].
    + apply Forall_app. split; [done|check_each].
  - destruct Hpre. exists ([opened] ++ evs0 ++ evs1), evs2,
      [Entry (cur s3) (CClose containerNs) true], true.
    cbn [snd Close record trace]. rewrite Ht3, Ht2, Ht1, Ht0, <- !app_assoc.
    split; [done|].
    split_and!; try done; try check_each; [check_down|check_halt].
Qed.

Lemma cmdDel_segment args (s : state K) :
  exists evs,
    trace (cmdDel pf args s).2 = trace s ++ evs
    /\ down_before_move evs /\ no_move_after_failed_write evs.
Proof.
  unfold cmdDel. destruct (loadConf pf (StdinData args)) as [cfg|err].
  2: { exists []. cbn. split; [by rewrite app_nil_r|].
       split; [check_down|check_halt]. }
  unfold effect, query, record. cbn [fst snd].
  destruct (ExecDel pf (kern s) (IPAM_Type cfg) (StdinData args)) as [k' [err|]].
  { eexists [_]. cbn. split; [done|]. split; [check_down|check_halt]. }
  cbn [kern cur trace].
  destruct (GetNS pf k' (Netns args)) as [containerNs|err].
  2: { eexists [_; _]. cbn. split; [by rewrite <- app_assoc|].
       split; [check_down|check_halt]. }
  set (s1 := State _ _ _).
  destruct (moveLinkOut_segment containerNs (IfName args) s1)
    as (evs & Ht & Hd & Hh & _).
  destruct (moveLinkOut pf containerNs (IfName args) s1) as [e s2].
  cbn [snd Close record trace] in *.
  eexists ([_; _] ++ evs ++ [_]). rewrite Ht. unfold s1. cbn [trace].
  split; [by rewrite <- !app_assoc|]. split.
  - apply down_before_move_app; [check_down|].
    apply down_before_move_app; [done|check_down].
  - apply halt_app_no_failure; [check_each|].
    apply halt_app_no_move; [done|check_each].
Qed.

(** X16: in every run of Add and of Del, a link is moved to another
    namespace only after a call from the same namespace has set that link
    down. *)
Theorem link_is_down_before_it_moves args (s : state K) :
  extends down_before_move s (cmdAdd pf args s).2
  /\ extends down_before_move s (cmdDel pf args s).2.
Proof.
  split.
  - destruct (cmdAdd_segments args s)
      as (pre & mid & post & attached & Ht & Hd1 & _ & _ & _ & Hw & _ & Hd3 & _).
    exists (pre ++ mid ++ post). split; [done|].
    apply down_before_move_app; [done|]. apply down_before_move_app; [|done].
    apply no_move_down_before_move.
    eapply Forall_impl; [exact Hw|apply no_write_no_move].
  - destruct (cmdDel_segment args s) as (evs & Ht & Hd & _). by exists evs.
Qed.


(** X19: in every run of Add and of Del, once a call that changes a link
    has failed no link is moved any more: a link that entered the namespace
    of the container and could not be given its alias or its name stays
    there. *)
Theorem failed_write_stops_moves args (s : state K) :
  extends no_move_after_failed_write s (cmdAdd pf args s).2
  /\ extends no_move_after_failed_write s (cmdDel pf args s).2.
Proof.
  split.
  - destruct (cmdAdd_segments args s)
      as (pre & mid & post & attached & Ht & _ & Hh1 & _ & Hat & Hw & _ & _ & Hh3 & _).
    exists (pre ++ mid ++ post). split; [done|]. destruct attached.
    + destruct Hat as [Hnf _]. apply halt_app_no_failure; [done|].
      apply halt_app_no_failure; [|done].
      eapply Forall_impl; [exact Hw|apply no_write_no_failed_write].
    + destruct Hat as [-> Hpost]. apply halt_app_no_move; [done|].
      eapply Forall_impl; [exact Hpost|apply no_write_no_move].
  - destruct (cmdDel_segment args s) as (evs & Ht & _ & Hh). by exists evs.
Qed.



(** X17: [moveLinkIn] renames a link only after it has stored the name the
    link had on the host as the alias of that link. *)
Theorem alias_is_saved_before_rename hostDev containerNs ifName (s : state K) :
  extends (alias_before_rename (Name hostDev)) s
    (moveLinkIn pf hostDev containerNs ifName s).2.
Proof.
  destruct (moveLinkIn_segment hostDev containerNs ifName s)
    as (evs & Ht & _ & _ & _ & Ha & _).
  by exists evs.
Qed.

(** X14: [getLink] only looks up: it leaves the kernel and the namespace of
    the thread as they are, and each of its calls lists the links, looks up
    a configured device name, or reads the directory net under a configured
    kernel path that is absolute and begins with /sys/devices/. *)
Theorem getLink_only_looks_up devices hwaddrs kernelpaths (s : state K) :
  kern (getLink pf devices hwaddrs kernelpaths s).2 = kern s
  /\ cur (getLink pf devices hwaddrs kernelpaths s).2 = cur s
  /\ adds (lookup_of pf devices kernelpaths) s
       (getLink pf devices hwaddrs kernelpaths s).2.
Proof. apply getLink_looks_up. Qed.

Lemma addr_hit_perm hwaddrs hwaddrs' links l :
  hwaddrs ≡ₚ hwaddrs' -> addr_hit pf hwaddrs links l -> addr_hit pf hwaddrs' links l.
Proof.
  intros Hp (a & Ha & Hm & Hl). exists a. split; [by rewrite <- Hp|done].
Qed.

(** X15: when the configured hardware addresses select at most one link,
    their order does not matter to [getLink]. *)
Theorem unique_address_any_order devices hwaddrs hwaddrs' kernelpaths (s : state K) :
  hwaddrs ≡ₚ hwaddrs' ->
  (forall links l l',
     LinkList pf (kern s) (cur s) = Ok links ->
     addr_hit pf hwaddrs links l -> addr_hit pf hwaddrs links l' -> l = l') ->
  getLink pf devices hwaddrs kernelpaths s
  = getLink pf devices hwaddrs' kernelpaths s.
Proof.
  intros Hp Huniq. unfold getLink, query. cbn [fst snd].
  destruct (LinkList pf (kern s) (cur s)) as [links|err] eqn:Hl; [|done].
  destruct (byName pf devices _) as [[link|] s2]; [done|].
  assert (Heq : byHWAddr pf hwaddrs links = byHWAddr pf hwaddrs' links).
  { pose proof (byHWAddr_spec pf hwaddrs links) as H1.
    pose proof (byHWAddr_spec pf hwaddrs' links) as H2.
    destruct (byHWAddr pf hwaddrs links) as [l|], (byHWAddr pf hwaddrs' links) as [l'|].
    - f_equal. apply (Huniq links); [done..|]. by apply (addr_hit_perm hwaddrs').
    - by apply (addr_hit_perm _ hwaddrs') in H1; [apply H2 in H1|].
    - by apply (addr_hit_perm _ hwaddrs) in H2; [apply H1 in H2|].
    - done. }
  by rewrite Heq.
Qed.
End HandlerMore.

(** ** The REST client and the address plugin *)

Section RestFacts.
Import Rest.
Context {W Url Payload Answer : Type}.
Variable tr : Transport W Url Payload Answer.

(** What [do] and the test of the status make of one request. *)
Lemma do_status req want (s : conn W) :
  let ex := Exchange req (Do tr (world s) req).2 in
  log (do tr req want s).2 = log s ++ [ex]
  /\ world (do tr req want s).2 = (Do tr (world s) req).1
  /\ status (do tr req want s).1.1.1 (do tr req want s).1.1.2 <> Panicked
  /\ (status (do tr req want s).1.1.1 (do tr req want s).1.1.2 = Nil
      <-> accepted tr want ex = true)
  /\ (status (do tr req want s).1.1.1 (do tr req want s).1.1.2 = Nil ->
      exists resp, (Do tr (world s) req).2 = Ok resp
        /\ StatusCode resp = 200
        /\ if want
           then exists a, Decode tr (ResponseBody resp) = Ok a
                  /\ (do tr req want s).1.2 = Some a
           else (do tr req want s).1.2 = None).
Proof.
  unfold do, accepted. cbn [answer sent].
  destruct (Do tr (world s) req) as [w' [resp|err]]; cbn [fst snd log world status].
  2: { by split_and!. }
  destruct want.
  - destruct (Decode tr (ResponseBody resp)) as [a|err] eqn:Hd;
      cbn [fst snd log world status]; [|by split_and!].
    destruct (Z.eqb_spec (StatusCode resp) 200) as [Hs|Hs]; cbn [negb andb];
      [|by split_and!].
    do 4 (split; [done|]). intros _. exists resp. do 2 (split; [done|]). by exists a.
  - cbn [fst snd log world status].
    destruct (Z.eqb_spec (StatusCode resp) 200) as [Hs|Hs]; cbn [negb andb];
      [|by split_and!].
    do 4 (split; [done|]). intros _. by exists resp.
Qed.

Lemma do_delivers c method path body want (s : conn W) req :
  newRequest tr c method path body = Ok req ->
  delivers tr c method path body want s
    (status (do tr req want s).1.1.1 (do tr req want s).1.1.2,
     (do tr req want s).1.2, (do tr req want s).2).
Proof.
  intros Hreq. unfold delivers. rewrite Hreq. cbn [fst snd].
  destruct (do_status req want s) as (Hl & Hw & Hp & Ha & Hn).
  split_and!; try done.
  intros Hnil ->. destruct (Hn Hnil) as (resp & Hr & _ & a & Hd & Hs).
  by exists resp, a.
Qed.

Lemma Put_delivers c path body want (s : conn W) :
  delivers tr c "PUT" path body want s (Put tr (Some c) path body want s).
Proof.
  unfold Put. destruct (newRequest tr c "PUT" path body) as [req|err] eqn:Hreq.
  - pose proof (do_delivers c "PUT" path body want s req Hreq) as H.
    by destruct (do tr req want s) as [[[r e] a] s'].
  - unfold delivers. by rewrite Hreq.
Qed.

Lemma Post_delivers c path body want (s : conn W) :
  delivers tr c "POST" path body want s (Post tr (Some c) path body want s).
Proof.
  unfold Post. destruct (newRequest tr c "POST" path body) as [req|err] eqn:Hreq.
  - pose proof (do_delivers c "POST" path body want s req Hreq) as H.
    by destruct (do tr req want s) as [[[r e] a] s'].
  - unfold delivers. by rewrite Hreq.
Qed.

Lemma Get_delivers c path want (s : conn W) :
  delivers tr c "GET" path None want s (Get tr (Some c) path want s).
Proof.
  unfold Get. destruct (newRequest tr c "GET" path None) as [req|err] eqn:Hreq.
  - pose proof (do_delivers c "GET" path None want s req Hreq) as H.
    by destruct (do tr req want s) as [[[r e] a] s'].
  - unfold delivers. by rewrite Hreq.
Qed.

Lemma Delete_delivers c path (s : conn W) :
  delivers tr c "DELETE" path None false s
    ((Delete tr (Some c) path s).1, None, (Delete tr (Some c) path s).2).
Proof.
  unfold Delete. destruct (newRequest tr c "DELETE" path None) as [req|err] eqn:Hreq.
  - pose proof (do_delivers c "DELETE" path None false s req Hreq) as H.
    pose proof (do_status req false s) as (_ & _ & _ & _ & Hn).
    destruct (do tr req false s) as [[[r e] a] s']. cbn [fst snd] in *.
    unfold delivers in *. rewrite Hreq in *. cbn [fst snd] in *.
    destruct H as (H1 & H2 & H3 & H4 & H5). split_and!; try done.
  - unfold delivers. by rewrite Hreq.
Qed.

(** X20: a method of a REST client that is not nil sends one request, of
    its own HTTP method, and returns nil exactly when the server answers
    with status 200 and, where the body is wanted, a body that decodes,
    which it then hands back; a request that cannot be built is not sent,
    and no method panics. *)
Theorem rest_call_is_nil_on_200 c path body want (s : conn W) :
  delivers tr c "GET" path None want s (Get tr (Some c) path want s)
  /\ delivers tr c "POST" path body want s (Post tr (Some c) path body want s)
  /\ delivers tr c "PUT" path body want s (Put tr (Some c) path body want s)
  /\ delivers tr c "DELETE" path None false s
       ((Delete tr (Some c) path s).1, None, (Delete tr (Some c) path s).2).
Proof.
  split_and!;
    [apply Get_delivers|apply Post_delivers|apply Put_delivers|apply Delete_delivers].
Qed.

Lemma newRequest_method c method path body req :
  newRequest tr c method path body = Ok req -> Method req = method.
Proof.
  unfold newRequest.
  destruct body as [b|]; [destruct (Encode tr b); [|done]|];
    (destruct (NewRequest tr method _); [done|]; by intros [= <-]).
Qed.
End RestFacts.

Section PluginFacts.
Import Rest VdnDhcp.
Context {W Location Config Clientset VResult : Type}.
Variable en : Environment W Location Config Clientset VResult.

Lemma eachServerAdd_exchanges conf mac vdnId : forall servers (s : conn W),
  let body := Some {| ClientHwAddr := mac; VdnId := vdnId;
                      RequestIp := EmptyString |} in
  exists evs k,
    log (eachServerAdd en conf mac vdnId servers s).2 = log s ++ evs
    /\ sent <$> evs = take k (omap (request_of en "PUT" mac body) servers)
    /\ (forall i ex,
          evs !! i = Some ex -> accepted (transport en) true ex = true ->
          S i = length evs
          /\ exists resp a,
               answer ex = Ok resp
               /\ Decode (transport en) (ResponseBody resp) = Ok a
               /\ (eachServerAdd en conf mac vdnId servers s).1 = conclude en conf a)
    /\ (Forall (fun ex => accepted (transport en) true ex = false) evs ->
        ((eachServerAdd en conf mac vdnId servers s).1 = (Fail no_server, None)
         /\ sent <$> evs = omap (request_of en "PUT" mac body) servers
         /\ Forall (fun server => ~ unparsable en server) servers)
        \/ ((eachServerAdd en conf mac vdnId servers s).1 = (Panicked, None)
            /\ Exists (unparsable en) servers)).
Proof.
  intros servers. induction servers as [|server rest IH]; intros s body;
    subst body; cbn zeta in *.
  { exists [], 0%nat. cbn. rewrite app_nil_r.
    split; [done|]. split; [done|]. split.
    - intros i ex. by rewrite lookup_nil.
    - intros _. by left. }
  cbn [eachServerAdd omap list_omap].
  destruct (NewRestClient (transport en) (Url server) (User server) (Password server))
    as [c|] eqn:Hc.
  2: { exists [], 0%nat. cbn. rewrite app_nil_r.
       split; [done|]. split; [done|]. split.
       - intros i ex. by rewrite lookup_nil.
       - intros _. right. split; [done|]. by left. }
  set (body := Some _) in *.
  pose proof (Put_delivers (transport en) c mac body true s) as Hput.
  unfold delivers in Hput.
  destruct (newRequest (transport en) c "PUT" mac body) as [req|err] eqn:Hreq.
  all: assert (Hro : request_of en "PUT" mac body server
                     = match newRequest (transport en) c "PUT" mac body with
                       | Ok req => Some req
                       | Error _ => None
                       end) by (unfold request_of; by rewrite Hc).
  all: rewrite Hreq in Hro; rewrite Hro.
  2: { rewrite Hput. destruct (IH s) as (evs & k & Hl & Hs & Ha & Hf).
       exists evs, k. split; [done|]. split; [done|]. split; [done|].
       intros Hall. destruct (Hf Hall) as [(? & ? & ?)|[? ?]]; [left|right].
       - split; [done|]. split; [done|]. constructor; [|done].
         unfold unparsable. by rewrite Hc.
       - split; [done|]. by right. }
  destruct (Put (transport en) (Some c) mac body true s) as [[r a] s'].
  cbn [fst snd] in Hput. destruct Hput as (Hlog & _ & Hp & Hacc & Hdec).
  set (ex := Exchange req (Do (transport en) (world s) req).2) in *.
  destruct r as [|e|]; [| |done].
  - (* accepted *)
    destruct (Hdec eq_refl eq_refl) as (resp & a' & Hresp & Hd & ->).
    exists [ex], 1%nat. destruct (conclude en conf a') as [r printed] eqn:Hcon.
    cbn [fst snd]. split; [done|]. split; [done|]. split.
    + intros [|i] ex'; cbn; [|done]. intros [= <-] _.
      split; [done|]. exists resp, a'. by rewrite Hcon.
    + intros Hall. apply Forall_inv in Hall. destruct Hacc as [Hacc _].
      rewrite (Hacc eq_refl) in Hall. done.
  - (* refused *)
    destruct (IH s') as (evs & k & Hl & Hs & Ha & Hf).
    assert (Hex : accepted (transport en) true ex = false).
    { destruct (accepted (transport en) true ex); [|done].
      by destruct Hacc as [_ Hacc]; specialize (Hacc eq_refl). }
    exists (ex :: evs), (S k). split; [|split; [|split]].
    + by rewrite Hl, Hlog, <- app_assoc.
    + cbn. by rewrite Hs.
    + intros [|i] ex'; cbn.
      * intros [= <-]. by rewrite Hex.
      * intros Hi Hok. destruct (Ha _ _ Hi Hok) as [-> ?]. done.
    + intros Hall. apply Forall_cons in Hall as [_ Hall].
      destruct (Hf Hall) as [(? & Hfull & ?)|[? ?]]; [left|right].
      * split; [done|]. split; [cbn; by rewrite Hfull|].
        constructor; [|done]. unfold unparsable. by rewrite Hc.
      * split; [done|]. by right.
Qed.

Lemma eachServerDel_exchanges mac : forall servers (s : conn W),
  exists evs k,
    log (eachServerDel en mac servers s).2 = log s ++ evs
    /\ sent <$> evs = take k (omap (request_of en "DELETE" mac None) servers)
    /\ (forall i ex,
          evs !! i = Some ex -> accepted (transport en) false ex = true ->
          S i = length evs /\ (eachServerDel en mac servers s).1 = Nil)
    /\ ((eachServerDel en mac servers s).1 = Nil ->
        exists ex, last evs = Some ex /\ accepted (transport en) false ex = true)
    /\ (Forall (fun ex => accepted (transport en) false ex = false) evs ->
        ((eachServerDel en mac servers s).1 = Fail no_server
         /\ sent <$> evs = omap (request_of en "DELETE" mac None) servers
         /\ Forall (fun server => ~ unparsable en server) servers)
        \/ ((eachServerDel en mac servers s).1 = Panicked
            /\ Exists (unparsable en) servers)).
Proof.
  intros servers. induction servers as [|server rest IH]; intros s.
  { exists [], 0%nat. cbn. rewrite app_nil_r.
    split; [done|]. split; [done|]. split; [|split; [done|]].
    - intros i ex. by rewrite lookup_nil.
    - intros _. by left. }
  cbn [eachServerDel omap list_omap].
  destruct (NewRestClient (transport en) (Url server) (User server) (Password server))
    as [c|] eqn:Hc.
  2: { exists [], 0%nat. cbn. rewrite app_nil_r.
       split; [done|]. split; [done|]. split; [|split; [done|]].
       - intros i ex. by rewrite lookup_nil.
       - intros _. right. split; [done|]. by left. }
  pose proof (Delete_delivers (transport en) c mac s) as Hdel.
  unfold delivers in Hdel.
  destruct (newRequest (transport en) c "DELETE" mac None) as [req|err] eqn:Hreq.
  all: assert (Hro : request_of en "DELETE" mac None server
                     = match newRequest (transport en) c "DELETE" mac None with
                       | Ok req => Some req
                       | Error _ => None
                       end) by (unfold request_of; by rewrite Hc).
  all: rewrite Hreq in Hro; rewrite Hro.
  2: { assert (Hd : Delete (transport en) (Some c) mac s = (Fail err, s)).
       { destruct (Delete (transport en) (Some c) mac s) as [r s'].
         cbn [fst snd] in Hdel. by injection Hdel as -> ->. }
       rewrite Hd.
       destruct (IH s) as (evs & k & Hl & Hs & Ha & Hn & Hf).
       exists evs, k. do 4 (split; [done|]).
       intros Hall. destruct (Hf Hall) as [(? & ? & ?)|[? ?]]; [left|right].
       - split; [done|]. split; [done|]. constructor; [|done].
         unfold unparsable. by rewrite Hc.
       - split; [done|]. by right. }
  destruct (Delete (transport en) (Some c) mac s) as [r s'].
  cbn [fst snd] in Hdel. destruct Hdel as (Hlog & _ & Hp & Hacc & _).
  set (ex := Exchange req (Do (transport en) (world s) req).2) in *.
  destruct r as [|e|]; [| |done].
  - exists [ex], 1%nat. cbn [fst snd].
    split; [done|]. split; [done|]. split; [|split].
    + intros [|i] ex'; cbn; [|done]. by intros [= <-] _.
    + intros _. exists ex. split; [done|]. by apply Hacc.
    + intros Hall. apply Forall_inv in Hall. destruct Hacc as [Hacc _].
      rewrite (Hacc eq_refl) in Hall. done.
  - destruct (IH s') as (evs & k & Hl & Hs & Ha & Hn & Hf).
    assert (Hex : accepted (transport en) false ex = false).
    { destruct (accepted (transport en) false ex); [|done].
      by destruct Hacc as [_ Hacc]; specialize (Hacc eq_refl). }
    exists (ex :: evs), (S k). split; [|split; [|split; [|split]]].
    + by rewrite Hl, Hlog, <- app_assoc.
    + cbn. by rewrite Hs.
    + intros [|i] ex'; cbn.
      * intros [= <-]. by rewrite Hex.
      * intros Hi Hok. destruct (Ha _ _ Hi Hok) as [-> ?]. done.
    + intros Hnil. destruct (Hn Hnil) as (ex' & Hlast & Hok). exists ex'.
      split; [|done]. destruct evs; [done|]. done.
    + intros Hall. apply Forall_cons in Hall as [_ Hall].
      destruct (Hf Hall) as [(? & Hfull & ?)|[? ?]]; [left|right].
      * split; [done|]. split; [cbn; by rewrite Hfull|].
        constructor; [|done]. unfold unparsable. by rewrite Hc.
      * split; [done|]. by right.
Qed.

Lemma requests_method method mac body servers k evs :
  sent <$> evs = take k (omap (request_of en method mac body) servers) ->
  Forall (fun ex => Method (sent ex) = method) evs.
Proof.
  intros Hs. apply Forall_fmap with (f := sent) (P := fun r => Method r = method).
  rewrite Hs. apply Forall_take. apply Forall_forall. intros req Hin.
  apply list_elem_of_omap in Hin as (server & _ & Hreq).
  unfold request_of in Hreq. destruct (NewRestClient _ _ _ _); [|done].
  destruct (newRequest _ _ _ _ _) eqn:Hn; [|done].
  injection Hreq as <-. by eapply newRequest_method.
Qed.

(** X21: Add sends its PUT request to the configured servers in their
    order, skipping a server for which no request can be built, and stops
    at the first one that answers with status 200 and a body that decodes:
    that answer is the one the result is made of.  When no server does, all
    of them were asked and Add fails, unless the URL of a server does not
    parse, which makes Add panic. *)
Theorem add_takes_the_first_answer args (s : conn W) conf hw :
  loadConf en (Multicni.StdinData args) = Ok conf ->
  macAddr en (world s) (Multicni.Netns args) (Multicni.IfName args) = Ok hw ->
  exists evs k,
    log (cmdAdd en args s).2 = log s ++ evs
    /\ sent <$> evs
       = take k (omap (request_of en "PUT" (MacString en hw)
                         (Some {| ClientHwAddr := MacString en hw;
                                  VdnId := vdnIdOf en (world s) conf args;
                                  RequestIp := EmptyString |}))
                   (Servers conf))
    /\ Forall (fun ex => Method (sent ex) = "PUT") evs
    /\ (forall i ex,
          evs !! i = Some ex -> accepted (transport en) true ex = true ->
          S i = length evs
          /\ exists resp a,
               answer ex = Ok resp
               /\ Decode (transport en) (ResponseBody resp) = Ok a
               /\ (cmdAdd en args s).1 = conclude en conf a)
    /\ (Forall (fun ex => accepted (transport en) true ex = false) evs ->
        ((cmdAdd en args s).1 = (Fail no_server, None)
         /\ sent <$> evs
            = omap (request_of en "PUT" (MacString en hw)
                      (Some {| ClientHwAddr := MacString en hw;
                               VdnId := vdnIdOf en (world s) conf args;
                               RequestIp := EmptyString |}))
                (Servers conf)
         /\ Forall (fun server => ~ unparsable en server) (Servers conf))
        \/ ((cmdAdd en args s).1 = (Panicked, None)
            /\ Exists (unparsable en) (Servers conf))).
Proof.
  intros Hconf Hmac. unfold cmdAdd. rewrite Hconf, Hmac.
  destruct (eachServerAdd_exchanges conf (MacString en hw)
              (vdnIdOf en (world s) conf args)
              (Servers conf) s) as (evs & k & Hl & Hs & Ha & Hf).
  exists evs, k. split; [done|]. split; [done|].
  split; [by eapply requests_method|]. split; [done|].
  intros Hall. destruct (Hf Hall) as [(? & ? & ?)|[? ?]]; [by left|by right].
Qed.

(** X22: Del sends its DELETE request to the configured servers in their
    order and stops at the first one that answers with status 200; it
    returns nil exactly when a server did.  When no server does, all of
    them were asked and Del fails, unless the URL of a server does not
    parse, which makes Del panic. *)
Theorem del_stops_at_the_first_acceptance args (s : conn W) conf hw :
  loadConf en (Multicni.StdinData args) = Ok conf ->
  macAddr en (world s) (Multicni.Netns args) (Multicni.IfName args) = Ok hw ->
  exists evs k,
    log (cmdDel en args s).2 = log s ++ evs
    /\ sent <$> evs
       = take k (omap (request_of en "DELETE" (MacString en hw) None)
                   (Servers conf))
    /\ Forall (fun ex => Method (sent ex) = "DELETE") evs
    /\ (forall i ex,
          evs !! i = Some ex -> accepted (transport en) false ex = true ->
          S i = length evs /\ (cmdDel en args s).1 = Nil)
    /\ ((cmdDel en args s).1 = Nil ->
        exists ex, last evs = Some ex /\ accepted (transport en) false ex = true)
    /\ (Forall (fun ex => accepted (transport en) false ex = false) evs ->
        ((cmdDel en args s).1 = Fail no_server
         /\ sent <$> evs
            = omap (request_of en "DELETE" (MacString en hw) None) (Servers conf)
         /\ Forall (fun server => ~ unparsable en server) (Servers conf))
        \/ ((cmdDel en args s).1 = Panicked
            /\ Exists (unparsable en) (Servers conf))).
Proof.
  intros Hconf Hmac. unfold cmdDel. rewrite Hconf, Hmac.
  destruct (eachServerDel_exchanges (MacString en hw) (Servers conf) s)
    as (evs & k & Hl & Hs & Ha & Hn & Hf).
  exists evs, k. split; [done|]. split; [done|].
  split; [by eapply requests_method|]. done.
Qed.

(** X23: a configured server whose URL does not parse makes Add and Del
    panic, unless a server before it has accepted the request: the client
    constructor returns nil for it, and the method is called on nil. *)
Theorem unparsable_url_panics args (s : conn W) conf hw :
  loadConf en (Multicni.StdinData args) = Ok conf ->
  macAddr en (world s) (Multicni.Netns args) (Multicni.IfName args) = Ok hw ->
  Exists (unparsable en) (Servers conf) ->
  (forall evs, log (cmdAdd en args s).2 = log s ++ evs ->
     Forall (fun ex => accepted (transport en) true ex = false) evs ->
     (cmdAdd en args s).1 = (Panicked, None))
  /\ (forall evs, log (cmdDel en args s).2 = log s ++ evs ->
        Forall (fun ex => accepted (transport en) false ex = false) evs ->
        (cmdDel en args s).1 = Panicked).
Proof.
  intros Hconf Hmac Hbad. unfold cmdAdd, cmdDel. rewrite Hconf, Hmac. split.
  - destruct (eachServerAdd_exchanges conf (MacString en hw)
                (vdnIdOf en (world s) conf args) (Servers conf) s)
      as (evs & k & Hl & _ & _ & Hf).
    intros evs' Hl' Hall. rewrite Hl in Hl'. apply app_inv_head in Hl' as <-.
    destruct (Hf Hall) as [(_ & _ & Hgood)|[? _]]; [|done].
    apply Exists_exists in Hbad as (server & Hin & Hun).
    rewrite Forall_forall in Hgood. by destruct (Hgood _ Hin).
  - destruct (eachServerDel_exchanges (MacString en hw) (Servers conf) s)
      as (evs & k & Hl & _ & _ & _ & Hf).
    intros evs' Hl' Hall. rewrite Hl in Hl'. apply app_inv_head in Hl' as <-.
    destruct (Hf Hall) as [(_ & _ & Hgood)|[? _]]; [|done].
    apply Exists_exists in Hbad as (server & Hin & Hun).
    rewrite Forall_forall in Hgood. by destruct (Hgood _ Hin).
Qed.
End PluginFacts.

Section ResultFacts.
Import Rest VdnDhcp.
Context {W Location Config Clientset VResult : Type}.
Variable en : Environment W Location Config Clientset VResult.

Lemma nameservers_filter dns : forall acc servers,
  nameservers en dns acc = Ok servers ->
  servers = acc ++ filter (fun d => d <> EmptyString) dns
  /\ Forall (fun d => is_Some (ParseIP en d)) (filter (fun d => d <> EmptyString) dns).
Proof.
  induction dns as [|d rest IH]; intros acc servers; cbn [nameservers].
  - intros [= <-]. by rewrite app_nil_r.
  - case_bool_decide as Hd; cbn [negb].
    + intros H. rewrite filter_cons_False by (by intros ?). by apply IH.
    + rewrite filter_cons_True by done.
      destruct (ParseIP en d) as [ip|] eqn:Hip; [|done].
      intros H. apply IH in H as [-> Hall]. split; [by rewrite <- app_assoc|].
      constructor; [by rewrite Hip|done].
Qed.

Lemma nameservers_total dns : forall acc,
  Forall (fun d => is_Some (ParseIP en d)) (filter (fun d => d <> EmptyString) dns) ->
  nameservers en dns acc = Ok (acc ++ filter (fun d => d <> EmptyString) dns).
Proof.
  induction dns as [|d rest IH]; intros acc; cbn [nameservers].
  - intros _. by rewrite app_nil_r.
  - case_bool_decide as Hd; cbn [negb].
    + rewrite filter_cons_False by (by intros ?). apply IH.
    + rewrite filter_cons_True by done.
      intros [[ip Hip] Hall]%Forall_cons. rewrite Hip, IH by done.
      by rewrite <- app_assoc.
Qed.

(** X24: the answer of a server becomes a result exactly when its client
    address parses, its subnet mask is empty or parses, its first router is
    absent, empty or parses, and each of its name servers is empty or
    parses; the result has no interface, one IPv4 address with that mask,
    or the broadcast address as the mask when the answer has none, at most
    one route, the default route through the first router, and the name
    servers that are not empty, in their order. *)
Theorem answer_becomes_result dhcpResp result :
  resultOf en dhcpResp = Ok result
  <-> Interfaces result = []
      /\ (exists ip mask gateway,
            IPs result
            = [ {| Version := "4"; Address := {| IP := ip; Mask := mask |};
                   Gateway := gateway |} ]
            /\ ParseIP en (ClientIp dhcpResp) = Some ip
            /\ (if bool_decide (SubnetMask dhcpResp = EmptyString)
                then mask = IPv4bcast
                else ParseIP en (SubnetMask dhcpResp) = Some mask)
            /\ ((gateway = [] /\ Routes result = []
                 /\ (Router dhcpResp = []
                     \/ head (Router dhcpResp) = Some EmptyString))
                \/ (exists first,
                      head (Router dhcpResp) = Some first
                      /\ first <> EmptyString
                      /\ ParseIP en first = Some gateway
                      /\ Routes result
                         = [ {| Dst := {| IP := IPv4zero; Mask := IPv4zero |};
                                GW := gateway |} ])))
      /\ Nameservers result = filter (fun d => d <> EmptyString) (DNS dhcpResp)
      /\ Forall (fun d => is_Some (ParseIP en d)) (Nameservers result).
Proof.
  split.
  - unfold resultOf.
    destruct (ParseIP en (ClientIp dhcpResp)) as [ip|] eqn:Hip; [|done].
    destruct (if negb (bool_decide (SubnetMask dhcpResp = EmptyString)) then _ else _)
      as [mask|err] eqn:Hmask; [|done].
    destruct (match Router dhcpResp with [] => _ | _ => _ end)
      as [[gateway routes]|err] eqn:Hgw; [|done].
    destruct (nameservers en (DNS dhcpResp) []) as [servers|err] eqn:Hns; [|done].
    intros [= <-]. cbn [Interfaces IPs Routes Nameservers].
    apply nameservers_filter in Hns as [-> Hall]. cbn [app].
    split; [done|]. split; [|done].
    exists ip, mask, gateway. split; [done|]. split; [done|]. split.
    + case_bool_decide; cbn [negb] in Hmask.
      * by injection Hmask as <-.
      * by destruct (ParseIP en (SubnetMask dhcpResp)); [injection Hmask as <-|].
    + destruct (Router dhcpResp) as [|first rest].
      * injection Hgw as <- <-. left. split_and!; try done. by left.
      * case_bool_decide as Hfirst; cbn [negb] in Hgw.
        -- injection Hgw as <- <-. left. split_and!; try done. right. by rewrite Hfirst.
        -- destruct (ParseIP en first) as [router|] eqn:Hr; [|done].
           injection Hgw as <- <-. right. by exists first.
  - destruct result as [interfaces ips routes servers].
    cbn [Interfaces IPs Routes Nameservers].
    intros (-> & (ip & mask & gateway & -> & Hip & Hmask & Hgw) & -> & Hall).
    unfold resultOf. rewrite Hip, (nameservers_total _ [] Hall). cbn [app].
    assert (Hm : (if negb (bool_decide (SubnetMask dhcpResp = EmptyString))
                  then match ParseIP en (SubnetMask dhcpResp) with
                       | Some subnetMask => Ok subnetMask
                       | None =>
                         Error (Errorf "invalid subnet mask: %s"
                                  [SubnetMask dhcpResp] [])
                       end
                  else Ok IPv4bcast) = Ok mask).
    { case_bool_decide; cbn [negb]; [by rewrite Hmask|by rewrite Hmask]. }
    rewrite Hm.
    destruct Hgw as [(-> & -> & Hr)|(first & Hfirst & Hne & Hr & ->)].
    + destruct (Router dhcpResp) as [|first rest]; [done|].
      destruct Hr as [|[= ->]]; [done|].
      by rewrite bool_decide_true.
    + destruct (Router dhcpResp) as [|first' rest]; [done|].
      injection Hfirst as ->. rewrite bool_decide_false by done.
      cbn [negb]. by rewrite Hr.
Qed.
End ResultFacts.

(** ** More runs on the reference worlds *)

Section MoreDispatcherRuns.
Import Multicni Demo.

Lemma malformed_configuration_is_refused_witness :
  exists err,
    cmd (reading conf_nameless) false args (start NoSuchPod)
    = (Fail err, start NoSuchPod).
Proof.
  apply (malformed_configuration_is_refused (reading conf_nameless) false args
           (start NoSuchPod) conf_nameless); [reflexivity|].
  right. right. exists nameless. split; [by right; left|].
  right. vm_compute. reflexivity.
Defined.

Lemma type_assertion_never_panics_witness :
  (cmd world false args (start NoSuchPod)).1 <> Panicked.
Proof.
  apply (type_assertion_never_panics world false args (start NoSuchPod)).
  exists (Allocator.Podif "eth0" "eth" 0). vm_compute. reflexivity.
Defined.

Lemma only_CNI_IFNAME_is_set_witness :
  environ (cmd world false args (start NoSuchPod)).2 !! "PATH"
  = environ (start NoSuchPod) !! "PATH".
Proof.
  apply (only_CNI_IFNAME_is_set world false args (start NoSuchPod) "PATH").
  discriminate.
Defined.

(** C6 on the dynamic list [C, A]: every name selects an entry and every
    delegate answers, so the command returns nil and the entries invoked
    are the ones the names C and A select, in that order. *)
Lemma selection_in_order_witness :
  (cmd world false args (start (annotated (array ["C"; "A"])))).1 = Nil
  /\ exists evs,
       trace (cmd world false args (start (annotated (array ["C"; "A"])))).2
       = trace (start (annotated (array ["C"; "A"]))) ++ evs
       /\ Forall2 (selected world conf) ["C"; "A"] (invocations evs).
Proof.
  destruct (selection_in_order world false args
              (start (annotated (array ["C"; "A"]))) conf ["C"; "A"]
              eq_refl eq_refl eq_refl)
    as (evs & k & Htr & Hsel & _ & _ & _ & Hrun).
  assert (Hevs : evs
            = [InvokedAdd "ptp" (object_text "C" "ptp") "eth0" (Ok "ptp on eth0");
               Printed "ptp on eth0";
               InvokedAdd "bridge" (object_text "A" "bridge") "eth1"
                 (Ok "bridge on eth1")]).
  { symmetry. vm_compute in Htr. exact Htr. }
  destruct Hrun as [Hnil Hk].
  - eexists. vm_compute. reflexivity.
  - reflexivity.
  - intros name Hin. apply list_elem_of_In in Hin.
    destruct Hin as [<-|[<-|[]]]; eexists; vm_compute; reflexivity.
  - intros plugin _. by eexists.
  - rewrite Hevs. repeat constructor.
  - by intros result _.
  - split; [exact Hnil|]. exists evs. split; [exact Htr|].
    rewrite Hk in Hsel. exact Hsel.
Defined.

End MoreDispatcherRuns.

Section MoreHandlerRuns.
Import HostDevice Reference.

Lemma unique_address_any_order_witness :
  getLink (platform three_ways) [] ["02:00:00:00:00:02"; "zz"] [] three_links
  = getLink (platform three_ways) [] ["zz"; "02:00:00:00:00:02"] [] three_links.
Proof.
  apply (unique_address_any_order (platform three_ways) []
           ["02:00:00:00:00:02"; "zz"] ["zz"; "02:00:00:00:00:02"] [] three_links).
  - apply perm_swap.
  - intros links l l' [= <-] (a & Ha & Hm & Hl) (a' & Ha' & Hm' & Hl').
    assert (Hone : forall x b, b ∈ ["02:00:00:00:00:02"; "zz"] ->
              ParseMAC (platform three_ways) b = Ok (HardwareAddr x) ->
              x ∈ [enp5s0; enp4s0; enp3s0] -> x = enp4s0).
    { intros x b Hb Hp Hx.
      apply elem_of_cons in Hb as [->|Hb];
        [|apply elem_of_cons in Hb as [->|Hb]; [|by apply elem_of_nil in Hb]];
        vm_compute in Hp; [|discriminate].
      apply elem_of_cons in Hx as [->|Hx]; [discriminate|].
      apply elem_of_cons in Hx as [->|Hx]; [reflexivity|].
      apply elem_of_cons in Hx as [->|Hx]; [discriminate|].
      by apply elem_of_nil in Hx. }
    rewrite (Hone l a Ha Hm Hl). symmetry. exact (Hone l' a' Ha' Hm' Hl').
Defined.
End MoreHandlerRuns.

Section PluginRuns.
Import Rest VdnDhcp Lab.

Lemma add_takes_the_first_answer_witness :
  exists evs k,
    log (cmdAdd environment (args "stdin") start).2 = log start ++ evs
    /\ sent <$> evs
       = take k (omap (request_of environment "PUT" (MacString environment hardwareAddr)
                         (Some {| ClientHwAddr := MacString environment hardwareAddr;
                                  VdnId := vdnIdOf environment (world start) conf
                                             (args "stdin");
                                  RequestIp := EmptyString |}))
                   (Servers conf))
    /\ Forall (fun ex => Method (sent ex) = "PUT") evs
    /\ (forall i ex,
          evs !! i = Some ex -> accepted (transport environment) true ex = true ->
          S i = length evs
          /\ exists resp a,
               answer ex = Ok resp
               /\ Decode (transport environment) (ResponseBody resp) = Ok a
               /\ (cmdAdd environment (args "stdin") start).1
                  = conclude environment conf a)
    /\ (Forall (fun ex => accepted (transport environment) true ex = false) evs ->
        ((cmdAdd environment (args "stdin") start).1 = (Fail no_server, None)
         /\ sent <$> evs
            = omap (request_of environment "PUT" (MacString environment hardwareAddr)
                      (Some {| ClientHwAddr := MacString environment hardwareAddr;
                               VdnId := vdnIdOf environment (world start) conf
                                          (args "stdin");
                               RequestIp := EmptyString |}))
                (Servers conf)
         /\ Forall (fun server => ~ unparsable environment server) (Servers conf))
        \/ ((cmdAdd environment (args "stdin") start).1 = (Panicked, None)
            /\ Exists (unparsable environment) (Servers conf))).
Proof.
  apply (add_takes_the_first_answer environment (args "stdin") start conf hardwareAddr);
    reflexivity.
Defined.

Lemma del_stops_at_the_first_acceptance_witness :
  exists evs k,
    log (cmdDel environment (args "stdin") start).2 = log start ++ evs
    /\ sent <$> evs
       = take k (omap (request_of environment "DELETE"
                         (MacString environment hardwareAddr) None)
                   (Servers conf))
    /\ Forall (fun ex => Method (sent ex) = "DELETE") evs
    /\ (forall i ex,
          evs !! i = Some ex -> accepted (transport environment) false ex = true ->
          S i = length evs /\ (cmdDel environment (args "stdin") start).1 = Nil)
    /\ ((cmdDel environment (args "stdin") start).1 = Nil ->
        exists ex, last evs = Some ex
          /\ accepted (transport environment) false ex = true)
    /\ (Forall (fun ex => accepted (transport environment) false ex = false) evs ->
        ((cmdDel environment (args "stdin") start).1 = Fail no_server
         /\ sent <$> evs
            = omap (request_of environment "DELETE"
                      (MacString environment hardwareAddr) None) (Servers conf)
         /\ Forall (fun server => ~ unparsable environment server) (Servers conf))
        \/ ((cmdDel environment (args "stdin") start).1 = Panicked
            /\ Exists (unparsable environment) (Servers conf))).
Proof.
  apply (del_stops_at_the_first_acceptance environment (args "stdin") start conf
           hardwareAddr); reflexivity.
Defined.

Lemma unparsable_url_panics_witness :
  (forall evs,
     log (cmdAdd environment (args "stray") start).2 = log start ++ evs ->
     Forall (fun ex => accepted (transport environment) true ex = false) evs ->
     (cmdAdd environment (args "stray") start).1 = (Panicked, None))
  /\ (forall evs,
        log (cmdDel environment (args "stray") start).2 = log start ++ evs ->
        Forall (fun ex => accepted (transport environment) false ex = false) evs ->
        (cmdDel environment (args "stray") start).1 = Panicked).
Proof.
  apply (unparsable_url_panics environment (args "stray") start conf_stray
           hardwareAddr); [reflexivity|reflexivity|].
  apply Exists_cons_tl, Exists_cons_hd. reflexivity.
Defined.

Lemma answer_becomes_result_witness :
  Interfaces granted = []
  /\ (exists ip mask gateway,
        IPs granted
        = [ {| Version := "4"; Address := {| IP := ip; Mask := mask |};
               Gateway := gateway |} ]
        /\ ParseIP environment (ClientIp lease) = Some ip
        /\ (if bool_decide (SubnetMask lease = EmptyString)
            then mask = IPv4bcast
            else ParseIP environment (SubnetMask lease) = Some mask)
        /\ ((gateway = [] /\ Routes granted = []
             /\ (Router lease = [] \/ head (Router lease) = Some EmptyString))
            \/ (exists first,
                  head (Router lease) = Some first
                  /\ first <> EmptyString
                  /\ ParseIP environment first = Some gateway
                  /\ Routes granted
                     = [ {| Dst := {| IP := IPv4zero; Mask := IPv4zero |};
                            GW := gateway |} ])))
  /\ Nameservers granted = filter (fun d => d <> EmptyString) (DNS lease)
  /\ Forall (fun d => is_Some (ParseIP environment d)) (Nameservers granted).
Proof.
  apply (proj1 (answer_becomes_result environment lease granted)). reflexivity.
Defined.
End PluginRuns.
